(** * Verification of the portfolio card: share codec, validation,
      contact storage and crop state

    The development follows the JavaScript sources:
    - [js/utils.js]   : encodeObj, decodeObj, _hex, _rgb, isHexColor, pickColor,
                        contrastColor, formatName, getEmailErrors, formatPhone,
                        parsePrettyPhone10, fixUrl
    - [js/storage.js] : getMyCard, saveMyCard, removeMyCard, getSavedContacts,
                        saveSavedContacts, addContact, removeContact,
                        buildShareObj, the phone line of applyCardData
    - [js/share.js]   : generateQRCode, buildShareUrlFromUI
    - [js/main.js]    : checkForSharedCard, loadMyCard, the e-mail filter
    - settings module : saveSettings, the filters of the text controls, the
                        crop state and its listeners
    - home module     : renderPortfolioSection, saveContact, viewContact,
                        deleteContact

    Part I is the embedding (JavaScript strings, the host functions the
    sources call, then the sources themselves); Part II holds the proofs. *)

From Stdlib Require Import String Ascii DecimalString.
From Stdlib Require Import NArith ZArith QArith List Lia Bool.
From Stdlib Require PrimFloat FloatOps SpecFloat Uint63.
Import ListNotations.

Open Scope N_scope.

(* ################################################################# *)
(** * Part I: the embedding *)

(* ================================================================= *)
(** ** JavaScript strings *)

(** A JavaScript string is a sequence of UTF-16 code units.  A code unit
    is kept as an [N]; [wf_string] says every unit fits in 16 bits. *)

Definition jsstring := list N.

Definition wf_string (s : jsstring) : bool := forallb (fun c => c <? 65536) s.

(** ASCII literals of the sources are written as Rocq strings. *)
Definition js (s : string) : jsstring := map N_of_ascii (list_ascii_of_string s).

Definition ch (a : ascii) : N := Eval cbv in N_of_ascii a.

Definition str_eqb (a b : jsstring) : bool :=
  if list_eq_dec N.eq_dec a b then true else false.

Definition in_range (lo hi c : N) : bool := (lo <=? c) && (c <=? hi).

Definition is_digit (c : N) : bool := in_range 48 57 c.
Definition is_upper (c : N) : bool := in_range 65 90 c.
Definition is_lower (c : N) : bool := in_range 97 122 c.
Definition is_alpha (c : N) : bool := is_upper c || is_lower c.
Definition is_alnum (c : N) : bool := is_alpha c || is_digit c.

Definition mem (c : N) (s : jsstring) : bool := existsb (N.eqb c) s.

(** Hexadecimal digits, as the URI and JSON functions of the host read and
    write them. *)
Definition hex_val (c : N) : option N :=
  if is_digit c then Some (c - 48)
  else if in_range 65 70 c then Some (c - 55)
  else if in_range 97 102 c then Some (c - 87)
  else None.

Definition hex_upper (d : N) : N := if d <? 10 then 48 + d else 55 + d.
Definition hex_lower (d : N) : N := if d <? 10 then 48 + d else 87 + d.

Definition hex2 (c1 c2 : N) : option N :=
  match hex_val c1, hex_val c2 with
  | Some a, Some b => Some (a * 16 + b)
  | _, _ => None
  end.

Definition hex4 (c1 c2 c3 c4 : N) : option N :=
  match hex2 c1 c2, hex2 c3 c4 with
  | Some a, Some b => Some (a * 256 + b)
  | _, _ => None
  end.

(** Surrogate code units. *)
Definition is_high_surrogate (c : N) : bool := in_range 55296 56319 c.
Definition is_low_surrogate (c : N) : bool := in_range 56320 57343 c.
Definition is_surrogate (c : N) : bool := in_range 55296 57343 c.

(** String.prototype.trim and the [\s] class of regular expressions:
    WhiteSpace and LineTerminator of ECMAScript. *)
Definition is_js_space (c : N) : bool :=
  in_range 9 13 c || (c =? 32) || (c =? 160) || (c =? 5760)
  || in_range 8192 8202 c || (c =? 8232) || (c =? 8233) || (c =? 8239)
  || (c =? 8287) || (c =? 12288) || (c =? 65279).

Fixpoint drop_while (p : N -> bool) (s : jsstring) : jsstring :=
  match s with
  | c :: r => if p c then drop_while p r else s
  | [] => []
  end.

Definition trim (s : jsstring) : jsstring :=
  rev (drop_while is_js_space (rev (drop_while is_js_space s))).

(** [s.replace(/\s+/g, by)]: every maximal run of white space becomes [by]. *)
Fixpoint replace_spaces (by_ : jsstring) (s : jsstring) : jsstring :=
  match s with
  | [] => []
  | c :: r =>
      if is_js_space c
      then match r with
           | d :: _ => if is_js_space d then replace_spaces by_ r
                       else by_ ++ replace_spaces by_ r
           | [] => by_
           end
      else c :: replace_spaces by_ r
  end.

(** toLowerCase / toUpperCase on ASCII text: the ASCII letters are mapped,
    every other unit stays.  Colours and names are lowercased after an
    ASCII-only pattern has accepted them, and the scheme of a URL is compared
    with ASCII letters only.  Outside ASCII the host follows the Unicode case
    mappings, which are not modelled: the model is exact on texts without
    capital letters outside ASCII, and an e-mail address with such letters
    keeps them as typed here where the host lowers them. *)
Definition to_lower_unit (c : N) : N := if is_upper c then c + 32 else c.
Definition to_upper_unit (c : N) : N := if is_lower c then c - 32 else c.
Definition toLowerCase (s : jsstring) : jsstring := map to_lower_unit s.
Definition toUpperCase (s : jsstring) : jsstring := map to_upper_unit s.

Fixpoint starts_with (p s : jsstring) : bool :=
  match p, s with
  | [], _ => true
  | a :: p', b :: s' => (a =? b) && starts_with p' s'
  | _ :: _, [] => false
  end.

Definition ends_with (p s : jsstring) : bool := starts_with (rev p) (rev s).

Fixpoint includes (p s : jsstring) : bool :=
  starts_with p s || match s with [] => false | _ :: r => includes p r end.

(** [s.split(sep)] for a one-unit separator. *)
Fixpoint split_on (sep : N) (s : jsstring) : list jsstring :=
  match s with
  | [] => [[]]
  | c :: r =>
      if c =? sep then [] :: split_on sep r
      else match split_on sep r with
           | w :: ws => (c :: w) :: ws
           | [] => [[c]]
           end
  end.

(** [parts.join(sep)]. *)
Fixpoint join (sep : jsstring) (parts : list jsstring) : jsstring :=
  match parts with
  | [] => []
  | [w] => w
  | w :: ws => w ++ sep ++ join sep ws
  end.

(** [s.slice(a, b)] for in-range, non-negative bounds. *)
Definition slice (a b : nat) (s : jsstring) : jsstring := firstn (b - a) (skipn a s).
Definition slice_from (a : nat) (s : jsstring) : jsstring := skipn a s.

(* ================================================================= *)
(** ** Host functions: btoa, atob, escape, unescape, the URI functions *)

(** A host function that throws returns [None]. *)

Definition b64_alphabet : jsstring :=
  js "ABCDEFGHIJKLMNOPQRSTUVWXYZabcdefghijklmnopqrstuvwxyz0123456789+/".

Definition b64_char (i : N) : N := nth (N.to_nat i) b64_alphabet 0.

Fixpoint index_of (c : N) (s : jsstring) : option N :=
  match s with
  | [] => None
  | d :: r => if c =? d then Some 0
              else match index_of c r with Some i => Some (N.succ i) | None => None end
  end.

Definition b64_index (c : N) : option N := index_of c b64_alphabet.

(** Base64 of a sequence of octets, three octets to four characters, padded
    with [=] (61). *)
Fixpoint b64_encode (bs : list N) : jsstring :=
  match bs with
  | [] => []
  | [a] => [b64_char (a / 4); b64_char ((a mod 4) * 16); 61; 61]
  | [a; b] =>
      [b64_char (a / 4); b64_char ((a mod 4) * 16 + b / 16);
       b64_char ((b mod 16) * 4); 61]
  | a :: b :: c :: rest =>
      b64_char (a / 4) :: b64_char ((a mod 4) * 16 + b / 16)
      :: b64_char ((b mod 16) * 4 + c / 64) :: b64_char (c mod 64)
      :: b64_encode rest
  end.

(** [btoa]: throws on a unit above 255. *)
Definition btoa (s : jsstring) : option jsstring :=
  if forallb (fun c => c <? 256) s then Some (b64_encode s) else None.

Definition is_ascii_ws (c : N) : bool :=
  (c =? 9) || (c =? 10) || (c =? 12) || (c =? 13) || (c =? 32).

Definition strip_padding (s : jsstring) : jsstring :=
  if N.of_nat (length s) mod 4 =? 0
  then match rev s with
       | c1 :: c2 :: r =>
           if c1 =? 61 then (if c2 =? 61 then rev r else rev (c2 :: r)) else s
       | _ => s
       end
  else s.

Fixpoint map_opt {A B} (f : A -> option B) (l : list A) : option (list B) :=
  match l with
  | [] => Some []
  | x :: r =>
      match f x, map_opt f r with
      | Some y, Some ys => Some (y :: ys)
      | _, _ => None
      end
  end.

(** Four sextets give three octets; a final group of three or two sextets
    gives two or one, the spare bits dropped. *)
Fixpoint b64_decode (ix : list N) : list N :=
  match ix with
  | i1 :: i2 :: i3 :: i4 :: rest =>
      (i1 * 4 + i2 / 16) :: ((i2 mod 16) * 16 + i3 / 4) :: ((i3 mod 4) * 64 + i4)
      :: b64_decode rest
  | [i1; i2; i3] => [i1 * 4 + i2 / 16; (i2 mod 16) * 16 + i3 / 4]
  | [i1; i2] => [i1 * 4 + i2 / 16]
  | _ => []
  end.

(** [atob], the forgiving-base64 decode of the HTML standard: ASCII white
    space is removed, one or two trailing [=] are removed when the length is
    a multiple of four, a length of 1 modulo 4 or a unit outside the
    alphabet throws. *)
Definition atob (s : jsstring) : option jsstring :=
  let d := strip_padding (filter (fun c => negb (is_ascii_ws c)) s) in
  if N.of_nat (length d) mod 4 =? 1 then None
  else match map_opt b64_index d with
       | Some ix => Some (b64_decode ix)
       | None => None
       end.

(** UTF-8 octets of a code point. *)
Definition utf8_octets (cp : N) : list N :=
  if cp <? 128 then [cp]
  else if cp <? 2048 then [192 + cp / 64; 128 + cp mod 64]
  else if cp <? 65536 then
    [224 + cp / 4096; 128 + (cp / 64) mod 64; 128 + cp mod 64]
  else [240 + cp / 262144; 128 + (cp / 4096) mod 64;
        128 + (cp / 64) mod 64; 128 + cp mod 64].

Definition pct (b : N) : jsstring := [37; hex_upper (b / 16); hex_upper (b mod 16)].

Definition pct_all (bs : list N) : jsstring := flat_map pct bs.

(** uriUnreserved: letters, digits and [-_.!~*'()]. *)
Definition uri_unreserved (c : N) : bool :=
  is_alnum c || mem c (js "-_.!~*'()").

(** [encodeURIComponent]: unreserved units stay, every other code point is
    written as the percent-escapes of its UTF-8 octets; a lone surrogate
    throws URIError. *)
Fixpoint encodeURIComponent (s : jsstring) : option jsstring :=
  match s with
  | [] => Some []
  | c :: r =>
      if uri_unreserved c then option_map (cons c) (encodeURIComponent r)
      else if is_low_surrogate c then None
      else if is_high_surrogate c then
        match r with
        | d :: r' =>
            if is_low_surrogate d
            then option_map
                   (app (pct_all (utf8_octets ((c - 55296) * 1024 + (d - 56320) + 65536))))
                   (encodeURIComponent r')
            else None
        | [] => None
        end
      else option_map (app (pct_all (utf8_octets c))) (encodeURIComponent r)
  end.

(** [unescape]: [%uXXXX] and [%XX] are replaced by the unit they name. *)
Fixpoint unescape (s : jsstring) : jsstring :=
  match s with
  | [] => []
  | c :: r =>
      if c =? 37 then
        match r with
        | u :: h1 :: r2 =>
            let two := match hex2 u h1 with
                       | Some v => v :: unescape r2
                       | None => c :: unescape r
                       end in
            match r2 with
            | h2 :: h3 :: h4 :: r5 =>
                match (if u =? 117 then hex4 h1 h2 h3 h4 else None) with
                | Some v => v :: unescape r5
                | None => two
                end
            | _ => two
            end
        | _ => c :: unescape r
        end
      else c :: unescape r
  end.

(** [escape]: letters, digits and [@*_+-./] stay; a unit below 256 becomes
    [%XX], any other [%uXXXX]. *)
Definition escape_safe (c : N) : bool := is_alnum c || mem c (js "@*_+-./").

Definition escape_unit (c : N) : jsstring :=
  if escape_safe c then [c]
  else if c <? 256 then pct c
  else [37; 117; hex_upper (c / 4096); hex_upper ((c / 256) mod 16);
        hex_upper ((c / 16) mod 16); hex_upper (c mod 16)].

Definition escape (s : jsstring) : jsstring := flat_map escape_unit s.

(** One [%XX] escape at the head of [s]. *)
Definition take_pct (s : jsstring) : option (N * jsstring) :=
  match s with
  | p :: h1 :: h2 :: r =>
      if p =? 37 then option_map (fun v => (v, r)) (hex2 h1 h2) else None
  | _ => None
  end.

(** One escaped continuation octet (10xxxxxx). *)
Definition take_cont (s : jsstring) : option (N * jsstring) :=
  match take_pct s with
  | Some (b, r) => if in_range 128 191 b then Some (b, r) else None
  | None => None
  end.

Definition utf16_units (cp : N) : jsstring :=
  if cp <? 65536 then [cp]
  else [55296 + (cp - 65536) / 1024; 56320 + (cp - 65536) mod 1024].

(** The UTF-8 sequence that starts with the octet [b]: its continuation
    octets are read from [r1], and [k] decodes what follows the sequence.
    The sequence must be the shortest encoding of a code point that is no
    surrogate and at most 10FFFF. *)
Definition decode_octets (k : jsstring -> option jsstring) (b : N) (r1 : jsstring)
  : option jsstring :=
  if b <? 128 then option_map (cons b) (k r1)
  else if in_range 192 223 b then
    match take_cont r1 with
    | Some (b2, r2) =>
        let cp := (b - 192) * 64 + (b2 - 128) in
        if cp <? 128 then None else option_map (app (utf16_units cp)) (k r2)
    | None => None
    end
  else if in_range 224 239 b then
    match take_cont r1 with
    | Some (b2, r2) =>
        match take_cont r2 with
        | Some (b3, r3) =>
            let cp := (b - 224) * 4096 + (b2 - 128) * 64 + (b3 - 128) in
            if (cp <? 2048) || is_surrogate cp then None
            else option_map (app (utf16_units cp)) (k r3)
        | None => None
        end
    | None => None
    end
  else if in_range 240 247 b then
    match take_cont r1 with
    | Some (b2, r2) =>
        match take_cont r2 with
        | Some (b3, r3) =>
            match take_cont r3 with
            | Some (b4, r4) =>
                let cp := (b - 240) * 262144 + (b2 - 128) * 4096
                          + (b3 - 128) * 64 + (b4 - 128) in
                if (cp <? 65536) || (1114111 <? cp) then None
                else option_map (app (utf16_units cp)) (k r4)
            | None => None
            end
        | None => None
        end
    | None => None
    end
  else None.

(** [decodeURIComponent]: a unit other than [%] stays; [%XX] starts a UTF-8
    sequence of one to four escaped octets; anything malformed throws
    URIError.  Every step consumes input, so the length of the input is
    enough fuel. *)
Fixpoint decode_uri (fuel : nat) (s : jsstring) : option jsstring :=
  match fuel with
  | O => match s with [] => Some [] | _ => None end
  | S f =>
      match s with
      | [] => Some []
      | c :: r =>
          if negb (c =? 37) then option_map (cons c) (decode_uri f r)
          else
            match take_pct s with
            | None => None
            | Some (b, r1) => decode_octets (decode_uri f) b r1
            end
      end
  end.

Definition decodeURIComponent (s : jsstring) : option jsstring :=
  decode_uri (length s) s.

(* ================================================================= *)
(** ** JavaScript values and JSON *)

(** The values a card, a contact or a share object is built from.  An object
    is the list of its own properties in the order they were written, which
    is the order the host enumerates them in when no key is an array index
    (the keys of cards and contacts are names).  Numbers do not occur in a
    card, a contact or a share object (the time stamps are ISO strings) and
    are left out: the model covers the values without numbers, and every
    statement about [value] is a statement about those. *)
#[local] Unset Elimination Schemes.
Inductive value : Type :=
| VUndefined
| VNull
| VBool (b : bool)
| VStr (s : jsstring)
| VArr (items : list value)
| VObj (fields : list (jsstring * value)).
#[local] Set Elimination Schemes.

Definition object := list (jsstring * value).

Fixpoint lookup (k : jsstring) (o : object) : value :=
  match o with
  | [] => VUndefined
  | (k', v) :: r => if str_eqb k k' then v else lookup k r
  end.

Fixpoint has_key (k : jsstring) (o : object) : bool :=
  match o with
  | [] => false
  | (k', _) :: r => str_eqb k k' || has_key k r
  end.

(** Writing a property: an existing key keeps its place and takes the new
    value, a new key goes last. *)
Fixpoint obj_set (k : jsstring) (v : value) (o : object) : object :=
  match o with
  | [] => [(k, v)]
  | (k', v') :: r => if str_eqb k k' then (k, v) :: r else (k', v') :: obj_set k v r
  end.

(** [o.k] on a value: [undefined] when the property is missing. *)
Definition get (k : string) (v : value) : value :=
  match v with
  | VObj o => lookup (js k) o
  | _ => VUndefined
  end.

(** ToBoolean. *)
Definition truthy (v : value) : bool :=
  match v with
  | VUndefined | VNull => false
  | VBool b => b
  | VStr s => negb (str_eqb s [])
  | VArr _ | VObj _ => true
  end.

(** [===]: primitives compare by value; two objects are equal only when they
    are the same object, and an object parsed from storage or from a token is
    never the object it is compared with. *)
Definition strict_eq (a b : value) : bool :=
  match a, b with
  | VUndefined, VUndefined => true
  | VNull, VNull => true
  | VBool x, VBool y => Bool.eqb x y
  | VStr x, VStr y => str_eqb x y
  | _, _ => false
  end.

(** *** JSON.stringify *)

Definition json_escape_unit (c : N) : jsstring :=
  [92; 117; hex_lower (c / 4096); hex_lower ((c / 256) mod 16);
   hex_lower ((c / 16) mod 16); hex_lower (c mod 16)].

Definition quote_unit (c : N) : jsstring :=
  if c =? 8 then [92; 98]
  else if c =? 9 then [92; 116]
  else if c =? 10 then [92; 110]
  else if c =? 12 then [92; 102]
  else if c =? 13 then [92; 114]
  else if c =? 34 then [92; 34]
  else if c =? 92 then [92; 92]
  else if (c <? 32) || is_surrogate c then json_escape_unit c
  else [c].

(** QuoteJSONString walks the code points: a surrogate pair is copied, a
    lone surrogate is escaped. *)
Fixpoint quote_body (s : jsstring) : jsstring :=
  match s with
  | [] => []
  | c :: r =>
      if is_high_surrogate c then
        match r with
        | d :: r' =>
            if is_low_surrogate d then c :: d :: quote_body r'
            else quote_unit c ++ quote_body r
        | [] => quote_unit c
        end
      else quote_unit c ++ quote_body r
  end.

Definition QuoteJSONString (s : jsstring) : jsstring := 34 :: quote_body s ++ [34].

(** SerializeJSONProperty: [None] is the result [undefined].  A property
    whose value is [undefined] is skipped; in an array it is written
    [null]. *)
Fixpoint stringify (v : value) : option jsstring :=
  match v with
  | VUndefined => None
  | VNull => Some (js "null")
  | VBool true => Some (js "true")
  | VBool false => Some (js "false")
  | VStr s => Some (QuoteJSONString s)
  | VArr items =>
      Some (91 :: join [44]
                   (map (fun x => match stringify x with
                                  | Some t => t
                                  | None => js "null"
                                  end) items) ++ [93])
  | VObj fields =>
      Some (123 :: join [44]
                    (flat_map (fun kv : jsstring * value => let (k, x) := kv in
                                         match stringify x with
                                         | Some t => [QuoteJSONString k ++ 58 :: t]
                                         | None => @nil jsstring
                                         end) fields) ++ [125])
  end.

Definition JSON_stringify (v : value) : option jsstring := stringify v.

(** *** JSON.parse *)

Definition is_json_ws (c : N) : bool :=
  (c =? 9) || (c =? 10) || (c =? 13) || (c =? 32).

Fixpoint skip_ws (s : jsstring) : jsstring :=
  match s with
  | c :: r => if is_json_ws c then skip_ws r else s
  | [] => []
  end.

Definition simple_escape (e : N) : option N :=
  if e =? 34 then Some 34
  else if e =? 92 then Some 92
  else if e =? 47 then Some 47
  else if e =? 98 then Some 8
  else if e =? 102 then Some 12
  else if e =? 110 then Some 10
  else if e =? 114 then Some 13
  else if e =? 116 then Some 9
  else None.

Definition cons_fst {A} (c : N) (r : option (jsstring * A)) : option (jsstring * A) :=
  match r with
  | Some (s, x) => Some (c :: s, x)
  | None => None
  end.

(** The characters of a string literal after its opening quote, up to and
    including the closing one; returns the string and what follows. *)
Fixpoint parse_string_body (s : jsstring) : option (jsstring * jsstring) :=
  match s with
  | [] => None
  | c :: r =>
      if c =? 34 then Some ([], r)
      else if c =? 92 then
        match r with
        | [] => None
        | e :: r1 =>
            if e =? 117 then
              match r1 with
              | h1 :: h2 :: h3 :: h4 :: r5 =>
                  match hex4 h1 h2 h3 h4 with
                  | Some v => cons_fst v (parse_string_body r5)
                  | None => None
                  end
              | _ => None
              end
            else
              match simple_escape e with
              | Some v => cons_fst v (parse_string_body r1)
              | None => None
              end
        end
      else if c <? 32 then None
      else cons_fst c (parse_string_body r)
  end.

(** The recursive-descent parser.  [parse_value] reads one value after
    optional white space; [parse_members] and [parse_elements] read the rest
    of an object or an array once its first member is due.  A repeated key
    overwrites ([obj_set]).  Number literals are outside the model and read
    as a syntax error. *)
Fixpoint parse_value (fuel : nat) (s : jsstring) : option (value * jsstring) :=
  match fuel with
  | O => None
  | S f =>
      match skip_ws s with
      | [] => None
      | c :: r =>
          if c =? 34 then
            match parse_string_body r with
            | Some (t, r') => Some (VStr t, r')
            | None => None
            end
          else if c =? 123 then
            match skip_ws r with
            | d :: r' => if d =? 125 then Some (VObj [], r')
                         else parse_members f (d :: r') []
            | [] => None
            end
          else if c =? 91 then
            match skip_ws r with
            | d :: r' => if d =? 93 then Some (VArr [], r')
                         else parse_elements f (d :: r') []
            | [] => None
            end
          else if starts_with (js "true") (c :: r) then Some (VBool true, skipn 4 (c :: r))
          else if starts_with (js "false") (c :: r) then Some (VBool false, skipn 5 (c :: r))
          else if starts_with (js "null") (c :: r) then Some (VNull, skipn 4 (c :: r))
          else None
      end
  end

with parse_members (fuel : nat) (s : jsstring) (acc : object)
  : option (value * jsstring) :=
  match fuel with
  | O => None
  | S f =>
      match skip_ws s with
      | q :: r =>
          if q =? 34 then
            match parse_string_body r with
            | Some (k, r1) =>
                match skip_ws r1 with
                | colon :: r2 =>
                    if colon =? 58 then
                      match parse_value f r2 with
                      | Some (v, r3) =>
                          match skip_ws r3 with
                          | e :: r4 =>
                              if e =? 44 then parse_members f r4 (obj_set k v acc)
                              else if e =? 125 then Some (VObj (obj_set k v acc), r4)
                              else None
                          | [] => None
                          end
                      | None => None
                      end
                    else None
                | [] => None
                end
            | None => None
            end
          else None
      | [] => None
      end
  end

with parse_elements (fuel : nat) (s : jsstring) (acc : list value)
  : option (value * jsstring) :=
  match fuel with
  | O => None
  | S f =>
      match parse_value f s with
      | Some (v, r1) =>
          match skip_ws r1 with
          | e :: r2 =>
              if e =? 44 then parse_elements f r2 (acc ++ [v])
              else if e =? 93 then Some (VArr (acc ++ [v]), r2)
              else None
          | [] => None
          end
      | None => None
      end
  end.

(** [JSON.parse]: one value, then nothing but white space.  The length of
    the text is enough fuel, every call consuming input.  A text with a
    number literal is outside the model (the host parses it, here it is
    refused like a malformed text); the texts the program itself writes
    hold none. *)
Definition JSON_parse (s : jsstring) : option value :=
  match parse_value (S (length s)) s with
  | Some (v, r) => match skip_ws r with [] => Some v | _ => None end
  | None => None
  end.

(** ** [js/utils.js]: encodeObj and decodeObj *)

Definition opt_bind {A B} (x : option A) (f : A -> option B) : option B :=
  match x with Some a => f a | None => None end.

Notation "x <- e ;; k" := (opt_bind e (fun x => k))
  (at level 61, e at next level, right associativity).

(** [JSON.stringify] hands [undefined] on to [encodeURIComponent], which
    reads it as the text "undefined". *)
Definition stringify_text (v : value) : jsstring :=
  match JSON_stringify v with
  | Some t => t
  | None => js "undefined"
  end.

(** const encodeObj = (obj) =>
      btoa(unescape(encodeURIComponent(JSON.stringify(obj)))); *)
Definition encodeObj (obj : value) : option jsstring :=
  e <- encodeURIComponent (stringify_text obj) ;;
  btoa (unescape e).

(** const decodeObj = (str) =>
      JSON.parse(decodeURIComponent(escape(atob(str)))); *)
Definition decodeObj (str : jsstring) : option value :=
  b <- atob str ;;
  t <- decodeURIComponent (escape b) ;;
  JSON_parse t.

(* ================================================================= *)
(** ** localStorage *)

(** The store keeps texts under keys.  [setItem] throws QuotaExceededError
    when the store would grow past its quota. *)
Record Storage : Type := mkStorage {
  items : list (jsstring * jsstring);
  quota : N
}.

Fixpoint getItem (k : jsstring) (l : list (jsstring * jsstring)) : option jsstring :=
  match l with
  | [] => None
  | (k', t) :: r => if str_eqb k k' then Some t else getItem k r
  end.

Fixpoint put_item (k t : jsstring) (l : list (jsstring * jsstring))
  : list (jsstring * jsstring) :=
  match l with
  | [] => [(k, t)]
  | (k', t') :: r => if str_eqb k k' then (k, t) :: r else (k', t') :: put_item k t r
  end.

Fixpoint usage (l : list (jsstring * jsstring)) : nat :=
  match l with
  | [] => 0
  | (k, t) :: r => length k + length t + usage r
  end.

Definition setItem (k t : jsstring) (st : Storage) : option Storage :=
  let l := put_item k t (items st) in
  if N.of_nat (usage l) <=? quota st then Some (mkStorage l (quota st)) else None.

Definition removeItem (k : jsstring) (st : Storage) : Storage :=
  mkStorage (filter (fun kv => negb (str_eqb k (fst kv))) (items st)) (quota st).

(* ================================================================= *)
(** ** [js/storage.js]: the card and the saved contacts *)

(** function getMyCard(): the stored card, [null] when there is none or the
    text does not parse. *)
Definition getMyCard (st : Storage) : value :=
  match getItem (js "myCard") (items st) with
  | Some t =>
      if str_eqb t [] then VNull
      else match JSON_parse t with
           | Some v => v
           | None => VNull
           end
  | None => VNull
  end.

(** function saveMyCard(cardData) *)
Definition saveMyCard (cardData : value) (st : Storage) : bool * Storage :=
  match setItem (js "myCard") (stringify_text cardData) st with
  | Some st' => (true, st')
  | None => (false, st)
  end.

(** function removeMyCard() *)
Definition removeMyCard (st : Storage) : bool * Storage :=
  (true, removeItem (js "myCard") st).

(** function getSavedContacts(): the stored list, the empty array when
    there is none or the text does not parse. *)
Definition getSavedContacts (st : Storage) : value :=
  match getItem (js "savedContacts") (items st) with
  | Some t =>
      if str_eqb t [] then VArr []
      else match JSON_parse t with
           | Some v => v
           | None => VArr []
           end
  | None => VArr []
  end.

(** function saveSavedContacts(contacts) *)
Definition saveSavedContacts (contacts : value) (st : Storage) : bool * Storage :=
  match setItem (js "savedContacts") (stringify_text contacts) st with
  | Some st' => (true, st')
  | None => (false, st)
  end.

(** Reading a property: TypeError on [undefined] and [null]. *)
Definition prop (k : string) (v : value) : option value :=
  match v with
  | VUndefined | VNull => None
  | _ => Some (get k v)
  end.

(** c.firstName === contact.firstName && c.lastName === contact.lastName
    && c.email === contact.email *)
Definition same_triple (c contact : value) : option bool :=
  a <- prop "firstName" c ;;
  b <- prop "firstName" contact ;;
  if strict_eq a b then
    a <- prop "lastName" c ;;
    b <- prop "lastName" contact ;;
    if strict_eq a b then
      a <- prop "email" c ;;
      b <- prop "email" contact ;;
      Some (strict_eq a b)
    else Some false
  else Some false.

(** [contacts.some(p)]: stops at the first entry that satisfies [p]. *)
Fixpoint some_entry (p : value -> option bool) (l : list value) : option bool :=
  match l with
  | [] => Some false
  | c :: r => b <- p c ;; if b then Some true else some_entry p r
  end.

(** [contact.savedAt = now]: an assignment to a property of a primitive is
    dropped; on an array it sets a property that JSON does not write. *)
Definition set_prop (k : string) (x : value) (v : value) : option value :=
  match v with
  | VUndefined | VNull => None
  | VObj o => Some (VObj (obj_set (js k) x o))
  | _ => Some v
  end.

(** function addContact(contact).  [now] is [new Date().toISOString()].
    The result is the returned boolean, the store afterwards and the
    contact object, which the function stamps with [savedAt].  [None] is an
    uncaught TypeError (a stored value that is no array, a [null] entry). *)
Definition addContact (contact : value) (now : jsstring) (st : Storage)
  : option (bool * Storage * value) :=
  match getSavedContacts st with
  | VArr contacts =>
      exists_ <- some_entry (fun c => same_triple c contact) contacts ;;
      if exists_ then Some (false, st, contact)
      else
        stamped <- set_prop "savedAt" (VStr now) contact ;;
        let (ok, st') := saveSavedContacts (VArr (contacts ++ [stamped])) st in
        Some (ok, st', stamped)
  | _ => None
  end.

(** [contacts.splice(index, 1)] for an index inside the array. *)
Fixpoint remove_at {A} (i : nat) (l : list A) {struct l} : list A :=
  match l, i with
  | [], _ => []
  | _ :: r, O => r
  | x :: r, S j => x :: remove_at j r
  end.

(** function removeContact(index), for an integer index.  [index < 0] is
    tested first and returns false whatever the stored value is.  When the
    stored value is no array, [contacts.length] is the length of a string,
    a TypeError on [null] and [undefined] otherwise (objects with a
    [length] of their own are not modelled), and [splice] is missing:
    TypeError. *)
Definition removeContact (index : Z) (st : Storage) : option (bool * Storage) :=
  match getSavedContacts st with
  | VArr contacts =>
      if ((index <? 0) || (index >=? Z.of_nat (length contacts)))%Z
      then Some (false, st)
      else Some (saveSavedContacts (VArr (remove_at (Z.to_nat index) contacts)) st)
  | VStr s =>
      if ((index <? 0) || (index >=? Z.of_nat (length s)))%Z
      then Some (false, st) else None
  | VBool _ | VObj _ | VUndefined | VNull =>
      if (index <? 0)%Z then Some (false, st) else None
  end.

(** function compressImageForQR(dataUrl): the body returns the empty
    string on both of its paths. *)
Definition compressImageForQR (dataUrl : jsstring) : jsstring := [].

(** The own properties a spread copies: those of an object; the indexed
    elements of an array or of a string; none of another primitive. *)
Definition index_key (i : nat) : jsstring :=
  js (DecimalString.NilZero.string_of_uint (Nat.to_uint i)).

Fixpoint indexed {A} (f : A -> value) (i : nat) (l : list A) : object :=
  match l with
  | [] => []
  | x :: r => (index_key i, f x) :: indexed f (S i) r
  end.

Definition own_props (v : value) : object :=
  match v with
  | VObj o => o
  | VArr l => indexed (fun x => x) 0 l
  | VStr s => indexed (fun c => VStr [c]) 0 s
  | _ => []
  end.

Definition default_visibility : value :=
  VObj [(js "cert", VBool true); (js "edu", VBool true); (js "proj", VBool true);
        (js "ref", VBool true); (js "resume", VBool true); (js "work", VBool true)].

Definition two_slots (pdf docx : jsstring) : value :=
  VObj [(js "pdf", VStr pdf); (js "docx", VStr docx)].

(** function buildShareObj(cardData, forQRCode = false).  [None] is a
    TypeError: [cardData] is [null] or [undefined], or [startsWith] is
    called on a picture that is no string. *)
Definition buildShareObj (cardData : value) (forQRCode : bool) : option value :=
  links <- prop "portfolioLinks" cardData ;;
  let resumeData :=
    match links with
    | VUndefined | VNull => VUndefined
    | _ => get "resume" links
    end in
  let resumeData :=
    match resumeData with
    | VStr s => two_slots s []
    | _ => if truthy resumeData then resumeData else two_slots [] []
    end in
  let pic := get "profilePic" cardData in
  profilePicData <-
    (if forQRCode && truthy pic then
       match pic with
       | VStr s => Some (if starts_with (js "data:image") s
                         then VStr (compressImageForQR s) else pic)
       | _ => None
       end
     else Some pic) ;;
  Some (VObj
    [(js "firstName", get "firstName" cardData);
     (js "lastName", get "lastName" cardData);
     (js "jobTitle", get "jobTitle" cardData);
     (js "email", get "email" cardData);
     (js "phone", get "phone" cardData);
     (js "phoneE164", get "phoneE164" cardData);
     (js "linkedin", get "linkedin" cardData);
     (js "cardColor", get "cardColor" cardData);
     (js "bgColor", get "bgColor" cardData);
     (js "profilePic", profilePicData);
     (js "portfolioLinks", VObj (obj_set (js "resume") resumeData (own_props links)));
     (js "portfolioVisibility",
       let vis := get "portfolioVisibility" cardData in
       if truthy vis then vis else default_visibility)]).

(* ================================================================= *)
(** ** [js/utils.js]: colours, names, e-mail, phone, URLs *)

Definition is_hex_digit (c : N) : bool :=
  is_digit c || in_range 97 102 c || in_range 65 70 c.

(** /^#([0-9a-fA-F]{3}|[0-9a-fA-F]{6})$/ *)
Definition hex_color_re (s : jsstring) : bool :=
  match s with
  | 35 :: r => ((length r =? 3)%nat || (length r =? 6)%nat) && forallb is_hex_digit r
  | _ => false
  end.

(** function isHexColor(value) *)
Definition isHexColor (value : jsstring) : bool := hex_color_re (trim value).

(** function pickColor(textVal, pickerVal, fallback) *)
Definition pickColor (textVal pickerVal fallback : jsstring) : jsstring :=
  let trimmed := trim textVal in
  if isHexColor trimmed then toLowerCase trimmed
  else if isHexColor pickerVal then toLowerCase pickerVal
  else fallback.

(** The lowercase particles of [formatName]. *)
Definition particles : list jsstring :=
  map js ["de"; "del"; "la"; "las"; "los"; "da"; "das"; "dos";
          "van"; "von"; "der"; "den"; "le"; "du"; "di"]%string.

(** part.charAt(0).toUpperCase() + part.slice(1) *)
Definition upper_first (part : jsstring) : jsstring :=
  match part with
  | [] => []
  | c :: r => to_upper_unit c :: r
  end.

(** The inner function [capitalize(word)] of [formatName]. *)
Definition capitalize (word : jsstring) : jsstring :=
  let lower := toLowerCase word in
  if existsb (str_eqb lower) particles then lower
  else if mem 45 lower then join [45] (map upper_first (split_on 45 lower))
  else if mem 39 lower then join [39] (map upper_first (split_on 39 lower))
  else upper_first lower.

(** /^[A-Za-z' -]+$/ for a last name, /^[A-Za-z'-]+$/ for a first name. *)
Definition name_unit (isLastName : bool) (c : N) : bool :=
  is_alpha c || (c =? 39) || (c =? 45) || (isLastName && (c =? 32)).

Definition name_re (isLastName : bool) (s : jsstring) : bool :=
  match s with
  | [] => false
  | _ => forallb (name_unit isLastName) s
  end.

(** function formatName(name, isLastName = false): [None] is [null]. *)
Definition formatName (name : jsstring) (isLastName : bool) : option jsstring :=
  let name := trim name in
  let name := if isLastName then replace_spaces [32] name else replace_spaces [] name in
  if negb (name_re isLastName name) then None
  else if ((length name <? 1) || (30 <? length name))%nat then None
  else
    let parts := if isLastName then split_on 32 name else [name] in
    Some (join [32] (map capitalize parts)).

(** The messages of [getEmailErrors], by what they report. *)
Inductive EmailError : Type :=
| EmailLength | EmailAtCount | EmailConsecutiveDots | EmailLeadingDot
| EmailTrailingDot | EmailLeadingDash | EmailNoLocalPart | DomainNoDot
| DomainConsecutiveDots | DomainLeadingDot | DomainTrailingDot
| DomainHasDigit | TldTooShort.

Definition when {A} (b : bool) (x : A) : list A := if b then [x] else [].

(** function getEmailErrors(email) *)
Definition getEmailErrors (email : jsstring) : list EmailError :=
  let trimmed := toLowerCase (trim email) in
  let atCount := length (filter (N.eqb 64) trimmed) in
  when ((length trimmed <? 5) || (80 <? length trimmed))%nat EmailLength
  ++ when (negb (atCount =? 1)%nat) EmailAtCount
  ++ when (includes [46; 46] trimmed) EmailConsecutiveDots
  ++ when (starts_with [46] trimmed) EmailLeadingDot
  ++ when (ends_with [46] trimmed) EmailTrailingDot
  ++ when (starts_with [45] trimmed) EmailLeadingDash
  ++ (if (atCount =? 1)%nat then
        match split_on 64 trimmed with
        | [localPart; domainPart] =>
            when (length localPart =? 0)%nat EmailNoLocalPart
            ++ when (negb (mem 46 domainPart)) DomainNoDot
            ++ when (includes [46; 46] domainPart) DomainConsecutiveDots
            ++ when (starts_with [46] domainPart) DomainLeadingDot
            ++ when (ends_with [46] domainPart) DomainTrailingDot
            ++ when (existsb is_digit domainPart) DomainHasDigit
            ++ when (length (last (split_on 46 domainPart) []) <? 2)%nat TldTooShort
        | _ => []
        end
      else []).

(** function formatPhone(countryCode, local): the pair (pretty, e164). *)
Definition formatPhone (countryCode local_ : jsstring) : jsstring * jsstring :=
  (js "+" ++ countryCode ++ js " (" ++ slice 0 3 local_ ++ js ") "
     ++ slice 3 6 local_ ++ js "-" ++ slice_from 6 local_,
   js "+" ++ countryCode ++ local_).

(** Pieces of the pattern of [parsePrettyPhone10]; each returns what it
    captured and the rest of the input. *)
Definition opt_unit (c : N) (s : jsstring) : jsstring :=
  match s with
  | d :: r => if d =? c then r else s
  | [] => s
  end.

Definition expect_unit (c : N) (s : jsstring) : option jsstring :=
  match s with
  | d :: r => if d =? c then Some r else None
  | [] => None
  end.

(** [\d{n}] *)
Fixpoint digits_exactly (n : nat) (s : jsstring) : option (jsstring * jsstring) :=
  match n with
  | O => Some ([], s)
  | S k =>
      match s with
      | d :: r => if is_digit d then cons_fst d (digits_exactly k r) else None
      | [] => None
      end
  end.

(** [\d{1,3}], greedy.  What follows in the pattern starts with white space
    or a parenthesis, so taking fewer digits than there are never helps:
    the piece takes the longest run of at most [n] digits. *)
Fixpoint digits_upto (n : nat) (s : jsstring) : jsstring * jsstring :=
  match n with
  | O => ([], s)
  | S k =>
      match s with
      | d :: r => if is_digit d
                  then let (ds, r') := digits_upto k r in (d :: ds, r')
                  else ([], s)
      | [] => ([], s)
      end
  end.

Record PrettyPhone : Type := mkPrettyPhone {
  cc : jsstring;
  local : jsstring;
  prettyLocal : jsstring
}.

(** function parsePrettyPhone10(prettyPhone), with the pattern
    /^\+?(\d{1,3})\s*\((\d{3})\)\s*(\d{3})-(\d{4})$/ *)
Definition parsePrettyPhone10 (prettyPhone : jsstring) : option PrettyPhone :=
  let s := opt_unit 43 prettyPhone in
  let (m1, s) := digits_upto 3 s in
  if (length m1 =? 0)%nat then None
  else
    s <- expect_unit 40 (drop_while is_js_space s) ;;
    ms <- digits_exactly 3 s ;;
    let (m2, s) := ms : jsstring * jsstring in
    s <- expect_unit 41 s ;;
    ms <- digits_exactly 3 (drop_while is_js_space s) ;;
    let (m3, s) := ms : jsstring * jsstring in
    s <- expect_unit 45 s ;;
    ms <- digits_exactly 4 s ;;
    let (m4, s) := ms : jsstring * jsstring in
    match s with
    | [] => Some (mkPrettyPhone m1 (m2 ++ m3 ++ m4)
                    (js "(" ++ m2 ++ js ")-" ++ m3 ++ js "-" ++ m4))
    | _ => None
    end.

(** /^https?:\/\//i *)
Definition has_http_scheme (url : jsstring) : bool :=
  let l := toLowerCase url in
  starts_with (js "http://") l || starts_with (js "https://") l.

(** function fixUrl(url) *)
Definition fixUrl (url : jsstring) : jsstring :=
  if str_eqb (trim url) [] then []
  else
    let url := trim url in
    if has_http_scheme url then url else js "https://" ++ url.

(* ================================================================= *)
(** ** The card record *)

(** The resume slot of the portfolio links: the two-slot object the
    settings write, the single string of earlier versions, or nothing. *)
Inductive Resume : Type :=
| ResumeSlots (pdf docx : jsstring)
| ResumeLegacy (url : jsstring)
| ResumeAbsent.

Record PortfolioLinks : Type := mkLinks {
  cert : jsstring;
  edu : jsstring;
  proj : jsstring;
  ref : jsstring;
  resume : Resume;
  work : jsstring
}.

Record PortfolioVisibility : Type := mkVisibility {
  showCert : bool;
  showEdu : bool;
  showProj : bool;
  showRef : bool;
  showResume : bool;
  showWork : bool
}.

(** A card as the settings store it; the visibility block is missing from
    cards of earlier versions. *)
Record Card : Type := mkCard {
  firstName : jsstring;
  lastName : jsstring;
  jobTitle : jsstring;
  email : jsstring;
  phone : jsstring;
  phoneE164 : jsstring;
  countryCode : jsstring;
  localNumber : jsstring;
  linkedin : jsstring;
  cardColor : jsstring;
  bgColor : jsstring;
  profilePic : jsstring;
  portfolioLinks : PortfolioLinks;
  portfolioVisibility : option PortfolioVisibility;
  lastUpdated : jsstring
}.

Definition resume_fields (r : Resume) : object :=
  match r with
  | ResumeSlots p d => [(js "resume", two_slots p d)]
  | ResumeLegacy u => [(js "resume", VStr u)]
  | ResumeAbsent => []
  end.

Definition links_value (l : PortfolioLinks) : value :=
  VObj ([(js "cert", VStr (cert l)); (js "edu", VStr (edu l));
         (js "proj", VStr (proj l)); (js "ref", VStr (ref l))]
        ++ resume_fields (resume l)
        ++ [(js "work", VStr (work l))]).

Definition visibility_value (v : PortfolioVisibility) : value :=
  VObj [(js "cert", VBool (showCert v)); (js "edu", VBool (showEdu v));
        (js "proj", VBool (showProj v)); (js "ref", VBool (showRef v));
        (js "resume", VBool (showResume v)); (js "work", VBool (showWork v))].

(** The JavaScript object of a card, its properties in the order the
    settings write them. *)
Definition card_value (c : Card) : value :=
  VObj ([(js "firstName", VStr (firstName c));
         (js "lastName", VStr (lastName c));
         (js "jobTitle", VStr (jobTitle c));
         (js "email", VStr (email c));
         (js "phone", VStr (phone c));
         (js "phoneE164", VStr (phoneE164 c));
         (js "countryCode", VStr (countryCode c));
         (js "localNumber", VStr (localNumber c));
         (js "linkedin", VStr (linkedin c));
         (js "cardColor", VStr (cardColor c));
         (js "bgColor", VStr (bgColor c));
         (js "profilePic", VStr (profilePic c));
         (js "portfolioLinks", links_value (portfolioLinks c))]
        ++ match portfolioVisibility c with
           | Some v => [(js "portfolioVisibility", visibility_value v)]
           | None => []
           end
        ++ [(js "lastUpdated", VStr (lastUpdated c))]).

Definition wf_resume (r : Resume) : bool :=
  match r with
  | ResumeSlots p d => wf_string p && wf_string d
  | ResumeLegacy u => wf_string u
  | ResumeAbsent => true
  end.

Definition wf_links (l : PortfolioLinks) : bool :=
  wf_string (cert l) && wf_string (edu l) && wf_string (proj l)
  && wf_string (ref l) && wf_resume (resume l) && wf_string (work l).

(** Every text of the card is a JavaScript string. *)
Definition wf_card (c : Card) : bool :=
  wf_string (firstName c) && wf_string (lastName c) && wf_string (jobTitle c)
  && wf_string (email c) && wf_string (phone c) && wf_string (phoneE164 c)
  && wf_string (countryCode c) && wf_string (localNumber c)
  && wf_string (linkedin c) && wf_string (cardColor c) && wf_string (bgColor c)
  && wf_string (profilePic c) && wf_links (portfolioLinks c)
  && wf_string (lastUpdated c).

(** const DEFAULT_CARD *)
Definition DEFAULT_CARD : Card :=
  {| firstName := js "John";
     lastName := js "Doe";
     jobTitle := js "Student";
     email := js "john.doe@email.com";
     phone := js "+1 (555)-123-4567";
     phoneE164 := js "+15551234567";
     countryCode := js "1";
     localNumber := js "5551234567";
     linkedin := js "https://linkedin.com/in/johndoe";
     cardColor := js "#6366f1";
     bgColor := js "#6B46C1";
     profilePic := js "https://images.unsplash.com/photo-1472099645785-5658abf4ff4e?w=400";
     portfolioLinks := mkLinks [] [] [] [] (ResumeSlots [] []) [];
     portfolioVisibility := Some (mkVisibility true true true true true true);
     lastUpdated := [] |}.

(** const ALLOWED_COUNTRY_CODES *)
Definition ALLOWED_COUNTRY_CODES : list jsstring :=
  map js ["1"; "44"; "61"; "81"; "91"; "353"]%string.

(* ================================================================= *)
(** ** The settings module: saveSettings *)

(** The values of the form controls when Save is pressed, with the source
    of the picture shown and the cropped upload, if any. *)
Record SettingsForm : Type := mkForm {
  firstNameInput : jsstring;
  lastNameInput : jsstring;
  emailInput : jsstring;
  linkedinInput : jsstring;
  jobTitleInput : jsstring;
  countryCodeSelect : jsstring;
  localNumberInput : jsstring;
  cardColorInput : jsstring;
  cardColorPicker : jsstring;
  bgColorInput : jsstring;
  bgColorPicker : jsstring;
  certPageInput : jsstring;
  eduPageInput : jsstring;
  projPageInput : jsstring;
  refPageInput : jsstring;
  resumePdfInput : jsstring;
  resumeDocxInput : jsstring;
  workPageInput : jsstring;
  showCertifications : bool;
  showEducation : bool;
  showProjects : bool;
  showReferences : bool;
  showResumeBox : bool;
  showWorkBox : bool;
  profilePicSrc : jsstring;
  uploadedImageData : option jsstring
}.

Inductive PhoneMessage : Type :=
| ChooseCountryCode | CountryCodeNotAllowed | NotTenLong | DigitsOnly.

Inductive SaveResult : Type :=
| InvalidFirstName
| InvalidLastName
| InvalidEmail (errors : list EmailError)
| PhoneError (message : PhoneMessage)
| StorageFull
| Saved (card : Card).

(** function saveSettings().  [now] is [new Date().toISOString()].  The
    card goes to the store only when every check has passed. *)
Definition saveSettings (form : SettingsForm) (now : jsstring) (st : Storage)
  : SaveResult * Storage :=
  match formatName (firstNameInput form) false,
        formatName (lastNameInput form) true with
  | None, _ => (InvalidFirstName, st)
  | Some _, None => (InvalidLastName, st)
  | Some first, Some last_ =>
      let emailErrors := getEmailErrors (emailInput form) in
      if negb (length emailErrors =? 0)%nat then (InvalidEmail emailErrors, st)
      else
        let email_ := toLowerCase (trim (emailInput form)) in
        let linkedin_ := fixUrl (linkedinInput form) in
        let code := trim (countryCodeSelect form) in
        let number := trim (localNumberInput form) in
        if str_eqb code [] then (PhoneError ChooseCountryCode, st)
        else if negb (existsb (str_eqb code) ALLOWED_COUNTRY_CODES)
        then (PhoneError CountryCodeNotAllowed, st)
        else if negb (length number =? 10)%nat then (PhoneError NotTenLong, st)
        else if negb (forallb is_digit number) then (PhoneError DigitsOnly, st)
        else
          let picture :=
            match uploadedImageData form with
            | Some d => if str_eqb d [] then profilePicSrc form else d
            | None => profilePicSrc form
            end in
          let formatted := formatPhone code number in
          let cardData :=
            {| firstName := first;
               lastName := last_;
               jobTitle := jobTitleInput form;
               email := email_;
               phone := fst formatted;
               phoneE164 := snd formatted;
               countryCode := code;
               localNumber := number;
               linkedin := linkedin_;
               cardColor := pickColor (cardColorInput form) (cardColorPicker form)
                                      (js "#6366f1");
               bgColor := pickColor (bgColorInput form) (bgColorPicker form)
                                    (js "#6B46C1");
               profilePic := picture;
               portfolioLinks :=
                 mkLinks (fixUrl (certPageInput form)) (fixUrl (eduPageInput form))
                         (fixUrl (projPageInput form)) (fixUrl (refPageInput form))
                         (ResumeSlots (fixUrl (resumePdfInput form))
                                      (fixUrl (resumeDocxInput form)))
                         (fixUrl (workPageInput form));
               portfolioVisibility :=
                 Some (mkVisibility (showCertifications form) (showEducation form)
                                    (showProjects form) (showReferences form)
                                    (showResumeBox form) (showWorkBox form));
               lastUpdated := now |} in
          let (ok, st') := saveMyCard (card_value cardData) st in
          if ok then (Saved cardData, st') else (StorageFull, st)
  end.

(* ================================================================= *)
(** ** [js/share.js]: the share link and the QR code *)

(** What [generateQRCode] leaves in the QR container: nothing new (it
    returned at once), the share link as text, or an image whose source is
    the request to the QR service (the image also falls back to the link
    text when it fails to load or takes more than five seconds). *)
Inductive QRView : Type :=
| QRUntouched
| QRLinkText (shareUrl : jsstring)
| QRImage (src shareUrl : jsstring).

(** `${baseUrl}${baseUrl.includes('?') ? '&' : '?'}card=${encodedCard}` *)
Definition share_url (baseUrl encodedCard : jsstring) : jsstring :=
  baseUrl ++ (if mem 63 baseUrl then js "&" else js "?") ++ js "card=" ++ encodedCard.

(** The constants [fullShareObj], [profilePicForQR] and [qrShareObj] of
    [generateQRCode]: the share object, its picture emptied when it is an
    embedded image.  [None] is an uncaught TypeError. *)
Definition qr_share_obj (rawCard : value) : option value :=
  fullShareObj <- buildShareObj rawCard false ;;
  let pic := get "profilePic" fullShareObj in
  profilePicForQR <-
    (if truthy pic then
       match pic with
       | VStr s => Some (if starts_with (js "data:image") s then VStr [] else pic)
       | _ => None
       end
     else Some pic) ;;
  Some (VObj (obj_set (js "profilePic") profilePicForQR (own_props fullShareObj))).

(** const encodedCard = encodeObj(qrShareObj); *)
Definition qr_encoded_card (rawCard : value) : option jsstring :=
  qrShareObj <- qr_share_obj rawCard ;;
  encodeObj qrShareObj.

(** function generateQRCode().  [hasContainer] says whether the element
    [qrcode] exists; [baseUrl] is the address of the page without its
    query. *)
Definition generateQRCode (st : Storage) (hasContainer : bool) (baseUrl : jsstring)
  : option QRView :=
  let rawCard := getMyCard st in
  if negb (truthy rawCard) || negb hasContainer then Some QRUntouched
  else
    encodedCard <- qr_encoded_card rawCard ;;
    let shareUrl := share_url baseUrl encodedCard in
    if (4000 <? length encodedCard)%nat then Some (QRLinkText shareUrl)
    else
      q <- encodeURIComponent shareUrl ;;
      Some (QRImage (js "https://quickchart.io/qr?text=" ++ q
                     ++ js "&size=256&dark=000000&light=ffffff") shareUrl).

(** function buildShareUrlFromUI() *)
Definition buildShareUrlFromUI (st : Storage) (baseUrl : jsstring) : option jsstring :=
  let rawCard := getMyCard st in
  if negb (truthy rawCard) then Some baseUrl
  else
    shareObj <- buildShareObj rawCard false ;;
    encodedCard <- encodeObj shareObj ;;
    Some (share_url baseUrl encodedCard).

(* ================================================================= *)
(** ** [js/main.js]: reading a shared card from the address *)

(** [window.location.search] of a page opened at [url]: from the first
    [?] up to a [#]; nothing when a [#] comes first.  The units of a token
    pass the URL parser as they are. *)
Fixpoint until_hash (s : jsstring) : jsstring :=
  match s with
  | [] => []
  | c :: r => if c =? 35 then [] else c :: until_hash r
  end.

Fixpoint location_search (url : jsstring) : jsstring :=
  match url with
  | [] => []
  | c :: r => if c =? 35 then []
              else if c =? 63 then until_hash url else location_search r
  end.

(** The octets a string is decoded from, a lone surrogate read as U+FFFD. *)
Fixpoint utf8_bytes (s : jsstring) : list N :=
  match s with
  | [] => []
  | c :: r =>
      if is_high_surrogate c then
        match r with
        | d :: r' =>
            if is_low_surrogate d
            then utf8_octets ((c - 55296) * 1024 + (d - 56320) + 65536) ++ utf8_bytes r'
            else [239; 191; 189] ++ utf8_bytes r
        | [] => [239; 191; 189]
        end
      else if is_low_surrogate c then [239; 191; 189] ++ utf8_bytes r
      else utf8_octets c ++ utf8_bytes r
  end.

(** Percent-decoding of the URL standard: [%XX] becomes an octet, a [%]
    that no two hexadecimal digits follow stays. *)
Fixpoint percent_decode (bs : list N) : list N :=
  match bs with
  | [] => []
  | b :: r =>
      if b =? 37 then
        match r with
        | h1 :: h2 :: r2 =>
            match hex2 h1 h2 with
            | Some v => v :: percent_decode r2
            | None => b :: percent_decode r
            end
        | _ => b :: percent_decode r
        end
      else b :: percent_decode r
  end.

(** The UTF-8 decoder of the Encoding standard, with replacement: [cp] is
    the code point under construction, [needed] and [seen] count its
    continuation octets, [lower] and [upper] bound the next one. *)
Fixpoint utf8_decode (cp needed seen lower upper : N) (bs : list N) : jsstring :=
  match bs with
  | [] => if needed =? 0 then [] else [65533]
  | b :: r =>
      let start :=
        if b <=? 127 then b :: utf8_decode 0 0 0 128 191 r
        else if in_range 194 223 b then utf8_decode (b - 192) 1 0 128 191 r
        else if in_range 224 239 b then
          utf8_decode (b - 224) 2 0 (if b =? 224 then 160 else 128)
                      (if b =? 237 then 159 else 191) r
        else if in_range 240 244 b then
          utf8_decode (b - 240) 3 0 (if b =? 240 then 144 else 128)
                      (if b =? 244 then 143 else 191) r
        else 65533 :: utf8_decode 0 0 0 128 191 r in
      if needed =? 0 then start
      else if negb (in_range lower upper b) then 65533 :: start
      else
        let cp' := cp * 64 + (b - 128) in
        if seen + 1 =? needed then utf16_units cp' ++ utf8_decode 0 0 0 128 191 r
        else utf8_decode cp' needed (seen + 1) 128 191 r
  end.

(** A name or a value of the query: [+] is a space, then the
    percent-escapes are decoded and the octets read as UTF-8. *)
Definition form_decode (s : jsstring) : jsstring :=
  utf8_decode 0 0 0 128 191
    (percent_decode (utf8_bytes (map (fun c => if c =? 43 then 32 else c) s))).

(** The pair of a sequence of the query: split at its first [=]. *)
Fixpoint split_pair (s : jsstring) : jsstring * jsstring :=
  match s with
  | [] => ([], [])
  | c :: r => if c =? 61 then ([], r)
              else let (n, v) := split_pair r in (c :: n, v)
  end.

Fixpoint first_value (name : jsstring) (pairs : list jsstring) : option jsstring :=
  match pairs with
  | [] => None
  | p :: r =>
      match p with
      | [] => first_value name r
      | _ => let (n, v) := split_pair p in
             if str_eqb (form_decode n) name then Some (form_decode v)
             else first_value name r
      end
  end.

(** new URLSearchParams(search).get(name): [None] is [null]. *)
Definition URLSearchParams_get (name : string) (search : jsstring) : option jsstring :=
  let q := match search with
           | c :: r => if c =? 63 then r else search
           | [] => []
           end in
  first_value (js name) (split_on 38 q).

Inductive PageMode : Type :=
| ViewingShared (sharedCardData : value)
| ViewingOwn (card : value).

(** function loadMyCard() *)
Definition loadMyCard (st : Storage) : PageMode :=
  let cardData := getMyCard st in
  if truthy cardData then ViewingOwn cardData else ViewingOwn (card_value DEFAULT_CARD).

(** function checkForSharedCard().  [applyCardData] writes a card to the
    page; of it the model keeps whether it returns for a given card,
    [applies].  Inside the [try], whatever [decodeObj] or [applyCardData]
    throws sends the page back to the user's own card. *)
Definition checkForSharedCard (applies : value -> bool) (search : jsstring)
           (st : Storage) : PageMode :=
  match URLSearchParams_get "card" search with
  | Some cardData =>
      if str_eqb cardData [] then loadMyCard st
      else match decodeObj cardData with
           | Some v => if applies v then ViewingShared v else loadMyCard st
           | None => loadMyCard st
           end
  | None => loadMyCard st
  end.

(* ================================================================= *)
(** ** The settings module: the crop state and its listeners *)

(** The coordinates are JavaScript numbers.  The listeners only subtract,
    multiply and divide them, so the model takes the number type with these
    operations as a parameter.  The page runs on [Arith_float], the binary64
    numbers with their rounding; [Arith_Q] is the same code without
    rounding, and agrees with the page as long as every result is exact
    (integer coordinates at the scale 1, for instance). *)
Class Arith (T : Type) : Type := {
  sub : T -> T -> T;
  mul : T -> T -> T;
  div : T -> T -> T;
  of_Z : Z -> T
}.

#[export] Instance Arith_Q : Arith Q := {
  sub := Qminus;
  mul := Qmult;
  div := Qdiv;
  of_Z := inject_Z
}.

(** A JavaScript number is an IEEE 754 binary64 value, and [-], [*] and
    [/] round to nearest, ties to even: the primitive floating-point
    numbers with their operations.  The integer literals of the listeners
    are small and convert exactly. *)
Definition float_of_Z (z : Z) : PrimFloat.float :=
  match z with
  | Z0 => PrimFloat.zero
  | Zpos _ => PrimFloat.of_uint63 (Uint63.of_Z z)
  | Zneg p => PrimFloat.opp (PrimFloat.of_uint63 (Uint63.of_Z (Zpos p)))
  end.

#[export] Instance Arith_float : Arith PrimFloat.float := {
  sub := PrimFloat.sub;
  mul := PrimFloat.mul;
  div := PrimFloat.div;
  of_Z := float_of_Z
}.


Section Crop.
Context {T : Type} `{Arith T}.

Record Point : Type := mkPoint { px : T; py : T }.

(** let cropState = { originalImage, scale, position, isDragging, dragStart } *)
Record CropState : Type := mkCrop {
  originalImage : option jsstring;
  scale : T;
  position : Point;
  isDragging : bool;
  dragStart : Point
}.

(** container.onmousedown, with the pointer at (clientX, clientY) *)
Definition onmousedown (e : Point) (s : CropState) : CropState :=
  mkCrop (originalImage s) (scale s) (position s) true
         (mkPoint (sub (px e) (px (position s))) (sub (py e) (py (position s)))).

(** document.onmousemove *)
Definition onmousemove (e : Point) (s : CropState) : CropState :=
  if isDragging s
  then mkCrop (originalImage s) (scale s)
              (mkPoint (sub (px e) (px (dragStart s))) (sub (py e) (py (dragStart s))))
              (isDragging s) (dragStart s)
  else s.

(** document.onmouseup *)
Definition onmouseup (s : CropState) : CropState :=
  mkCrop (originalImage s) (scale s) (position s) false (dragStart s).

(** The touchstart listener of the container; [touch] is e.touches[0]. *)
Definition ontouchstart (touch : Point) (s : CropState) : CropState :=
  mkCrop (originalImage s) (scale s) (position s) true
         (mkPoint (sub (px touch) (px (position s)))
                  (sub (py touch) (py (position s)))).

(** The touchmove listener of the document *)
Definition ontouchmove (touch : Point) (s : CropState) : CropState :=
  if isDragging s
  then mkCrop (originalImage s) (scale s)
              (mkPoint (sub (px touch) (px (dragStart s)))
                       (sub (py touch) (py (dragStart s))))
              (isDragging s) (dragStart s)
  else s.

(** The touchend listener of the document *)
Definition ontouchend (s : CropState) : CropState :=
  if isDragging s
  then mkCrop (originalImage s) (scale s) (position s) false (dragStart s)
  else s.

(** zoomSlider.oninput: [value] is the slider's value, [clientWidth] and
    [clientHeight] the size of the crop container. *)
Definition zoom_oninput (value clientWidth clientHeight : T) (s : CropState)
  : CropState :=
  let newScale := div value (of_Z 100) in
  let scaleDiff := div newScale (scale s) in
  let centerX := div clientWidth (of_Z 2) in
  let centerY := div clientHeight (of_Z 2) in
  mkCrop (originalImage s) newScale
         (mkPoint (sub centerX (mul (sub centerX (px (position s))) scaleDiff))
                  (sub centerY (mul (sub centerY (py (position s))) scaleDiff)))
         (isDragging s) (dragStart s).
End Crop.

Arguments Point T : clear implicits.
Arguments CropState T : clear implicits.

(** *** Exact results

    [val] reads a number of the page as a rational, when it is finite:
    [float_val] on binary64, [Some] on the rationals. *)
Section Exact.
Context {T : Type} (val : T -> option Q).




End Exact.

(* ================================================================= *)
(** ** Definitions used by the proofs *)

(** Bounded universal check, for facts decided by running through a table. *)
Fixpoint forall_below (n : nat) (p : N -> bool) : bool :=
  match n with
  | O => true
  | S k => p (N.of_nat k) && forall_below k p
  end.

(** Base64 without its padding. *)
Fixpoint b64_unpadded (bs : list N) : jsstring :=
  match bs with
  | [] => []
  | [a] => [b64_char (a / 4); b64_char ((a mod 4) * 16)]
  | [a; b] =>
      [b64_char (a / 4); b64_char ((a mod 4) * 16 + b / 16); b64_char ((b mod 16) * 4)]
  | a :: b :: c :: rest =>
      b64_char (a / 4) :: b64_char ((a mod 4) * 16 + b / 16)
      :: b64_char ((b mod 16) * 4 + c / 64) :: b64_char (c mod 64)
      :: b64_unpadded rest
  end.

Fixpoint b64_padding (bs : list N) : jsstring :=
  match bs with
  | [] => []
  | [_] => [61; 61]
  | [_; _] => [61]
  | _ :: _ :: _ :: rest => b64_padding rest
  end.

Definition is_b64_char (c : N) : bool :=
  match b64_index c with Some _ => true | None => false end.

Definition is_octet (c : N) : bool := c <? 256.

(** The UTF-8 octets of a well-formed UTF-16 string: every unit fits in 16
    bits and every surrogate is half of a pair. *)
Definition pair_code_point (hi lo : N) : N := (hi - 55296) * 1024 + (lo - 56320) + 65536.

Fixpoint utf8_of_string (s : jsstring) : option (list N) :=
  match s with
  | [] => Some []
  | c :: r =>
      if is_low_surrogate c then None
      else if is_high_surrogate c then
        match r with
        | d :: r' =>
            if is_low_surrogate d
            then option_map (app (utf8_octets (pair_code_point c d))) (utf8_of_string r')
            else None
        | [] => None
        end
      else if c <? 65536 then option_map (app (utf8_octets c)) (utf8_of_string r)
      else None
  end.

(** What [JSON.parse] gives back for the text of a value: properties whose
    value is [undefined] are gone, [undefined] array elements are [null]. *)
Fixpoint strip (v : value) : value :=
  match v with
  | VArr items =>
      VArr (map (fun x => match x with
                          | VUndefined => VNull
                          | _ => strip x
                          end) items)
  | VObj fields =>
      VObj (flat_map (fun kv : jsstring * value =>
                        let (k, x) := kv in
                        match x with
                        | VUndefined => @nil (jsstring * value)
                        | _ => [(k, strip x)]
                        end) fields)
  | _ => v
  end.

Fixpoint nodupb (l : list jsstring) : bool :=
  match l with
  | [] => true
  | k :: r => negb (existsb (str_eqb k) r) && nodupb r
  end.

(** A key written in digits only.  The host lists the keys of an object
    that are array indices first, in numeric order, wherever they were
    written; the list of an object keeps the order of writing, which is the
    order of the host when no key is such a number. *)
Definition digit_key (k : jsstring) : bool :=
  match k with
  | [] => false
  | _ => forallb is_digit k
  end.

Definition keys_ok (ks : list jsstring) : bool :=
  nodupb ks && negb (existsb digit_key ks).

(** Representation invariant of a value: the strings and keys are UTF-16,
    no object lists a key twice and no key is written in digits only. *)
Fixpoint wf_value (v : value) : bool :=
  match v with
  | VStr s => wf_string s
  | VArr items => forallb wf_value items
  | VObj fields =>
      keys_ok (map fst fields)
      && forallb (fun kv : jsstring * value => wf_string (fst kv) && wf_value (snd kv)) fields
  | _ => true
  end.

(** The member texts of an object, as [stringify] joins them. *)
Definition member_texts (fields : object) : list jsstring :=
  flat_map (fun kv : jsstring * value =>
              let (k, x) := kv in
              match stringify x with
              | Some t => [QuoteJSONString k ++ 58 :: t]
              | None => @nil jsstring
              end) fields.

Definition element_texts (items : list value) : list jsstring :=
  map (fun x => match stringify x with
                | Some t => t
                | None => js "null"
                end) items.

Definition stripped_fields (fields : object) : object :=
  flat_map (fun kv : jsstring * value =>
              let (k, x) := kv in
              match x with
              | VUndefined => @nil (jsstring * value)
              | _ => [(k, strip x)]
              end) fields.

Definition stripped_items (items : list value) : list value :=
  map (fun x => match x with
                | VUndefined => VNull
                | _ => strip x
                end) items.

(** The patterns [#[0-9a-f]{6}] and [#([0-9a-f]{3}|[0-9a-f]{6})]. *)
Definition is_lower_hex (c : N) : bool := is_digit c || in_range 97 102 c.

Definition lower_hex6 (s : jsstring) : bool :=
  match s with
  | 35 :: r => (length r =? 6)%nat && forallb is_lower_hex r
  | _ => false
  end.

Definition lower_hex36 (s : jsstring) : bool :=
  match s with
  | 35 :: r => ((length r =? 3)%nat || (length r =? 6)%nat) && forallb is_lower_hex r
  | _ => false
  end.

(** A string with no white space at its head. *)
Definition no_lead (s : jsstring) : Prop :=
  match s with
  | c :: _ => is_js_space c = false
  | [] => True
  end.

(** Every white space unit of the string is a single space (32) with no
    white space after it. *)
Fixpoint single_spaced (s : jsstring) : bool :=
  match s with
  | [] => true
  | c :: r =>
      (if is_js_space c
       then (c =? 32) && match r with
                         | d :: _ => negb (is_js_space d)
                         | [] => true
                         end
       else true) && single_spaced r
  end.

(** A contact as the list keeps it: an object.  Its key is the triple of
    first name, last name and e-mail; [===] tells two triples of primitive
    values apart by value. *)
Definition is_obj (v : value) : bool :=
  match v with VObj _ => true | _ => false end.

Definition primitive (v : value) : bool :=
  match v with VArr _ | VObj _ => false | _ => true end.

Definition triple_of (v : value) : value * value * value :=
  (get "firstName" v, get "lastName" v, get "email" v).

Definition primitive_triple (v : value) : bool :=
  primitive (get "firstName" v) && primitive (get "lastName" v)
  && primitive (get "email" v).

(** A value that JSON represents as it is: no [undefined] inside. *)
Fixpoint is_json (v : value) : bool :=
  match v with
  | VUndefined => false
  | VArr l => forallb is_json l
  | VObj fs => forallb (fun kv : jsstring * value => is_json (snd kv)) fs
  | _ => true
  end.

(** The store holds the contact list [l] as the application writes it: the
    item is the JSON text of [l] (or there is no item yet and [l] is empty),
    and the store is within its quota. *)
Definition stored_list (st : Storage) (l : list value) : Prop :=
  forallb wf_value l = true /\ forallb is_json l = true
  /\ N.of_nat (usage (items st)) <= quota st
  /\ (getItem (js "savedContacts") (items st) = Some (stringify_text (VArr l))
      \/ (getItem (js "savedContacts") (items st) = None /\ l = [])).

(** A character of the base64 alphabet, by its sextet. *)
Definition sextet_char (c : N) : Prop := exists i, i < 64 /\ c = b64_char i.

(** [parses x]: the parser reads the text of [x] back as [strip x], with any
    fuel from the length of the text on, and leaves what follows. *)
Definition parses (x : value) : Prop :=
  forall t, stringify x = Some t -> wf_value x = true ->
  forall rest f, (length t <= f)%nat ->
  parse_value f (t ++ rest) = Some (strip x, rest).

(** The text of an array element and the element read back. *)
Definition element_text (x : value) : jsstring :=
  match stringify x with Some t => t | None => js "null" end.

Definition stripped_item (x : value) : value :=
  match x with VUndefined => VNull | _ => strip x end.

(** A text [encodeURIComponent] accepts: well-formed UTF-16. *)
Definition encodable (t : jsstring) : Prop := exists bs, utf8_of_string t = Some bs.

Definition plain_unit (c : N) : Prop := c < 65536 /\ is_surrogate c = false.

(** The two slots of the resume as [buildShareObj] normalizes them. *)
Definition resume_slots (r : Resume) : jsstring * jsstring :=
  match r with
  | ResumeSlots p d => (p, d)
  | ResumeLegacy u => (u, [])
  | ResumeAbsent => ([], [])
  end.

(* ================================================================= *)
(** ** Concrete cards, forms and stores *)

Definition some_time : jsstring := js "2024-01-01T00:00:00.000Z".

(** A card whose LinkedIn address holds a tilde. *)
Definition card_tilde : Card :=
  {| firstName := js "John";
     lastName := js "Doe";
     jobTitle := js "Student";
     email := js "john.doe@email.com";
     phone := js "+1 (555) 123-4567";
     phoneE164 := js "+15551234567";
     countryCode := js "1";
     localNumber := js "5551234567";
     linkedin := js "https://uni.edu/~john";
     cardColor := js "#6366f1";
     bgColor := js "#6b46c1";
     profilePic := js "https://images.unsplash.com/photo-1472099645785-5658abf4ff4e?w=400";
     portfolioLinks := mkLinks [] [] [] [] (ResumeSlots [] []) [];
     portfolioVisibility := Some (mkVisibility true true true true true true);
     lastUpdated := some_time |}.

(** The settings form that saves [card_tilde]. *)
Definition form_tilde : SettingsForm :=
  {| firstNameInput := js "john";
     lastNameInput := js "doe";
     emailInput := js "John.Doe@email.com";
     linkedinInput := js "uni.edu/~john";
     jobTitleInput := js "Student";
     countryCodeSelect := js "1";
     localNumberInput := js "5551234567";
     cardColorInput := js "#6366F1";
     cardColorPicker := js "#6366f1";
     bgColorInput := js "#6b46c1";
     bgColorPicker := js "#6b46c1";
     certPageInput := [];
     eduPageInput := [];
     projPageInput := [];
     refPageInput := [];
     resumePdfInput := [];
     resumeDocxInput := [];
     workPageInput := [];
     showCertifications := true;
     showEducation := true;
     showProjects := true;
     showReferences := true;
     showResumeBox := true;
     showWorkBox := true;
     profilePicSrc := js "https://images.unsplash.com/photo-1472099645785-5658abf4ff4e?w=400";
     uploadedImageData := None |}.

Definition store_of_card (c : Card) : Storage :=
  mkStorage [(js "myCard", stringify_text (card_value c))] 5000000%N.

Definition empty_store : Storage := mkStorage [] 5000000%N.

Definition page_url : jsstring := js "https://cards.example.org/".

(** The settings form of the end-to-end example: john / o'brien-smith, with
    a three-digit colour typed into the card colour text input. *)
Definition form_john : SettingsForm :=
  {| firstNameInput := js "john";
     lastNameInput := js "o'brien-smith";
     emailInput := js "john@example.org";
     linkedinInput := js "linkedin.com/in/john";
     jobTitleInput := js "Student";
     countryCodeSelect := js "1";
     localNumberInput := js "5551234567";
     cardColorInput := js "#ABC";
     cardColorPicker := js "#000000";
     bgColorInput := js "#6B46C1";
     bgColorPicker := js "#6b46c1";
     certPageInput := [];
     eduPageInput := [];
     projPageInput := [];
     refPageInput := [];
     resumePdfInput := [];
     resumeDocxInput := [];
     workPageInput := [];
     showCertifications := true;
     showEducation := true;
     showProjects := true;
     showReferences := true;
     showResumeBox := true;
     showWorkBox := true;
     profilePicSrc := js "https://example.org/me.jpg";
     uploadedImageData := None |}.

(** The crop state as [cropState] is declared, over the rationals. *)
Definition crop_reset : CropState Q :=
  mkCrop None 1%Q (mkPoint 0%Q 0%Q) false (mkPoint 0%Q 0%Q).

Definition at_point (x y : Z) : Point Q := mkPoint (inject_Z x) (inject_Z y).

(** A store that holds two contacts. *)
Definition contact_ann : value :=
  VObj [(js "firstName", VStr (js "Ann")); (js "lastName", VStr (js "Lee"));
        (js "email", VStr (js "ann@example.org"));
        (js "savedAt", VStr some_time)].

Definition contact_bob : value :=
  VObj [(js "firstName", VStr (js "Bob")); (js "lastName", VStr (js "Ray"));
        (js "email", VStr (js "bob@example.org"));
        (js "savedAt", VStr some_time)].

Definition store_two_contacts : Storage :=
  mkStorage [(js "savedContacts", stringify_text (VArr [contact_ann; contact_bob]))]
            5000000%N.

(** Ann's card as a visitor decodes it from a link: no time stamp yet. *)
Definition shared_ann_fields : object :=
  [(js "firstName", VStr (js "Ann")); (js "lastName", VStr (js "Lee"));
   (js "email", VStr (js "ann@example.org"));
   (js "jobTitle", VStr (js "Engineer"))].

Definition shared_ann : value := VObj shared_ann_fields.

(* ================================================================= *)
(** ** [js/utils.js]: the contrast helpers *)

(** function _hex(hex), on a string.  [None] is [null].  After
    [toLowerCase] the pattern /^#([0-9a-f]{3}|[0-9a-f]{6})$/ accepts ASCII
    only, and no unit outside ASCII has a lower case in [0-9a-f#], so the
    ASCII [toLowerCase] decides the test as the host does. *)
Definition _hex (hex : jsstring) : option jsstring :=
  let hex := toLowerCase (trim hex) in
  if negb (lower_hex36 hex) then None
  else if (length hex =? 4)%nat
  then Some (35 :: flat_map (fun c => [c; c]) [nth 1 hex 0; nth 2 hex 0; nth 3 hex 0])
  else Some hex.

(** The value of the longest run of hexadecimal digits at the head. *)
Fixpoint hex_run (acc : Z) (s : jsstring) : Z :=
  match s with
  | c :: r =>
      match hex_val c with
      | Some v => hex_run (acc * 16 + Z.of_N v) r
      | None => acc
      end
  | [] => acc
  end.

(** [parseInt(s, 16)]: white space at the head and one sign are skipped,
    then a prefix [0x] or [0X]; the result is the signed value of the
    longest run of hexadecimal digits that follows, NaN ([None]) when there
    is no digit.  The value is exact for runs of up to thirteen digits; the
    sources parse two. *)
Definition parseInt16 (s : jsstring) : option Z :=
  let s := drop_while is_js_space s in
  let sign := match s with
              | c :: _ => if c =? 45 then (-1)%Z else 1%Z
              | [] => 1%Z
              end in
  let s := match s with
           | c :: r => if (c =? 45) || (c =? 43) then r else s
           | [] => s
           end in
  let s := match s with
           | z :: x :: r => if (z =? 48) && ((x =? 120) || (x =? 88)) then r else s
           | _ => s
           end in
  match s with
  | c :: _ => match hex_val c with
              | Some _ => Some (sign * hex_run 0 s)%Z
              | None => None
              end
  | [] => None
  end.

(** function _rgb(hex): the three components as [parseInt] reads them. *)
Definition _rgb (hex : jsstring) : option (option Z * option Z * option Z) :=
  match _hex hex with
  | None => None
  | Some hex => Some (parseInt16 (slice 1 3 hex), parseInt16 (slice 3 5 hex),
                      parseInt16 (slice 5 7 hex))
  end.

(** [n || 0] on a number: NaN and zero give zero. *)
Definition or_zero (n : option Z) : Z :=
  match n with Some z => z | None => 0%Z end.

(** [s.replace(c, '')]: the first occurrence of the unit goes. *)
Fixpoint remove_first (c : N) (s : jsstring) : jsstring :=
  match s with
  | [] => []
  | d :: r => if d =? c then r else d :: remove_first c r
  end.

(** function contrastColor(hex), on a string.  The components are integers
    of at most three digits, so the sum and its thousandth are exact. *)
Definition contrastColor (hex : jsstring) : jsstring :=
  let color := trim (remove_first 35 (if str_eqb hex [] then js "#000" else hex)) in
  let color := if (length color =? 3)%nat
               then flat_map (fun x => [x; x]) color else color in
  let r := or_zero (parseInt16 (slice 0 2 color)) in
  let g := or_zero (parseInt16 (slice 2 4 color)) in
  let b := or_zero (parseInt16 (slice 4 6 color)) in
  let yiq := (inject_Z (r * 299 + g * 587 + b * 114) / 1000)%Q in
  if Qle_bool 128 yiq then js "#111827" else js "#ffffff".

(* ================================================================= *)
(** ** The settings module: the filters of the text controls *)

(** [toLowerCase] on any text, exact on the ASCII units of its result.
    Outside ASCII only U+0130 and U+212A have a lower case with ASCII units
    (i followed by U+0307, and k); every other unit outside ASCII is left as
    it is, where the host gives units outside ASCII as well. *)
Definition to_lower_units (c : N) : jsstring :=
  if c =? 304 then [105; 775]
  else if c =? 8490 then [107]
  else [to_lower_unit c].

Definition toLowerCase_any (s : jsstring) : jsstring := flat_map to_lower_units s.

(** The [input] listener of the first name:
    value.replace(/[^A-Za-z'-]/g, ""), and of the last name:
    value.replace(/[^A-Za-z' -]/g, ""). *)
Definition firstName_oninput (value : jsstring) : jsstring :=
  filter (name_unit false) value.

Definition lastName_oninput (value : jsstring) : jsstring :=
  filter (name_unit true) value.

(** [a-z0-9@._-] *)
Definition email_unit (c : N) : bool :=
  is_lower c || is_digit c || (c =? 64) || (c =? 46) || (c =? 95) || (c =? 45).

(** [s.slice(0, i)] and [s.slice(i + 1)] for [i = s.indexOf(c)], the unit
    being in the string. *)
Fixpoint break_at (c : N) (s : jsstring) : jsstring * jsstring :=
  match s with
  | [] => ([], [])
  | d :: r => if d =? c then ([], r)
              else let (a, b) := break_at c r in (d :: a, b)
  end.

(** The first [input] listener of the e-mail control (the same function is
    registered by [initializeEventListeners] and by
    [initializeInputValidation]). *)
Definition email_oninput (value : jsstring) : jsstring :=
  let value := toLowerCase_any value in
  let value := filter email_unit value in
  let value := replace_spaces [] value in
  if mem 64 value then
    let (localPart, rest) := break_at 64 value in
    let domainPart := filter (fun c => negb (is_digit c)) rest in
    localPart ++ [64] ++ domainPart
  else value.

(** The filter of the local number control:
    value.replace(/\D+/g, '') cut to ten units. *)
Definition localNumber_filter (value : jsstring) : jsstring :=
  let value := filter is_digit value in
  if (10 <? length value)%nat then slice 0 10 value else value.

Definition is_digits_only_error (r : SaveResult) : bool :=
  match r with PhoneError DigitsOnly => true | _ => false end.

Definition is_domain_digit_error (e : EmailError) : bool :=
  match e with DomainHasDigit => true | _ => false end.

(* ================================================================= *)
(** ** The crop state under a sequence of events *)

Section CropEvents.
Context {T : Type} `{Arith T}.

(** The events the listeners of [setupCropListeners] answer, with the
    coordinates of the pointer or of the first touch, and for the slider
    its value and the size of the crop container. *)
Inductive CropEvent : Type :=
| MouseDown (e : Point T)
| MouseMove (e : Point T)
| MouseUp
| TouchStart (touch : Point T)
| TouchMove (touch : Point T)
| TouchEnd
| ZoomInput (value clientWidth clientHeight : T).

Definition crop_step (s : CropState T) (ev : CropEvent) : CropState T :=
  match ev with
  | MouseDown e => onmousedown e s
  | MouseMove e => onmousemove e s
  | MouseUp => onmouseup s
  | TouchStart t => ontouchstart t s
  | TouchMove t => ontouchmove t s
  | TouchEnd => ontouchend s
  | ZoomInput v w h => zoom_oninput v w h s
  end.

Definition crop_run (s : CropState T) (evs : list CropEvent) : CropState T :=
  fold_left crop_step evs s.

Definition is_move (ev : CropEvent) : bool :=
  match ev with MouseMove _ | TouchMove _ => true | _ => false end.

Definition is_press (ev : CropEvent) : bool :=
  match ev with MouseDown _ | TouchStart _ => true | _ => false end.

Definition is_release (ev : CropEvent) : bool :=
  match ev with MouseUp | TouchEnd => true | _ => false end.

Definition pointer_of (ev : CropEvent) : option (Point T) :=
  match ev with
  | MouseDown e | MouseMove e | TouchStart e | TouchMove e => Some e
  | _ => None
  end.
End CropEvents.

Arguments CropEvent T : clear implicits.

(* ================================================================= *)
(** ** The home module: saving, viewing and deleting contacts *)

(** ToString on a value.  An array joins the texts of its elements with
    commas, [null] and [undefined] elements giving nothing; an object is
    "[object Object]", unless it has a [toString] property of its own: a
    JSON value is no function, and the conversion throws ([None]). *)
Fixpoint to_string (v : value) : option jsstring :=
  match v with
  | VUndefined => Some (js "undefined")
  | VNull => Some (js "null")
  | VBool true => Some (js "true")
  | VBool false => Some (js "false")
  | VStr s => Some s
  | VArr items =>
      option_map (join [44])
        ((fix texts (l : list value) : option (list jsstring) :=
            match l with
            | [] => Some []
            | x :: r =>
                match (match x with
                       | VUndefined | VNull => Some []
                       | _ => to_string x
                       end), texts r with
                | Some t, Some ts => Some (t :: ts)
                | _, _ => None
                end
            end) items)
  | VObj o => if has_key (js "toString") o then None
              else Some (js "[object Object]")
  end.

(** The globals [viewingSharedCard] and [sharedCardData]. *)
Record Session : Type := mkSession {
  viewingSharedCard : bool;
  sharedCardData : value
}.

Inductive SaveContactResult : Type :=
| NothingShared
| AlreadyInCollection
| ContactSaved (message : jsstring) (page : PageMode).

(** function saveContact().  [None] is an exception: a TypeError of
    [addContact], or of the message when a name does not convert.
    [addContact] stamps the object [sharedCardData] refers to, so the stamp
    shows in the session when the function stops before it clears the
    reference. *)
Definition saveContact (sess : Session) (now : jsstring) (st : Storage)
  : option SaveContactResult * Session * Storage :=
  if negb (truthy (sharedCardData sess)) then (Some NothingShared, sess, st)
  else
    match addContact (sharedCardData sess) now st with
    | None => (None, sess, st)
    | Some (success, st', contact) =>
        let sess' := mkSession (viewingSharedCard sess) contact in
        if negb success then (Some AlreadyInCollection, sess', st')
        else
          match to_string (get "firstName" contact),
                to_string (get "lastName" contact) with
          | Some first, Some last_ =>
              (Some (ContactSaved
                       (first ++ js " " ++ last_
                        ++ js "'s card saved to your contacts!")
                       (loadMyCard st')),
               mkSession false VNull, st')
          | _, _ => (None, sess', st')
          end
    end.

(** The decimal text of an integer, as a property key. *)
Definition number_key (i : Z) : jsstring :=
  js (DecimalString.NilZero.string_of_int (Z.to_int i)).

(** [v[i]] for an integer [i]; [None] is the TypeError on [null] and
    [undefined]. *)
Definition get_index (v : value) (i : Z) : option value :=
  match v with
  | VUndefined | VNull => None
  | VArr l =>
      Some (if ((0 <=? i) && (i <? Z.of_nat (length l)))%Z
            then nth (Z.to_nat i) l VUndefined else VUndefined)
  | VStr s =>
      Some (if ((0 <=? i) && (i <? Z.of_nat (length s)))%Z
            then VStr [nth (Z.to_nat i) s 0] else VUndefined)
  | VObj o => Some (lookup (number_key i) o)
  | VBool _ => Some VUndefined
  end.

(** function viewContact(index), for an integer index: the contact handed
    to [applyCardData], if any. *)
Definition viewContact (index : Z) (st : Storage) : option (option value) :=
  match get_index (getSavedContacts st) index with
  | None => None
  | Some contact => Some (if truthy contact then Some contact else None)
  end.

(** function deleteContact(index): the store afterwards, [confirmed] being
    the answer to the question. *)
Definition deleteContact (confirmed : bool) (index : Z) (st : Storage)
  : option Storage :=
  if negb confirmed then Some st
  else option_map snd (removeContact index st).

(* ================================================================= *)
(** ** [js/storage.js]: the phone line of [applyCardData] *)

(** The text of [phoneText] and the address of [phoneLink] that
    [applyCardData] sets for a card: a card without [phoneE164] gets both
    from its pretty number when that parses. *)
Definition phone_display (cardData : Card) : jsstring * jsstring :=
  let prettyPhone := phone cardData in
  let e164Phone := phoneE164 cardData in
  let (prettyPhone, e164Phone) :=
    if str_eqb e164Phone [] && negb (str_eqb (phone cardData) [])
    then match parsePrettyPhone10 (phone cardData) with
         | Some parsed => formatPhone (cc parsed) (local parsed)
         | None => (prettyPhone, e164Phone)
         end
    else (prettyPhone, e164Phone) in
  (prettyPhone,
   if str_eqb e164Phone [] then js "#" else js "tel:" ++ e164Phone).

(** A card as versions without [phoneE164] stored it. *)
Definition without_e164 (c : Card) : Card :=
  {| firstName := firstName c; lastName := lastName c; jobTitle := jobTitle c;
     email := email c; phone := phone c; phoneE164 := [];
     countryCode := countryCode c; localNumber := localNumber c;
     linkedin := linkedin c; cardColor := cardColor c; bgColor := bgColor c;
     profilePic := profilePic c; portfolioLinks := portfolioLinks c;
     portfolioVisibility := portfolioVisibility c;
     lastUpdated := lastUpdated c |}.

(* ================================================================= *)
(** ** The portfolio section: renderPortfolioSection *)

(** The double quote of the markup. *)
Definition dq : jsstring := [34].

(** A line break of a template literal and the indentation after it. *)
Definition nl (indent : nat) : jsstring := 10 :: repeat 32 indent.

(** cardData.portfolioVisibility || { cert: true, ... } *)
Definition visibility_of (cardData : value) : value :=
  if truthy (get "portfolioVisibility" cardData)
  then get "portfolioVisibility" cardData else default_visibility.

(** [visibility.key !== false] *)
Definition not_false (key : string) (visibility : value) : bool :=
  negb (strict_eq (get key visibility) (VBool false)).

(** const visibleItems: the pairs (type, label) pushed, in their order. *)
Definition visibleItems (visibility : value) : list (jsstring * jsstring) :=
  when (not_false "cert" visibility) (js "cert", js "Certifications")
  ++ when (not_false "edu" visibility) (js "edu", js "Education")
  ++ when (not_false "proj" visibility) (js "proj", js "Projects")
  ++ when (not_false "ref" visibility) (js "ref", js "References")
  ++ when (not_false "resume" visibility) (js "resume", js "Resume")
  ++ when (not_false "work" visibility) (js "work", js "Work").

(** The markup of one button. *)
Definition button (item : jsstring * jsstring) : jsstring :=
  js "<button class=" ++ dq ++ js "portfolio-link" ++ dq
  ++ js " data-link-type=" ++ dq ++ fst item ++ dq ++ js ">" ++ snd item
  ++ js "</button>".

(** [visibleItems[i]], read only below the length of the list. *)
Definition item_at (i : nat) (items : list (jsstring * jsstring)) : jsstring * jsstring :=
  nth i items ([], []).

Definition centered_div : jsstring :=
  js "<div style=" ++ dq
  ++ js "grid-column: 1 / -1; display: flex; justify-content: center;" ++ dq
  ++ js ">".

(** The [switch] on the number of visible items: what is added to
    [gridStyle], and [gridHtml]. *)
Definition grid_of (items : list (jsstring * jsstring)) : jsstring * jsstring :=
  let mapped := join [] (map button items) in
  match length items with
  | 1%nat => (js "grid-template-columns: 1fr; max-width: 140px;", mapped)
  | 2%nat => (js "grid-template-columns: 1fr 1fr; max-width: 200px;", mapped)
  | 3%nat =>
      (js "grid-template-columns: 1fr 1fr; max-width: 200px;",
       nl 8 ++ button (item_at 0 items)
       ++ nl 8 ++ button (item_at 1 items)
       ++ nl 8 ++ centered_div
       ++ nl 10 ++ button (item_at 2 items)
       ++ nl 8 ++ js "</div>"
       ++ nl 6)
  | 4%nat => (js "grid-template-columns: 1fr 1fr; max-width: 200px;", mapped)
  | 5%nat =>
      (js "grid-template-columns: 1fr 1fr; max-width: 200px;",
       nl 8 ++ button (item_at 0 items)
       ++ nl 8 ++ button (item_at 1 items)
       ++ nl 8 ++ button (item_at 2 items)
       ++ nl 8 ++ button (item_at 3 items)
       ++ nl 8 ++ centered_div
       ++ nl 10 ++ button (item_at 4 items)
       ++ nl 8 ++ js "</div>"
       ++ nl 6)
  | _ => (js "grid-template-columns: 1fr 1fr 1fr; max-width: 300px;", mapped)
  end.

(** What the call does to the element [.portfolio-links]. *)
Inductive PortfolioView : Type :=
| SectionUntouched
| SectionHidden
| SectionShown (innerHTML : jsstring).

(** function renderPortfolioSection(cardData).  [hasSection] says whether
    the element [.portfolio-links] exists; reading a property of null or of
    undefined throws. *)
Definition renderPortfolioSection (cardData : value) (hasSection : bool)
  : option PortfolioView :=
  match cardData with
  | VUndefined | VNull => None
  | _ =>
      let visibility := visibility_of cardData in
      let visibleItems := visibleItems visibility in
      if negb hasSection then Some SectionUntouched
      else if (length visibleItems =? 0)%nat then Some SectionHidden
      else
        let (columns, gridHtml) := grid_of visibleItems in
        let gridStyle := js "margin: 0 auto; display: grid; gap: 6px;" ++ columns in
        Some (SectionShown
                (nl 4 ++ js "<h3>PORTFOLIO</h3>"
                 ++ nl 4 ++ js "<div class=" ++ dq ++ js "portfolio-links-grid" ++ dq
                 ++ js " style=" ++ dq ++ gridStyle ++ dq ++ js ">"
                 ++ nl 6 ++ gridHtml
                 ++ nl 4 ++ js "</div>"
                 ++ nl 2))
  end.

(** How many times a text occurs in another, counted at every position. *)
Fixpoint occurrences (pat s : jsstring) : nat :=
  match s with
  | [] => 0
  | _ :: r => (if starts_with pat s then 1 else 0) + occurrences pat r
  end.

Definition nullish (v : value) : bool :=
  match v with VUndefined | VNull => true | _ => false end.

(** The six kinds of portfolio item and their labels. *)
Definition portfolio_items : list (string * string) :=
  [("cert", "Certifications"); ("edu", "Education"); ("proj", "Projects");
   ("ref", "References"); ("resume", "Resume"); ("work", "Work")]%string.

(** The section as a function of the six flags. *)
Definition section_of (b1 b2 b3 b4 b5 b6 : bool) : PortfolioView :=
  let items :=
    when b1 (js "cert", js "Certifications") ++ when b2 (js "edu", js "Education")
    ++ when b3 (js "proj", js "Projects") ++ when b4 (js "ref", js "References")
    ++ when b5 (js "resume", js "Resume") ++ when b6 (js "work", js "Work") in
  if (length items =? 0)%nat then SectionHidden
  else
    let (columns, gridHtml) := grid_of items in
    SectionShown
      (nl 4 ++ js "<h3>PORTFOLIO</h3>"
       ++ nl 4 ++ js "<div class=" ++ dq ++ js "portfolio-links-grid" ++ dq
       ++ js " style=" ++ dq
       ++ (js "margin: 0 auto; display: grid; gap: 6px;" ++ columns) ++ dq ++ js ">"
       ++ nl 6 ++ gridHtml
       ++ nl 4 ++ js "</div>"
       ++ nl 2).

Definition count_true (bs : list bool) : nat := length (filter (fun b => b) bs).

Definition one_if (b : bool) : nat := if b then 1 else 0.


(* ================================================================= *)
(** ** Further concrete values *)

(** What [parsePrettyPhone10] reads from "44(020)  794-6000". *)
Definition parsed_london : PrettyPhone :=
  mkPrettyPhone (js "44") (js "0207946000") (js "(020)-794-6000").

(** The crop state as it is declared, on the numbers of the page. *)
Definition crop_reset_float : CropState PrimFloat.float :=
  mkCrop None (float_of_Z 1) (mkPoint (float_of_Z 0) (float_of_Z 0)) false
         (mkPoint (float_of_Z 0) (float_of_Z 0)).

Definition float_point (x y : Z) : Point PrimFloat.float :=
  mkPoint (float_of_Z x) (float_of_Z y).

(** The crop state after the slider has gone to 10 and then to 60, in a
    container of 300 by 200. *)
Definition crop_zoomed_float : CropState PrimFloat.float :=
  zoom_oninput (float_of_Z 60) (float_of_Z 300) (float_of_Z 200)
    (zoom_oninput (float_of_Z 10) (float_of_Z 300) (float_of_Z 200)
       crop_reset_float).

(** The moves in the middle of a drag, by touch and by mouse. *)
Definition drag_moves_float : list (CropEvent PrimFloat.float) :=
  [TouchMove (float_point 12 9); MouseMove (float_point 30 2)].

(** A visitor who has opened Ann's link. *)
Definition session_ann : Session := mkSession true shared_ann.

(** A namesake of Ann with another address. *)
Definition shared_namesake_fields : object :=
  [(js "firstName", VStr (js "Ann")); (js "lastName", VStr (js "Lee"));
   (js "email", VStr (js "ann.lee@example.org"))].

(* ################################################################# *)
(** * Part II: proofs *)

Ltac nlia := zify; Z.to_euclidean_division_equations; lia.

Lemma forall_below_spec (n : nat) (p : N -> bool) :
  forall_below n p = true -> forall i, i < N.of_nat n -> p i = true.
Proof.
  induction n as [|k IH]; intros H i Hi.
  - lia.
  - cbn [forall_below] in H. apply andb_true_iff in H as [Hk Hr].
    destruct (N.eq_dec i (N.of_nat k)) as [->|Hne]; [exact Hk|].
    apply IH; [exact Hr|lia].
Qed.

(** Induction three elements at a time, the way base64 consumes octets. *)
Lemma list_ind3 (A : Type) (P : list A -> Prop) :
  P [] -> (forall a, P [a]) -> (forall a b, P [a; b]) ->
  (forall a b c r, P r -> P (a :: b :: c :: r)) ->
  forall l, P l.
Proof.
  intros H0 H1 H2 H3.
  fix IH 1. intros [|a [|b [|c r]]];
    [exact H0 | apply H1 | apply H2 | apply H3, IH].
Qed.

(* ================================================================= *)
(** ** Base64 *)

Lemma b64_char_index i : i < 64 -> b64_index (b64_char i) = Some i.
Proof.
  intros Hi.
  assert (H : forall_below 64 (fun j => match b64_index (b64_char j) with
                                        | Some k => k =? j
                                        | None => false
                                        end) = true) by (vm_compute; reflexivity).
  pose proof (forall_below_spec _ _ H i Hi) as Hs. cbv beta in Hs.
  destruct (b64_index (b64_char i)); [|discriminate].
  apply N.eqb_eq in Hs. now subst.
Qed.

Lemma b64_char_plain i :
  i < 64 -> is_ascii_ws (b64_char i) = false /\ (b64_char i =? 61) = false.
Proof.
  intros Hi.
  assert (H : forall_below 64 (fun j => negb (is_ascii_ws (b64_char j))
                                        && negb (b64_char j =? 61)) = true)
    by (vm_compute; reflexivity).
  pose proof (forall_below_spec _ _ H i Hi) as Hs. cbv beta in Hs.
  apply andb_true_iff in Hs as [H1 H2].
  split; now apply negb_true_iff.
Qed.


Lemma sextet_char_intro i : i < 64 -> sextet_char (b64_char i).
Proof. intros; exists i; auto. Qed.

Lemma b64_unpadded_sextets bs :
  forallb is_octet bs = true -> Forall sextet_char (b64_unpadded bs).
Proof.
  unfold is_octet.
  induction bs as [|a|a b|a b c r IH] using list_ind3; cbn [b64_unpadded forallb];
    rewrite ?andb_true_iff, ?N.ltb_lt; intros H.
  - constructor.
  - repeat constructor; apply sextet_char_intro; nlia.
  - repeat constructor; apply sextet_char_intro; nlia.
  - destruct H as (Ha & Hb & Hc & Hr).
    repeat (constructor; [apply sextet_char_intro; nlia|]). now apply IH.
Qed.

Lemma b64_encode_split bs : b64_encode bs = b64_unpadded bs ++ b64_padding bs.
Proof.
  induction bs as [|a|a b|a b c r IH] using list_ind3;
    cbn [b64_encode b64_unpadded b64_padding app]; try reflexivity.
  now rewrite IH.
Qed.

Lemma b64_encode_length bs : N.of_nat (length (b64_encode bs)) mod 4 = 0.
Proof.
  induction bs as [|a|a b|a b c r IH] using list_ind3; try reflexivity.
  cbn [b64_encode length]. nlia.
Qed.

Lemma filter_sextets s :
  Forall sextet_char s -> filter (fun c => negb (is_ascii_ws c)) s = s.
Proof.
  induction 1 as [|c r (i & Hi & ->) _ IH]; cbn [filter]; [reflexivity|].
  destruct (b64_char_plain _ Hi) as [-> _]. cbn [negb]. now rewrite IH.
Qed.

Lemma filter_padding bs :
  filter (fun c => negb (is_ascii_ws c)) (b64_padding bs) = b64_padding bs.
Proof.
  induction bs as [|a|a b|a b c r IH] using list_ind3; cbn; auto.
Qed.

Lemma strip_padding_encode bs :
  forallb is_octet bs = true ->
  strip_padding (b64_encode bs) = b64_unpadded bs.
Proof.
  intros Hb. pose proof (b64_unpadded_sextets bs Hb) as Hs.
  unfold strip_padding. rewrite b64_encode_length. cbn [N.eqb].
  rewrite b64_encode_split.
  assert (Hpad : b64_padding bs = [] \/ (b64_padding bs = [61] /\ b64_unpadded bs <> [])
                 \/ b64_padding bs = [61; 61]).
  { clear. induction bs as [|a|a b|a b c r IH] using list_ind3;
      cbn [b64_padding b64_unpadded].
    - now left.
    - now right; right.
    - right; left; split; [reflexivity|discriminate].
    - destruct IH as [H | [[H _] | H]]; rewrite H.
      + now left.
      + right; left; split; [reflexivity|discriminate].
      + now right; right. }
  destruct Hpad as [Hp | [[Hp Hne] | Hp]]; rewrite Hp.
  - rewrite app_nil_r.
    destruct (rev (b64_unpadded bs)) as [|c1 [|c2 r]] eqn:Hr; try reflexivity.
    assert (Hin : In c1 (b64_unpadded bs)) by (apply in_rev; rewrite Hr; now left).
    rewrite Forall_forall in Hs. destruct (Hs _ Hin) as (i & Hi & ->).
    destruct (b64_char_plain _ Hi) as [_ ->]. reflexivity.
  - rewrite rev_app_distr. cbn [rev app].
    destruct (rev (b64_unpadded bs)) as [|c2 r] eqn:Hr.
    + exfalso. apply Hne. rewrite <- (rev_involutive (b64_unpadded bs)), Hr. reflexivity.
    + cbn [N.eqb Pos.eqb].
      assert (Hin : In c2 (b64_unpadded bs)) by (apply in_rev; rewrite Hr; now left).
      rewrite Forall_forall in Hs. destruct (Hs _ Hin) as (i & Hi & ->).
      destruct (b64_char_plain _ Hi) as [_ ->].
      change (rev (b64_char i :: r) = b64_unpadded bs).
      rewrite <- Hr. apply rev_involutive.
  - rewrite rev_app_distr. cbn [rev app N.eqb Pos.eqb]. apply rev_involutive.
Qed.

Lemma b64_decode_unpadded bs :
  forallb is_octet bs = true ->
  (N.of_nat (length (b64_unpadded bs)) mod 4 =? 1) = false /\
  option_map b64_decode (map_opt b64_index (b64_unpadded bs)) = Some bs.
Proof.
  unfold is_octet.
  induction bs as [|a|a b|a b c r IH] using list_ind3; cbn [forallb];
    rewrite ?andb_true_iff, ?N.ltb_lt; intros H.
  - split; reflexivity.
  - split; [reflexivity|]. cbn [b64_unpadded map_opt].
    rewrite !b64_char_index by nlia. cbn. f_equal. f_equal. nlia.
  - split; [reflexivity|]. cbn [b64_unpadded map_opt].
    rewrite !b64_char_index by nlia. cbn. f_equal. f_equal; [|f_equal]; nlia.
  - destruct H as (Ha & Hb & Hc & Hr). destruct (IH Hr) as [IH1 IH2].
    split.
    + cbn [b64_unpadded length]. apply N.eqb_neq. apply N.eqb_neq in IH1. nlia.
    + cbn [b64_unpadded map_opt]. rewrite !b64_char_index by nlia.
      destruct (map_opt b64_index (b64_unpadded r)) as [ix|]; [|discriminate].
      cbn in IH2. injection IH2 as IH2. cbn. rewrite IH2.
      f_equal. f_equal; [|f_equal; [|f_equal]]; nlia.
Qed.

(** [atob] undoes [btoa] on every binary string. *)
Lemma atob_btoa (bs : jsstring) :
  forallb is_octet bs = true ->
  btoa bs = Some (b64_encode bs) /\ atob (b64_encode bs) = Some bs.
Proof.
  intros Hb. split.
  - unfold btoa. unfold is_octet in Hb. now rewrite Hb.
  - unfold atob.
    assert (Hf : filter (fun c => negb (is_ascii_ws c)) (b64_encode bs) = b64_encode bs).
    { rewrite b64_encode_split, filter_app, filter_padding.
      now rewrite (filter_sextets _ (b64_unpadded_sextets bs Hb)). }
    rewrite Hf, (strip_padding_encode bs Hb).
    destruct (b64_decode_unpadded bs Hb) as [-> H2].
    destruct (map_opt b64_index (b64_unpadded bs)); [|discriminate].
    cbn in H2. exact H2.
Qed.

(* ================================================================= *)
(** ** Percent escapes and UTF-8 *)

Ltac unbool :=
  repeat first
    [ rewrite orb_true_iff in * | rewrite andb_true_iff in *
    | rewrite orb_false_iff in * | rewrite andb_false_iff in *
    | rewrite negb_true_iff in * | rewrite negb_false_iff in *
    | rewrite N.eqb_eq in * | rewrite N.eqb_neq in *
    | rewrite N.leb_le in * | rewrite N.leb_gt in *
    | rewrite N.ltb_lt in * | rewrite N.ltb_ge in * ].

(** Decide a comparison from the arithmetic context. *)
Ltac decide_cmp :=
  repeat match goal with
  | |- context [?a <? ?b] =>
      first [ replace (a <? b) with true by (symmetry; apply N.ltb_lt; nlia)
            | replace (a <? b) with false by (symmetry; apply N.ltb_ge; nlia) ]
  | |- context [?a <=? ?b] =>
      first [ replace (a <=? b) with true by (symmetry; apply N.leb_le; nlia)
            | replace (a <=? b) with false by (symmetry; apply N.leb_gt; nlia) ]
  | |- context [?a =? ?b] =>
      first [ replace (a =? b) with true by (symmetry; apply N.eqb_eq; nlia)
            | replace (a =? b) with false by (symmetry; apply N.eqb_neq; nlia) ]
  end.

Lemma hex_upper_val d : d < 16 -> hex_val (hex_upper d) = Some d.
Proof.
  intros Hd.
  assert (H : forall_below 16 (fun j => match hex_val (hex_upper j) with
                                        | Some k => k =? j
                                        | None => false
                                        end) = true) by (vm_compute; reflexivity).
  pose proof (forall_below_spec _ _ H d Hd) as Hs. cbv beta in Hs.
  destruct (hex_val (hex_upper d)); [|discriminate].
  apply N.eqb_eq in Hs. now subst.
Qed.

Lemma hex_lower_val d : d < 16 -> hex_val (hex_lower d) = Some d.
Proof.
  intros Hd.
  assert (H : forall_below 16 (fun j => match hex_val (hex_lower j) with
                                        | Some k => k =? j
                                        | None => false
                                        end) = true) by (vm_compute; reflexivity).
  pose proof (forall_below_spec _ _ H d Hd) as Hs. cbv beta in Hs.
  destruct (hex_val (hex_lower d)); [|discriminate].
  apply N.eqb_eq in Hs. now subst.
Qed.

Lemma hex_upper_not_u d : d < 16 -> (hex_upper d =? 117) = false.
Proof.
  intros Hd. unfold hex_upper. destruct (d <? 10) eqn:E; unbool; lia.
Qed.

Lemma hex2_upper b : b < 256 -> hex2 (hex_upper (b / 16)) (hex_upper (b mod 16)) = Some b.
Proof.
  intros Hb. unfold hex2. rewrite !hex_upper_val by nlia. f_equal. nlia.
Qed.

Lemma take_pct_pct b r : b < 256 -> take_pct (pct b ++ r) = Some (b, r).
Proof.
  intros Hb. unfold pct, take_pct. cbn [app N.eqb Pos.eqb].
  now rewrite hex2_upper.
Qed.

Lemma unescape_pct b r : b < 256 -> unescape (pct b ++ r) = b :: unescape r.
Proof.
  intros Hb. unfold pct. cbn [app unescape N.eqb Pos.eqb].
  rewrite hex2_upper by exact Hb.
  destruct r as [|h2 [|h3 [|h4 r5]]]; try reflexivity.
  now rewrite hex_upper_not_u by nlia.
Qed.

Lemma unescape_pct_all bs r :
  forallb is_octet bs = true -> unescape (pct_all bs ++ r) = bs ++ unescape r.
Proof.
  unfold pct_all, is_octet.
  induction bs as [|b bs IH]; cbn [forallb flat_map app]; intros H; [reflexivity|].
  apply andb_true_iff in H as [Hb Hr]. apply N.ltb_lt in Hb.
  rewrite <- app_assoc, unescape_pct by exact Hb. now rewrite IH.
Qed.

Lemma unescape_plain c r : c <> 37 -> unescape (c :: r) = c :: unescape r.
Proof.
  intros Hc. cbn [unescape]. apply N.eqb_neq in Hc. now rewrite Hc.
Qed.

Lemma uri_unreserved_ascii c :
  uri_unreserved c = true ->
  c < 128 /\ c <> 37 /\ is_low_surrogate c = false /\ is_high_surrogate c = false.
Proof.
  unfold uri_unreserved, is_alnum, is_alpha, is_upper, is_lower, is_digit,
    is_low_surrogate, is_high_surrogate, in_range, mem.
  cbn [js list_ascii_of_string map existsb N_of_ascii N_of_digits N.add N.mul Pos.add Pos.mul Pos.succ].
  intros H. unbool. lia.
Qed.

Lemma utf8_octets_are_octets cp :
  cp < 1114112 -> forallb is_octet (utf8_octets cp) = true.
Proof.
  intros Hcp. unfold utf8_octets, is_octet.
  destruct (cp <? 128) eqn:E1; [|destruct (cp <? 2048) eqn:E2;
    [|destruct (cp <? 65536) eqn:E3]]; cbn [forallb]; unbool; nlia.
Qed.

Lemma pair_code_point_range c d :
  is_high_surrogate c = true -> is_low_surrogate d = true ->
  65536 <= pair_code_point c d < 1114112.
Proof.
  unfold is_high_surrogate, is_low_surrogate, in_range, pair_code_point.
  intros Hc Hd. unbool. nlia.
Qed.

Lemma forallb_octet_app a b :
  forallb is_octet a = true -> forallb is_octet b = true ->
  forallb is_octet (a ++ b) = true.
Proof. intros Ha Hb. now rewrite forallb_app, Ha, Hb. Qed.

(** [unescape (encodeURIComponent s)] is the UTF-8 encoding of [s], a binary
    string. *)
Lemma encode_then_unescape n : forall s bs,
  (length s <= n)%nat -> utf8_of_string s = Some bs ->
  exists e, encodeURIComponent s = Some e /\ unescape e = bs
            /\ forallb is_octet bs = true.
Proof.
  induction n as [|n IH]; intros [|c r] bs Hn H; cbn [length] in Hn; try lia;
    try (injection H as <-; exists []; repeat split; reflexivity).
  cbn [utf8_of_string encodeURIComponent] in *.
  destruct (uri_unreserved c) eqn:Hu.
  - destruct (uri_unreserved_ascii c Hu) as (Hlt & H37 & Hl & Hh).
    rewrite Hl, Hh in H.
    replace (c <? 65536) with true in H by (symmetry; apply N.ltb_lt; lia).
    destruct (utf8_of_string r) as [br|] eqn:Hr; [|discriminate].
    destruct (IH r br ltac:(lia) Hr) as (e & -> & He & Ho).
    cbn [option_map] in *. injection H as <-.
    exists (c :: e). split; [reflexivity|]. rewrite unescape_plain by exact H37.
    unfold utf8_octets. replace (c <? 128) with true by (symmetry; apply N.ltb_lt; lia).
    cbn [app]. rewrite He. split; [reflexivity|].
    cbn [forallb]. rewrite Ho. unfold is_octet.
    replace (c <? 256) with true by (symmetry; apply N.ltb_lt; lia). reflexivity.
  - destruct (is_low_surrogate c) eqn:Hlo; [discriminate|].
    destruct (is_high_surrogate c) eqn:Hhi.
    + destruct r as [|d r']; [discriminate|].
      destruct (is_low_surrogate d) eqn:Hd; [|discriminate].
      destruct (utf8_of_string r') as [br|] eqn:Hr; [|discriminate].
      cbn [length] in Hn.
      destruct (IH r' br ltac:(lia) Hr) as (e & -> & He & Ho).
      cbn [option_map] in *. injection H as <-.
      pose proof (pair_code_point_range c d Hhi Hd) as Hcp.
      pose proof (utf8_octets_are_octets (pair_code_point c d) ltac:(lia)) as Hoct.
      eexists. split; [reflexivity|].
      fold (pair_code_point c d).
      rewrite unescape_pct_all by exact Hoct. rewrite He.
      split; [reflexivity|]. now apply forallb_octet_app.
    + destruct (c <? 65536) eqn:Hc; [|discriminate]. apply N.ltb_lt in Hc.
      destruct (utf8_of_string r) as [br|] eqn:Hr; [|discriminate].
      destruct (IH r br ltac:(lia) Hr) as (e & -> & He & Ho).
      cbn [option_map] in *. injection H as <-.
      pose proof (utf8_octets_are_octets c ltac:(lia)) as Hoct.
      eexists. split; [reflexivity|].
      rewrite unescape_pct_all by exact Hoct. rewrite He.
      split; [reflexivity|]. now apply forallb_octet_app.
Qed.

Lemma escape_app a b : escape (a ++ b) = escape a ++ escape b.
Proof. unfold escape. apply flat_map_app. Qed.

Lemma escape_safe_ascii c : escape_safe c = true -> c < 128 /\ c <> 37.
Proof.
  unfold escape_safe, is_alnum, is_alpha, is_upper, is_lower, is_digit, in_range, mem.
  cbn [js list_ascii_of_string map existsb N_of_ascii N_of_digits N.add N.mul Pos.add Pos.mul Pos.succ].
  intros H. unbool. lia.
Qed.

Lemma escape_unit_high b : 128 <= b < 256 -> escape_unit b = pct b.
Proof.
  intros Hb. unfold escape_unit.
  destruct (escape_safe b) eqn:E.
  - apply escape_safe_ascii in E. lia.
  - now replace (b <? 256) with true by (symmetry; apply N.ltb_lt; lia).
Qed.

Lemma escape_unit_length c : (1 <= length (escape_unit c))%nat.
Proof.
  unfold escape_unit, pct.
  destruct (escape_safe c); [|destruct (c <? 256)]; cbn [length]; lia.
Qed.

Lemma decode_uri_pct f b r :
  b < 256 -> decode_uri (S f) (pct b ++ r) = decode_octets (decode_uri f) b r.
Proof.
  intros Hb. pose proof (take_pct_pct b r Hb) as Ht.
  unfold pct in *. cbn [app] in *. cbn [decode_uri negb N.eqb Pos.eqb].
  now rewrite Ht.
Qed.

Lemma take_cont_pct b r : 128 <= b <= 191 -> take_cont (pct b ++ r) = Some (b, r).
Proof.
  intros Hb. unfold take_cont. rewrite take_pct_pct by lia.
  unfold in_range. now decide_cmp.
Qed.

Lemma decode_cp1 f c r :
  c < 128 ->
  decode_uri (S f) (escape (utf8_octets c) ++ r) = option_map (cons c) (decode_uri f r).
Proof.
  intros Hc. unfold utf8_octets. decide_cmp.
  unfold escape. cbn [flat_map]. rewrite app_nil_r.
  unfold escape_unit. destruct (escape_safe c) eqn:E.
  - apply escape_safe_ascii in E as [_ E]. cbn [app decode_uri].
    apply N.eqb_neq in E. now rewrite E.
  - decide_cmp. rewrite decode_uri_pct by lia. unfold decode_octets. now decide_cmp.
Qed.

Lemma decode_cp2 f c r :
  128 <= c < 2048 ->
  decode_uri (S f) (escape (utf8_octets c) ++ r) = option_map (cons c) (decode_uri f r).
Proof.
  intros Hc. unfold utf8_octets. decide_cmp.
  unfold escape. cbn [flat_map]. rewrite app_nil_r.
  rewrite !escape_unit_high by nlia. rewrite <- app_assoc.
  rewrite decode_uri_pct by nlia. unfold decode_octets, in_range. decide_cmp.
  cbn [andb]. rewrite take_cont_pct by nlia.
  replace ((192 + c / 64 - 192) * 64 + (128 + c mod 64 - 128)) with c by nlia.
  decide_cmp. unfold utf16_units. decide_cmp. reflexivity.
Qed.

Lemma decode_cp3 f c r :
  2048 <= c < 65536 -> is_surrogate c = false ->
  decode_uri (S f) (escape (utf8_octets c) ++ r) = option_map (cons c) (decode_uri f r).
Proof.
  intros Hc Hs. unfold utf8_octets. decide_cmp.
  unfold escape. cbn [flat_map]. rewrite app_nil_r.
  rewrite !escape_unit_high by nlia. rewrite <- !app_assoc.
  rewrite decode_uri_pct by nlia. unfold decode_octets, in_range. decide_cmp.
  cbn [andb]. rewrite !take_cont_pct by nlia.
  replace ((224 + c / 4096 - 224) * 4096 + (128 + (c / 64) mod 64 - 128) * 64
           + (128 + c mod 64 - 128)) with c by nlia.
  rewrite Hs. decide_cmp. cbn [orb].
  unfold utf16_units. decide_cmp. reflexivity.
Qed.

Lemma decode_cp4 f cp r :
  65536 <= cp < 1114112 ->
  decode_uri (S f) (escape (utf8_octets cp) ++ r)
  = option_map (app (utf16_units cp)) (decode_uri f r).
Proof.
  intros Hc. unfold utf8_octets. decide_cmp.
  unfold escape. cbn [flat_map]. rewrite app_nil_r.
  rewrite !escape_unit_high by nlia. rewrite <- !app_assoc.
  rewrite decode_uri_pct by nlia. unfold decode_octets, in_range. decide_cmp.
  cbn [andb]. rewrite !take_cont_pct by nlia.
  replace ((240 + cp / 262144 - 240) * 262144 + (128 + (cp / 4096) mod 64 - 128) * 4096
           + (128 + (cp / 64) mod 64 - 128) * 64 + (128 + cp mod 64 - 128))
    with cp by nlia.
  decide_cmp. reflexivity.
Qed.

Lemma utf16_units_pair c d :
  is_high_surrogate c = true -> is_low_surrogate d = true ->
  utf16_units (pair_code_point c d) = [c; d].
Proof.
  intros Hc Hd. pose proof (pair_code_point_range c d Hc Hd) as Hr.
  unfold utf16_units. decide_cmp.
  unfold is_high_surrogate, is_low_surrogate, in_range, pair_code_point in *.
  unbool. f_equal; [|f_equal]; nlia.
Qed.

Lemma escape_octets_length cp : (1 <= length (escape (utf8_octets cp)))%nat.
Proof.
  unfold utf8_octets, escape.
  destruct (cp <? 128); [|destruct (cp <? 2048); [|destruct (cp <? 65536)]];
    cbn [flat_map]; rewrite length_app;
    match goal with |- context [escape_unit ?b ++ _] => idtac | _ => idtac end;
    match goal with |- (1 <= length (escape_unit ?b) + _)%nat =>
      pose proof (escape_unit_length b); lia end.
Qed.

(** [decodeURIComponent (escape bs)] reads a UTF-8 encoding back. *)
Lemma escape_then_decode n : forall s bs f,
  (length s <= n)%nat -> utf8_of_string s = Some bs ->
  (length (escape bs) <= f)%nat ->
  decode_uri f (escape bs) = Some s.
Proof.
  induction n as [|n IH]; intros [|c r] bs f Hn H Hf; cbn [length] in Hn; try lia;
    try (injection H as <-; destruct f; reflexivity).
  cbn [utf8_of_string] in H.
  destruct (is_low_surrogate c) eqn:Hlo; [discriminate|].
  destruct (is_high_surrogate c) eqn:Hhi.
  - destruct r as [|d r']; [discriminate|].
    destruct (is_low_surrogate d) eqn:Hd; [|discriminate].
    destruct (utf8_of_string r') as [br|] eqn:Hr; [|discriminate].
    cbn [option_map length] in *. injection H as <-.
    rewrite escape_app in *. rewrite length_app in Hf.
    pose proof (escape_octets_length (pair_code_point c d)) as Hl.
    destruct f as [|f]; [lia|].
    pose proof (pair_code_point_range c d Hhi Hd) as Hcp.
    rewrite decode_cp4 by exact Hcp.
    rewrite (IH r' br f) by (auto; lia).
    cbn [option_map]. now rewrite utf16_units_pair.
  - destruct (c <? 65536) eqn:Hc; [|discriminate]. apply N.ltb_lt in Hc.
    destruct (utf8_of_string r) as [br|] eqn:Hr; [|discriminate].
    cbn [option_map] in H. injection H as <-.
    rewrite escape_app in *. rewrite length_app in Hf.
    pose proof (escape_octets_length c) as Hl.
    destruct f as [|f]; [lia|].
    assert (HIH : decode_uri f (escape br) = Some r) by (apply IH; auto; lia).
    destruct (N.lt_ge_cases c 128) as [H1|H1];
      [|destruct (N.lt_ge_cases c 2048) as [H2|H2]].
    + rewrite decode_cp1 by exact H1. now rewrite HIH.
    + rewrite decode_cp2 by lia. now rewrite HIH.
    + rewrite decode_cp3; [now rewrite HIH | lia |].
      unfold is_surrogate, is_high_surrogate, is_low_surrogate, in_range in *.
      unbool. lia.
Qed.

(* ================================================================= *)
(** ** JSON: parsing the text of a value *)

Section ValueInduction.
Variable P : value -> Prop.
Hypothesis HUndefined : P VUndefined.
Hypothesis HNull : P VNull.
Hypothesis HBool : forall b, P (VBool b).
Hypothesis HStr : forall s, P (VStr s).
Hypothesis HArr : forall items, Forall P items -> P (VArr items).
Hypothesis HObj : forall fields, Forall (fun kv => P (snd kv)) fields -> P (VObj fields).

Lemma value_ind : forall v, P v.
Proof.
  fix IH 1. intros [| |b|s|items|fields].
  - exact HUndefined.
  - exact HNull.
  - apply HBool.
  - apply HStr.
  - apply HArr. induction items as [|x r IHr]; constructor; [apply IH|exact IHr].
  - apply HObj. induction fields as [|[k x] r IHr]; constructor; [apply IH|exact IHr].
Qed.
End ValueInduction.

Lemma str_eqb_eq a b : str_eqb a b = true <-> a = b.
Proof. unfold str_eqb. destruct (list_eq_dec N.eq_dec a b); split; congruence. Qed.

Lemma str_eqb_refl a : str_eqb a a = true.
Proof. now apply str_eqb_eq. Qed.

Lemma str_eqb_neq a b : str_eqb a b = false <-> a <> b.
Proof. unfold str_eqb. destruct (list_eq_dec N.eq_dec a b); split; congruence. Qed.

Lemma nodupb_NoDup l : nodupb l = true -> NoDup l.
Proof.
  induction l as [|k r IH]; cbn [nodupb]; intros H; constructor;
    apply andb_true_iff in H as [H1 H2].
  - intros Hin. apply negb_true_iff in H1.
    assert (existsb (str_eqb k) r = true); [|congruence].
    apply existsb_exists. exists k. split; [exact Hin|apply str_eqb_refl].
  - now apply IH.
Qed.

Lemma obj_set_fresh k v o : ~ In k (map fst o) -> obj_set k v o = o ++ [(k, v)].
Proof.
  induction o as [|[k' v'] r IH]; cbn [obj_set map fst In app]; intros H; [reflexivity|].
  destruct (str_eqb k k') eqn:E.
  - apply str_eqb_eq in E. subst. exfalso. apply H. now left.
  - rewrite IH; [reflexivity|]. intros Hin. apply H. now right.
Qed.

(** *** String literals *)

Lemma hex4_lower c :
  c < 65536 ->
  hex4 (hex_lower (c / 4096)) (hex_lower ((c / 256) mod 16))
       (hex_lower ((c / 16) mod 16)) (hex_lower (c mod 16)) = Some c.
Proof.
  intros Hc. unfold hex4, hex2. rewrite !hex_lower_val by nlia.
  f_equal. nlia.
Qed.

Lemma parse_string_verbatim c r :
  32 <= c -> c <> 34 -> c <> 92 ->
  parse_string_body (c :: r) = cons_fst c (parse_string_body r).
Proof.
  intros H1 H2 H3. cbn [parse_string_body]. now decide_cmp.
Qed.

Lemma parse_string_quote_unit c r :
  c < 65536 ->
  parse_string_body (quote_unit c ++ r) = cons_fst c (parse_string_body r).
Proof.
  intros Hc. unfold quote_unit.
  repeat match goal with
  | |- context [if ?x =? ?y then _ else _] =>
      destruct (N.eqb_spec x y) as [->|?]; [reflexivity|]
  end.
  destruct ((c <? 32) || is_surrogate c) eqn:E.
  - unfold json_escape_unit. cbn [app parse_string_body N.eqb Pos.eqb].
    now rewrite hex4_lower.
  - unfold is_surrogate, in_range in E. unbool.
    cbn [app]. apply parse_string_verbatim; lia.
Qed.

Lemma parse_quote_body n : forall s rest,
  (length s <= n)%nat -> wf_string s = true ->
  parse_string_body (quote_body s ++ 34 :: rest) = Some (s, rest).
Proof.
  induction n as [|n IH]; intros [|c r] rest Hn Hwf; cbn [length] in Hn; try lia;
    try reflexivity.
  cbn [wf_string forallb] in Hwf. apply andb_true_iff in Hwf as [Hc Hr].
  apply N.ltb_lt in Hc. cbn [quote_body].
  assert (Hsingle : parse_string_body ((quote_unit c ++ quote_body r) ++ 34 :: rest)
                    = Some (c :: r, rest)).
  { rewrite <- app_assoc, parse_string_quote_unit by exact Hc.
    rewrite IH by (auto; lia). reflexivity. }
  destruct (is_high_surrogate c) eqn:Hhi; [|exact Hsingle].
  destruct r as [|d r']; [cbn [quote_body] in Hsingle; now rewrite app_nil_r in Hsingle|].
  destruct (is_low_surrogate d) eqn:Hlo; [|exact Hsingle].
  cbn [wf_string forallb] in Hr. apply andb_true_iff in Hr as [Hd Hr'].
  unfold is_high_surrogate, is_low_surrogate, in_range in *. unbool.
  cbn [app length] in *.
  rewrite parse_string_verbatim by lia.
  rewrite parse_string_verbatim by lia.
  rewrite IH by (auto; lia). reflexivity.
Qed.

Lemma parse_quoted s rest :
  wf_string s = true ->
  exists body, QuoteJSONString s ++ rest = 34 :: body
               /\ parse_string_body body = Some (s, rest).
Proof.
  intros Hwf. exists (quote_body s ++ 34 :: rest). split.
  - unfold QuoteJSONString. cbn [app]. now rewrite <- app_assoc.
  - now apply (parse_quote_body (length s)).
Qed.

(** *** Values *)

Lemma parse_value_eq f s :
  parse_value (S f) s =
  match skip_ws s with
  | [] => None
  | c :: r =>
      if c =? 34 then
        match parse_string_body r with
        | Some (t, r') => Some (VStr t, r')
        | None => None
        end
      else if c =? 123 then
        match skip_ws r with
        | d :: r' => if d =? 125 then Some (VObj [], r')
                     else parse_members f (d :: r') []
        | [] => None
        end
      else if c =? 91 then
        match skip_ws r with
        | d :: r' => if d =? 93 then Some (VArr [], r')
                     else parse_elements f (d :: r') []
        | [] => None
        end
      else if starts_with (js "true") (c :: r) then Some (VBool true, skipn 4 (c :: r))
      else if starts_with (js "false") (c :: r) then Some (VBool false, skipn 5 (c :: r))
      else if starts_with (js "null") (c :: r) then Some (VNull, skipn 4 (c :: r))
      else None
  end.
Proof. reflexivity. Qed.

Lemma parse_members_eq f s acc :
  parse_members (S f) s acc =
  match skip_ws s with
  | q :: r =>
      if q =? 34 then
        match parse_string_body r with
        | Some (k, r1) =>
            match skip_ws r1 with
            | colon :: r2 =>
                if colon =? 58 then
                  match parse_value f r2 with
                  | Some (v, r3) =>
                      match skip_ws r3 with
                      | e :: r4 =>
                          if e =? 44 then parse_members f r4 (obj_set k v acc)
                          else if e =? 125 then Some (VObj (obj_set k v acc), r4)
                          else None
                      | [] => None
                      end
                  | None => None
                  end
                else None
            | [] => None
            end
        | None => None
        end
      else None
  | [] => None
  end.
Proof. reflexivity. Qed.

Lemma parse_elements_eq f s acc :
  parse_elements (S f) s acc =
  match parse_value f s with
  | Some (v, r1) =>
      match skip_ws r1 with
      | e :: r2 =>
          if e =? 44 then parse_elements f r2 (acc ++ [v])
          else if e =? 93 then Some (VArr (acc ++ [v]), r2)
          else None
      | [] => None
      end
  | None => None
  end.
Proof. reflexivity. Qed.

Lemma stringify_none x : stringify x = None -> x = VUndefined.
Proof. destruct x as [| |[|]| | |]; cbn; congruence. Qed.

(** The text of a value starts with a significant character that closes
    neither an array nor an object. *)
Lemma stringify_head x t :
  stringify x = Some t ->
  exists c r, t = c :: r /\ is_json_ws c = false /\ (c =? 93) = false.
Proof.
  destruct x as [| |[|]|s|items|fields]; cbn [stringify]; intros H;
    try discriminate; injection H as <-; eexists; eexists;
    (split; [reflexivity|split; reflexivity]).
Qed.

Lemma join_cons sep w w' ws :
  join sep (w :: w' :: ws) = w ++ sep ++ join sep (w' :: ws).
Proof. reflexivity. Qed.

Lemma parses_null rest f :
  (4 <= f)%nat -> parse_value f (js "null" ++ rest) = Some (VNull, rest).
Proof. destruct f as [|f]; [lia|reflexivity]. Qed.

Lemma parses_element x :
  parses x -> wf_value x = true ->
  forall rest f, (length (element_text x) <= f)%nat ->
  parse_value f (element_text x ++ rest) = Some (stripped_item x, rest).
Proof.
  intros Hp Hwf rest f Hf. unfold element_text in *.
  destruct (stringify x) as [t|] eqn:E.
  - rewrite (Hp t E Hwf rest f Hf).
    destruct x; try reflexivity. discriminate.
  - apply stringify_none in E. subst. now apply parses_null.
Qed.

Lemma parse_elements_ok items :
  Forall parses items -> forallb wf_value items = true -> items <> [] ->
  forall acc f rest,
  (length (join [44%N] (element_texts items)) + 1 <= f)%nat ->
  parse_elements f (join [44] (element_texts items) ++ 93 :: rest) acc
  = Some (VArr (acc ++ stripped_items items), rest).
Proof.
  induction 1 as [|x xs Hx Hxs IH]; intros Hwf Hne acc f rest Hf; [congruence|].
  cbn [forallb] in Hwf. apply andb_true_iff in Hwf as [Hwx Hwxs].
  destruct f as [|f]; [lia|]. rewrite parse_elements_eq.
  cbn [element_texts map stripped_items] in *.
  fold (element_texts xs) in *. fold (stripped_items xs).
  fold (element_text x) in *. fold (stripped_item x).
  destruct xs as [|y ys].
  - cbn [element_texts map join] in *.
    rewrite (parses_element x Hx Hwx) by lia. reflexivity.
  - assert (Hj : join [44] (element_text x :: element_texts (y :: ys))
                 = element_text x ++ 44 :: join [44] (element_texts (y :: ys)))
      by reflexivity.
    rewrite Hj in *. rewrite length_app in Hf. cbn [length] in Hf.
    rewrite <- app_assoc. cbn [app].
    rewrite (parses_element x Hx Hwx) by lia.
    cbn [skip_ws is_json_ws N.eqb Pos.eqb orb].
    rewrite IH by (auto; try discriminate; lia).
    now rewrite <- app_assoc.
Qed.

Lemma member_texts_nil fields :
  member_texts fields = [] -> stripped_fields fields = [].
Proof.
  induction fields as [|[k x] fs IH]; [reflexivity|].
  cbn [member_texts stripped_fields flat_map].
  destruct (stringify x) eqn:E; [discriminate|].
  apply stringify_none in E. subst. exact IH.
Qed.

Lemma stripped_fields_cons k x t fs :
  stringify x = Some t ->
  stripped_fields ((k, x) :: fs) = (k, strip x) :: stripped_fields fs.
Proof. destruct x; try discriminate; reflexivity. Qed.

Lemma parse_members_ok fields :
  Forall (fun kv => parses (snd kv)) fields ->
  forallb (fun kv : jsstring * value => wf_string (fst kv) && wf_value (snd kv)) fields = true ->
  forall acc f rest,
  NoDup (map fst acc ++ map fst fields) ->
  member_texts fields <> [] ->
  (length (join [44%N] (member_texts fields)) + 1 <= f)%nat ->
  parse_members f (join [44] (member_texts fields) ++ 125 :: rest) acc
  = Some (VObj (acc ++ stripped_fields fields), rest).
Proof.
  induction 1 as [|[k x] fs Hx Hfs IH]; intros Hwf acc f rest Hnd Hne Hf;
    [exfalso; apply Hne; reflexivity|].
  cbn [forallb fst snd] in Hwf, Hx.
  apply andb_true_iff in Hwf as [Hw Hwfs]. apply andb_true_iff in Hw as [Hwk Hwx].
  cbn [map fst] in Hnd.
  destruct (stringify x) as [t|] eqn:E.
  2:{ (* an undefined property is not written *)
      pose proof (stringify_none x E) as ->.
      assert (Hm : member_texts ((k, VUndefined) :: fs) = member_texts fs) by reflexivity.
      assert (Hs : stripped_fields ((k, VUndefined) :: fs) = stripped_fields fs) by reflexivity.
      rewrite Hm in *. rewrite Hs.
      apply IH; auto. now apply NoDup_remove_1 in Hnd. }
  assert (Hm : member_texts ((k, x) :: fs)
               = (QuoteJSONString k ++ 58 :: t) :: member_texts fs).
  { unfold member_texts. cbn [flat_map]. now rewrite E. }
  rewrite Hm in *. rewrite (stripped_fields_cons k x t fs E).
  assert (Hfresh : ~ In k (map fst acc)).
  { apply NoDup_remove_2 in Hnd. intros Hin. apply Hnd, in_or_app. now left. }
  destruct f as [|f]; [lia|]. rewrite parse_members_eq.
  destruct (member_texts fs) as [|m ms] eqn:Hms.
  - (* the last member *)
    cbn [join] in *. rewrite length_app in Hf. cbn [length] in Hf.
    rewrite <- app_assoc.
    destruct (parse_quoted k ((58 :: t) ++ 125 :: rest) Hwk) as (body & -> & Hb).
    cbn [skip_ws is_json_ws N.eqb Pos.eqb orb]. rewrite Hb.
    cbn [app skip_ws is_json_ws N.eqb Pos.eqb orb].
    rewrite (Hx t E Hwx) by lia.
    cbn [skip_ws is_json_ws N.eqb Pos.eqb orb].
    rewrite obj_set_fresh by exact Hfresh.
    rewrite (member_texts_nil fs Hms). reflexivity.
  - rewrite join_cons in *. rewrite !length_app in Hf. cbn [length] in Hf.
    rewrite <- !app_assoc.
    destruct (parse_quoted k ((58 :: t) ++ [44] ++ join [44] (m :: ms) ++ 125 :: rest) Hwk)
      as (body & -> & Hb).
    cbn [skip_ws is_json_ws N.eqb Pos.eqb orb]. rewrite Hb.
    cbn [app skip_ws is_json_ws N.eqb Pos.eqb orb].
    rewrite (Hx t E Hwx) by lia.
    cbn [skip_ws is_json_ws N.eqb Pos.eqb orb].
    rewrite obj_set_fresh by exact Hfresh.
    rewrite IH; auto; try discriminate; try lia.
    + now rewrite <- app_assoc.
    + rewrite map_app, <- app_assoc. exact Hnd.
Qed.

Lemma member_texts_head fields m ms :
  member_texts fields = m :: ms -> exists r, join [44] (m :: ms) = 34 :: r.
Proof.
  induction fields as [|[k x] fs IH]; [discriminate|].
  unfold member_texts. cbn [flat_map]. fold (member_texts fs).
  destruct (stringify x) as [t|]; [|exact IH].
  cbn [app]. intros H. injection H as <- <-.
  destruct (member_texts fs); eexists; reflexivity.
Qed.

Lemma element_texts_head x xs :
  exists c r, join [44] (element_texts (x :: xs)) = c :: r
              /\ is_json_ws c = false /\ (c =? 93) = false.
Proof.
  assert (H : exists c r, element_text x = c :: r
                          /\ is_json_ws c = false /\ (c =? 93) = false).
  { unfold element_text. destruct (stringify x) as [t|] eqn:E.
    - exact (stringify_head x t E).
    - eexists; eexists; split; [reflexivity|split; reflexivity]. }
  destruct H as (c & r & Hc & Hw & H93).
  cbn [element_texts map]. fold (element_text x). fold (element_texts xs).
  destruct (element_texts xs); cbn [join]; rewrite Hc; eexists; eexists;
    (split; [reflexivity|split; assumption]).
Qed.

(** The parser reads every well-formed value back from its text. *)
Lemma parse_stringify : forall v, parses v.
Proof.
  induction v as [| |b|s|items IH|fields IH] using value_ind;
    intros t Ht Hwf rest f Hf.
  - discriminate.
  - injection Ht as <-. now apply parses_null.
  - destruct b; injection Ht as <-; (destruct f as [|f]; [cbn in Hf; lia|reflexivity]).
  - change (Some (QuoteJSONString s) = Some t) in Ht.
    injection Ht as <-. cbn [wf_value] in Hwf.
    destruct f as [|f]; [cbn in Hf; lia|]. rewrite parse_value_eq.
    destruct (parse_quoted s rest Hwf) as (body & -> & Hb).
    cbn [skip_ws is_json_ws N.eqb Pos.eqb orb]. now rewrite Hb.
  - change (Some (91 :: join [44] (element_texts items) ++ [93]) = Some t) in Ht.
    injection Ht as <-. cbn [wf_value] in Hwf.
    cbn [length] in Hf. rewrite length_app in Hf. cbn [length] in Hf.
    destruct f as [|f]; [lia|]. rewrite parse_value_eq.
    cbn [app skip_ws is_json_ws N.eqb Pos.eqb orb]. rewrite <- app_assoc. cbn [app].
    change (strip (VArr items)) with (VArr ([] ++ stripped_items items)).
    destruct items as [|x xs]; [reflexivity|].
    rewrite <- (parse_elements_ok (x :: xs) IH Hwf ltac:(discriminate) [] f rest)
      by lia.
    destruct (element_texts_head x xs) as (c & r & -> & Hw & H93).
    cbn [app skip_ws]. now rewrite Hw, H93.
  - change (Some (123 :: join [44] (member_texts fields) ++ [125]) = Some t) in Ht.
    injection Ht as <-. cbn [wf_value] in Hwf.
    apply andb_true_iff in Hwf as [Hnd Hwf].
    apply andb_true_iff in Hnd as [Hnd _]. apply nodupb_NoDup in Hnd.
    cbn [length] in Hf. rewrite length_app in Hf. cbn [length] in Hf.
    destruct f as [|f]; [lia|]. rewrite parse_value_eq.
    cbn [app skip_ws is_json_ws N.eqb Pos.eqb orb]. rewrite <- app_assoc. cbn [app].
    change (strip (VObj fields)) with (VObj ([] ++ stripped_fields fields)).
    destruct (member_texts fields) as [|m ms] eqn:Hm.
    + rewrite (member_texts_nil fields Hm). reflexivity.
    + rewrite <- (parse_members_ok fields IH Hwf [] f rest Hnd)
        by (rewrite Hm; first [discriminate|lia]).
      rewrite Hm. destruct (member_texts_head fields m ms Hm) as (r & ->).
      reflexivity.
Qed.

Lemma skip_ws_nil : skip_ws [] = [].
Proof. reflexivity. Qed.

(** [JSON.parse (JSON.stringify v)] for a well-formed value. *)
Lemma JSON_parse_stringify v t :
  JSON_stringify v = Some t -> wf_value v = true -> JSON_parse t = Some (strip v).
Proof.
  intros Ht Hwf. unfold JSON_parse.
  pose proof (parse_stringify v t Ht Hwf [] (S (length t)) ltac:(lia)) as H.
  rewrite app_nil_r in H. now rewrite H.
Qed.

(* ================================================================= *)
(** ** The text of a value is well-formed UTF-16 *)



Lemma plain_not_surrogate c :
  is_surrogate c = false -> is_low_surrogate c = false /\ is_high_surrogate c = false.
Proof.
  unfold is_surrogate, is_low_surrogate, is_high_surrogate, in_range.
  intros H. unbool. split; unbool; lia.
Qed.

Lemma encodable_nil : encodable [].
Proof. now exists []. Qed.

Lemma encodable_cons c r : plain_unit c -> encodable r -> encodable (c :: r).
Proof.
  intros [Hc Hs] [bs Hr]. destruct (plain_not_surrogate c Hs) as [Hl Hh].
  unfold encodable. cbn [utf8_of_string]. rewrite Hl, Hh, Hr.
  apply N.ltb_lt in Hc. rewrite Hc. eexists. reflexivity.
Qed.

Lemma encodable_pair c d r :
  is_high_surrogate c = true -> is_low_surrogate d = true ->
  encodable r -> encodable (c :: d :: r).
Proof.
  intros Hc Hd [bs Hr]. unfold encodable. cbn [utf8_of_string].
  assert (Hl : is_low_surrogate c = false).
  { unfold is_high_surrogate, is_low_surrogate, in_range in *. unbool. lia. }
  rewrite Hl, Hc, Hd, Hr. eexists. reflexivity.
Qed.

Lemma encodable_app_n n : forall a b,
  (length a <= n)%nat -> encodable a -> encodable b -> encodable (a ++ b).
Proof.
  induction n as [|n IH]; intros [|c r] b Hn Ha Hb; cbn [length] in Hn; try lia;
    try exact Hb.
  destruct Ha as [bs Ha]. cbn [utf8_of_string] in Ha.
  destruct (is_low_surrogate c) eqn:Hlo; [discriminate|].
  destruct (is_high_surrogate c) eqn:Hhi.
  - destruct r as [|d r']; [discriminate|].
    destruct (is_low_surrogate d) eqn:Hd; [|discriminate].
    destruct (utf8_of_string r') as [br|] eqn:Hr; [|discriminate].
    cbn [app length] in *. apply encodable_pair; auto.
    apply IH; [lia|now exists br|exact Hb].
  - destruct (c <? 65536) eqn:Hc; [|discriminate].
    destruct (utf8_of_string r) as [br|] eqn:Hr; [|discriminate].
    cbn [app]. apply encodable_cons.
    + split; [now apply N.ltb_lt|].
      unfold is_surrogate, is_low_surrogate, is_high_surrogate, in_range in *.
      unbool. lia.
    + apply IH; [lia|now exists br|exact Hb].
Qed.

Lemma encodable_app a b : encodable a -> encodable b -> encodable (a ++ b).
Proof. apply (encodable_app_n (length a)). lia. Qed.

Lemma encodable_plain t : Forall plain_unit t -> encodable t.
Proof.
  induction 1; [apply encodable_nil|now apply encodable_cons].
Qed.

Lemma plain_ascii c : c < 128 -> plain_unit c.
Proof.
  intros H. split; [lia|]. unfold is_surrogate, in_range. unbool. lia.
Qed.

Lemma hex_lower_ascii d : d < 16 -> hex_lower d < 128.
Proof. intros H. unfold hex_lower. destruct (d <? 10); lia. Qed.

Lemma encodable_quote_unit c :
  c < 65536 -> encodable (quote_unit c).
Proof.
  intros Hc. apply encodable_plain. unfold quote_unit.
  repeat match goal with
  | |- context [if ?x =? ?y then _ else _] =>
      destruct (N.eqb_spec x y) as [->|?];
      [repeat constructor; apply plain_ascii; lia|]
  end.
  destruct ((c <? 32) || is_surrogate c) eqn:E.
  - unfold json_escape_unit.
    repeat constructor; apply plain_ascii; try lia; apply hex_lower_ascii; nlia.
  - unbool. repeat constructor; tauto.
Qed.

Lemma encodable_quote_body n : forall s,
  (length s <= n)%nat -> wf_string s = true -> encodable (quote_body s).
Proof.
  induction n as [|n IH]; intros [|c r] Hn Hwf; cbn [length] in Hn; try lia;
    try apply encodable_nil.
  cbn [wf_string forallb] in Hwf. apply andb_true_iff in Hwf as [Hc Hr].
  apply N.ltb_lt in Hc. cbn [quote_body].
  assert (Hsingle : encodable (quote_unit c ++ quote_body r)).
  { apply encodable_app; [now apply encodable_quote_unit|apply IH; auto; lia]. }
  destruct (is_high_surrogate c) eqn:Hhi; [|exact Hsingle].
  destruct r as [|d r']; [now apply encodable_quote_unit|].
  destruct (is_low_surrogate d) eqn:Hlo; [|exact Hsingle].
  cbn [wf_string forallb] in Hr. apply andb_true_iff in Hr as [Hd Hr'].
  cbn [length] in Hn. apply encodable_pair; auto. apply IH; auto; lia.
Qed.

Lemma encodable_quoted s : wf_string s = true -> encodable (QuoteJSONString s).
Proof.
  intros Hwf. unfold QuoteJSONString.
  apply (encodable_app [34]); [apply encodable_plain; repeat constructor; apply plain_ascii; lia|].
  apply encodable_app; [now apply (encodable_quote_body (length s))|].
  apply encodable_plain; repeat constructor; apply plain_ascii; lia.
Qed.

Lemma encodable_join ts :
  Forall encodable ts -> encodable (join [44] ts).
Proof.
  induction 1 as [|t ts Ht Hts IH]; [apply encodable_nil|].
  destruct ts as [|t' ts']; [exact Ht|].
  rewrite join_cons. apply encodable_app; [exact Ht|].
  apply encodable_app; [|exact IH].
  apply encodable_plain; repeat constructor; apply plain_ascii; lia.
Qed.

Lemma encodable_bracket o c t :
  o < 128 -> c < 128 -> encodable t -> encodable (o :: t ++ [c]).
Proof.
  intros Ho Hc Ht. apply encodable_cons; [now apply plain_ascii|].
  apply encodable_app; [exact Ht|].
  apply encodable_plain; repeat constructor; now apply plain_ascii.
Qed.

Lemma encodable_literal (s : string) :
  forallb (fun c => c <? 128) (js s) = true -> encodable (js s).
Proof.
  intros H. apply encodable_plain. rewrite forallb_forall in H.
  apply Forall_forall. intros c Hc. apply plain_ascii, N.ltb_lt, H, Hc.
Qed.

Lemma stringify_encodable : forall v t,
  stringify v = Some t -> wf_value v = true -> encodable t.
Proof.
  induction v as [| |b|s|items IH|fields IH] using value_ind; intros t Ht Hwf.
  - discriminate.
  - injection Ht as <-. now apply encodable_literal.
  - destruct b; injection Ht as <-; now apply encodable_literal.
  - change (Some (QuoteJSONString s) = Some t) in Ht. injection Ht as <-.
    now apply encodable_quoted.
  - change (Some (91 :: join [44] (element_texts items) ++ [93]) = Some t) in Ht.
    injection Ht as <-. cbn [wf_value] in Hwf.
    apply encodable_bracket; try lia. apply encodable_join.
    induction IH as [|x xs Hx Hxs IHxs]; [constructor|].
    cbn [forallb] in Hwf. apply andb_true_iff in Hwf as [Hwx Hwxs].
    cbn [element_texts map]. constructor; [|now apply IHxs].
    destruct (stringify x) as [tx|] eqn:E; [now apply Hx|now apply encodable_literal].
  - change (Some (123 :: join [44] (member_texts fields) ++ [125]) = Some t) in Ht.
    injection Ht as <-. cbn [wf_value] in Hwf.
    apply andb_true_iff in Hwf as [_ Hwf].
    apply encodable_bracket; try lia. apply encodable_join.
    induction IH as [|[k x] fs Hx Hfs IHfs]; [constructor|].
    cbn [forallb fst snd] in Hwf, Hx.
    apply andb_true_iff in Hwf as [Hw Hwfs]. apply andb_true_iff in Hw as [Hwk Hwx].
    unfold member_texts. cbn [flat_map]. fold (member_texts fs).
    destruct (stringify x) as [tx|] eqn:E; [|now apply IHfs].
    cbn [app]. constructor; [|now apply IHfs].
    apply encodable_app; [now apply encodable_quoted|].
    apply encodable_cons; [apply plain_ascii; lia|now apply Hx].
Qed.

(* ================================================================= *)
(** ** decodeObj after encodeObj *)

(** Every well-formed value other than [undefined] has a token, and the
    token decodes to the value as JSON keeps it. *)
Lemma decodeObj_encodeObj v :
  wf_value v = true -> v <> VUndefined ->
  exists token, encodeObj v = Some token /\ decodeObj token = Some (strip v).
Proof.
  intros Hwf Hdef.
  destruct (stringify v) as [t|] eqn:Ht; [|now apply stringify_none in Ht].
  destruct (stringify_encodable v t Ht Hwf) as [bs Hbs].
  destruct (encode_then_unescape (length t) t bs (le_n _) Hbs) as (e & He & Hu & Ho).
  destruct (atob_btoa bs Ho) as [Hbtoa Hatob].
  exists (b64_encode bs). split.
  - unfold encodeObj, stringify_text, JSON_stringify. rewrite Ht, He.
    cbn [opt_bind]. now rewrite Hu.
  - unfold decodeObj. rewrite Hatob. cbn [opt_bind].
    unfold decodeURIComponent.
    rewrite (escape_then_decode (length t) t bs _ (le_n _) Hbs (le_n _)).
    cbn [opt_bind]. now apply JSON_parse_stringify.
Qed.

(* ================================================================= *)
(** ** The share object of a card *)


Lemma wf_object_intro (fs : object) :
  keys_ok (map fst fs) = true ->
  forallb (fun kv : jsstring * value => wf_string (fst kv)) fs = true ->
  Forall (fun kv => wf_value (snd kv) = true) fs ->
  wf_value (VObj fs) = true.
Proof.
  intros Hn Hk Hv. cbn [wf_value]. rewrite Hn. cbn [andb]. clear Hn.
  induction Hv as [|[k x] r Hx Hr IH]; [reflexivity|].
  cbn [forallb fst snd] in *. apply andb_true_iff in Hk as [Hk1 Hk2].
  now rewrite Hk1, Hx, IH.
Qed.

Ltac split_wf :=
  repeat match goal with
  | H : (_ && _) = true |- _ => apply andb_true_iff in H; destruct H
  end.

(** Well-formedness of an object literal whose keys are constants and
    whose values are strings of the context, booleans or such objects. *)
Ltac solve_wf :=
  lazymatch goal with
  | |- wf_value (VObj _) = true =>
      apply wf_object_intro;
      [vm_compute; reflexivity | vm_compute; reflexivity
      | repeat (apply Forall_cons; [cbn [snd]; solve_wf|]); apply Forall_nil]
  | |- wf_value (VStr _) = true =>
      first [assumption | vm_compute; reflexivity]
  | |- wf_value (VBool _) = true => reflexivity
  end.

Lemma share_obj_of_card (c : Card) :
  wf_card c = true ->
  exists share,
    buildShareObj (card_value c) false = Some share
    /\ wf_value share = true /\ strip share = share
    /\ get "resume" (get "portfolioLinks" share)
       = two_slots (fst (resume_slots (resume (portfolioLinks c))))
                   (snd (resume_slots (resume (portfolioLinks c))))
    /\ get "profilePic" share = VStr (profilePic c)
    /\ exists fields, share = VObj fields.
Proof.
  intros Hwf.
  destruct c as [fn ln jt em ph pe ccode ln10 li cc_ bg pic [ce ed pr re rs wo] vis lu].
  unfold wf_card, wf_links in Hwf. cbn [firstName lastName jobTitle email phone phoneE164
    countryCode localNumber linkedin cardColor bgColor profilePic portfolioLinks
    lastUpdated cert edu proj ref resume work] in Hwf.
  destruct rs as [p d|u|]; cbn [wf_resume] in Hwf; split_wf;
    change (wf_string ?s = true) with (wf_value (VStr s) = true) in *;
    destruct vis as [[v1 v2 v3 v4 v5 v6]|];
    (eexists; split; [vm_compute; reflexivity|]);
    (split; [solve_wf|split; [reflexivity|split; [reflexivity|split; [reflexivity|]]]]);
    eexists; reflexivity.
Qed.

(** C1.  For every card, the token of its share object decodes to that share
    object: [decodeObj (encodeObj (buildShareObj card))] is
    [buildShareObj card], property for property, and [portfolioLinks.resume]
    of it is the two-slot object [{pdf, docx}] (a legacy string fills [pdf],
    a missing resume gives two empty slots).  No bound on the size of the
    serialized form is needed. *)
Theorem share_round_trip (c : Card) :
  wf_card c = true ->
  exists share token,
    buildShareObj (card_value c) false = Some share
    /\ encodeObj share = Some token
    /\ decodeObj token = Some share
    /\ get "resume" (get "portfolioLinks" share)
       = two_slots (fst (resume_slots (resume (portfolioLinks c))))
                   (snd (resume_slots (resume (portfolioLinks c)))).
Proof.
  intros Hwf.
  destruct (share_obj_of_card c Hwf) as (share & Hb & Hw & Hs & Hr & _ & fs & ->).
  destruct (decodeObj_encodeObj (VObj fs) Hw ltac:(discriminate)) as (token & He & Hd).
  exists (VObj fs), token. rewrite Hs in Hd. auto.
Qed.

Lemma share_round_trip_witness :
  wf_card DEFAULT_CARD = true /\
  exists share token,
    buildShareObj (card_value DEFAULT_CARD) false = Some share
    /\ encodeObj share = Some token
    /\ decodeObj token = Some share
    /\ get "resume" (get "portfolioLinks" share)
       = two_slots (fst (resume_slots (resume (portfolioLinks DEFAULT_CARD))))
                   (snd (resume_slots (resume (portfolioLinks DEFAULT_CARD)))).
Proof.
  split; [reflexivity|].
  apply (share_round_trip DEFAULT_CARD). reflexivity.
Defined.

(* ================================================================= *)
(** ** The token in the address of the page *)

Lemma b64_encode_alphabet bs :
  forallb is_octet bs = true ->
  Forall (fun c => is_b64_char c = true \/ c = 61) (b64_encode bs).
Proof.
  intros Hb. rewrite b64_encode_split. apply Forall_app. split.
  - pose proof (b64_unpadded_sextets bs Hb) as Hs.
    eapply Forall_impl; [|exact Hs]. intros c (i & Hi & ->). left.
    unfold is_b64_char. now rewrite b64_char_index.
  - clear. induction bs as [|a|a b|a b c r IH] using list_ind3;
      cbn [b64_padding]; auto.
Qed.

(** Every token is made of the letters, the digits, [+], [/] and [=]. *)
Lemma token_alphabet obj token :
  encodeObj obj = Some token ->
  Forall (fun c => is_b64_char c = true \/ c = 61) token.
Proof.
  unfold encodeObj, btoa. destruct (encodeURIComponent (stringify_text obj)) as [e|];
    [|discriminate]. cbn [opt_bind].
  destruct (forallb (fun c => c <? 256) (unescape e)) eqn:E; [|discriminate].
  intros H. injection H as <-. now apply b64_encode_alphabet.
Qed.

(** C2, at the card [card_tilde], which a Settings save stores.  Its token
    holds a [+].  The link that
    [buildShareUrlFromUI] builds carries the token as it is; the page that
    opens the link reads the [card] parameter with the [+] turned into a
    space, which is not the token, fails to decode it and shows the
    recipient's own card (here the default one) instead of the shared one. *)
Theorem share_link_plus_is_lost :
  exists share token url,
    saveSettings form_tilde some_time empty_store
    = (Saved card_tilde, store_of_card card_tilde)
    /\ buildShareObj (card_value card_tilde) false = Some share
    /\ encodeObj share = Some token
    /\ mem 43 token = true
    /\ buildShareUrlFromUI (store_of_card card_tilde) page_url = Some url
    /\ location_search url = js "?card=" ++ token
    /\ URLSearchParams_get "card" (location_search url)
       = Some (map (fun c => if c =? 43 then 32 else c) token)
    /\ URLSearchParams_get "card" (location_search url) <> Some token
    /\ decodeObj token = Some share
    /\ (forall applies,
          checkForSharedCard applies (location_search url) empty_store
          = ViewingOwn (card_value DEFAULT_CARD)).
Proof.
  eexists. eexists. eexists.
  split; [vm_compute; reflexivity|].
  split; [vm_compute; reflexivity|].
  split; [vm_compute; reflexivity|].
  split; [vm_compute; reflexivity|].
  split; [vm_compute; reflexivity|].
  split; [vm_compute; reflexivity|].
  split; [vm_compute; reflexivity|].
  split; [vm_compute; discriminate|].
  split; [vm_compute; reflexivity|].
  intros applies. vm_compute. reflexivity.
Qed.

(* ================================================================= *)
(** ** The QR code and its size gate *)

Lemma existsb_str_eqb_In k l : existsb (str_eqb k) l = true <-> In k l.
Proof.
  rewrite existsb_exists. split.
  - intros (x & Hin & Hx). apply str_eqb_eq in Hx. now subst.
  - intros Hin. exists k. split; [exact Hin|apply str_eqb_refl].
Qed.

Lemma nodupb_snoc l k : nodupb l = true -> ~ In k l -> nodupb (l ++ [k]) = true.
Proof.
  induction l as [|a r IH]; cbn [nodupb app]; intros H Hk; [reflexivity|].
  apply andb_true_iff in H as [H1 H2]. apply andb_true_iff. split.
  - apply negb_true_iff. apply negb_true_iff in H1.
    destruct (existsb (str_eqb a) (r ++ [k])) eqn:E; [|reflexivity].
    apply existsb_str_eqb_In in E. apply in_app_or in E as [E|[E|[]]].
    + apply existsb_str_eqb_In in E. congruence.
    + subst. exfalso. apply Hk. now left.
  - apply IH; [exact H2|]. intros Hin. apply Hk. now right.
Qed.

Lemma obj_set_keys k v o :
  map fst (obj_set k v o) = map fst o \/
  (~ In k (map fst o) /\ map fst (obj_set k v o) = map fst o ++ [k]).
Proof.
  induction o as [|[k' v'] r IH]; cbn [obj_set map fst app].
  - right. split; [intros []|reflexivity].
  - destruct (str_eqb k k') eqn:E.
    + apply str_eqb_eq in E. subst. now left.
    + apply str_eqb_neq in E. destruct IH as [IH|[Hn IH]].
      * left. cbn [map fst]. now rewrite IH.
      * right. split; [intros [H|H]; [congruence|now apply Hn]|].
        cbn [map fst]. now rewrite IH.
Qed.

Lemma wf_fields_obj_set k v o :
  wf_string k = true -> wf_value v = true ->
  forallb (fun kv : jsstring * value => wf_string (fst kv) && wf_value (snd kv)) o = true ->
  forallb (fun kv : jsstring * value => wf_string (fst kv) && wf_value (snd kv))
          (obj_set k v o) = true.
Proof.
  intros Hk Hv. induction o as [|[k' v'] r IH]; cbn [obj_set forallb fst snd]; intros H.
  - now rewrite Hk, Hv.
  - apply andb_true_iff in H as [H1 H2]. destruct (str_eqb k k').
    + cbn [forallb fst snd]. now rewrite Hk, Hv, H2.
    + cbn [forallb fst snd]. now rewrite H1, IH.
Qed.

(** Writing a well-formed property keeps an object well-formed. *)
Lemma wf_obj_set k v o :
  digit_key k = false ->
  wf_string k = true -> wf_value v = true -> wf_value (VObj o) = true ->
  wf_value (VObj (obj_set k v o)) = true.
Proof.
  intros Hd Hk Hv Ho. cbn [wf_value] in *. apply andb_true_iff in Ho as [Hn Hf].
  apply andb_true_iff. split; [|now apply wf_fields_obj_set].
  destruct (obj_set_keys k v o) as [->|[Hnew ->]]; [exact Hn|].
  unfold keys_ok in *. apply andb_true_iff in Hn as [Hn Hi].
  apply andb_true_iff. split; [now apply nodupb_snoc|].
  rewrite existsb_app. cbn [existsb]. rewrite Hd.
  apply negb_true_iff in Hi. now rewrite Hi.
Qed.

Lemma qr_share_obj_of_card (c : Card) :
  wf_card c = true ->
  exists fields, qr_share_obj (card_value c) = Some (VObj fields)
                 /\ wf_value (VObj fields) = true.
Proof.
  intros Hwf.
  destruct (share_obj_of_card c Hwf) as (share & Hb & Hw & _ & _ & Hp & fs & ->).
  unfold qr_share_obj. rewrite Hb. cbn [opt_bind]. rewrite Hp.
  assert (Hpic : wf_string (profilePic c) = true).
  { unfold wf_card in Hwf. split_wf. assumption. }
  cbn [own_props].
  destruct (truthy (VStr (profilePic c))).
  - destruct (starts_with (js "data:image") (profilePic c)); cbn [opt_bind];
      eexists; (split; [reflexivity|]); now apply wf_obj_set.
  - cbn [opt_bind]. eexists. split; [reflexivity|]. now apply wf_obj_set.
Qed.

Lemma b64_char_plain_unit c : is_b64_char c = true \/ c = 61 -> plain_unit c.
Proof.
  intros [H| ->]; [|apply plain_ascii; lia].
  unfold is_b64_char, b64_index in H.
  assert (Hin : In c b64_alphabet).
  { destruct (index_of c b64_alphabet) eqn:E; [|discriminate]. clear H.
    revert n E. induction b64_alphabet as [|d r IH]; cbn [index_of]; intros n E;
      [discriminate|].
    destruct (N.eqb_spec c d) as [->|Hne]; [now left|].
    right. destruct (index_of c r); [|discriminate]. eapply IH. reflexivity. }
  assert (Hall : forallb (fun d => d <? 128) b64_alphabet = true)
    by (vm_compute; reflexivity).
  rewrite forallb_forall in Hall. apply plain_ascii, N.ltb_lt, Hall, Hin.
Qed.

Lemma token_encodable obj token : encodeObj obj = Some token -> encodable token.
Proof.
  intros H. apply encodable_plain.
  eapply Forall_impl; [|exact (token_alphabet obj token H)].
  intros c. apply b64_char_plain_unit.
Qed.

Lemma encodable_encodes t : encodable t -> exists e, encodeURIComponent t = Some e.
Proof.
  intros [bs Hbs].
  destruct (encode_then_unescape (length t) t bs (le_n _) Hbs) as (e & He & _).
  now exists e.
Qed.

Lemma share_url_encodable baseUrl token :
  encodable baseUrl -> encodable token -> encodable (share_url baseUrl token).
Proof.
  intros Hb Ht. unfold share_url.
  apply encodable_app; [exact Hb|].
  apply encodable_app; [destruct (mem 63 baseUrl); now apply encodable_literal|].
  apply encodable_app; [now apply encodable_literal|exact Ht].
Qed.

(** C3.  With a card in the store and the QR container on the page,
    [generateQRCode] has a token for the card and does one of two things:
    when the token is at most 4000 units long it requests the QR image (the
    source of the image is the request to the QR service for the share
    link); when the token is longer it requests no image and puts the raw
    share link in the container as text. *)
Theorem qr_size_gate (st : Storage) (c : Card) (baseUrl : jsstring) :
  getMyCard st = card_value c -> wf_card c = true -> encodable baseUrl ->
  exists token,
    qr_encoded_card (card_value c) = Some token /\
    (((length token <= 4000)%nat /\
      exists q, encodeURIComponent (share_url baseUrl token) = Some q /\
                generateQRCode st true baseUrl
                = Some (QRImage (js "https://quickchart.io/qr?text=" ++ q
                                 ++ js "&size=256&dark=000000&light=ffffff")
                                (share_url baseUrl token)))
     \/
     ((4000 < length token)%nat /\
      generateQRCode st true baseUrl = Some (QRLinkText (share_url baseUrl token)))).
Proof.
  intros Hst Hwf Hurl.
  destruct (qr_share_obj_of_card c Hwf) as (fs & Hq & Hw).
  destruct (decodeObj_encodeObj (VObj fs) Hw ltac:(discriminate)) as (token & He & _).
  exists token.
  assert (Htok : qr_encoded_card (card_value c) = Some token).
  { unfold qr_encoded_card. now rewrite Hq. }
  split; [exact Htok|].
  unfold generateQRCode. rewrite Hst.
  change (truthy (card_value c)) with true. cbn [negb orb].
  rewrite Htok. cbn [opt_bind].
  destruct (Nat.ltb_spec 4000 (length token)) as [Hlong|Hshort].
  - right. split; [exact Hlong|reflexivity].
  - left. split; [exact Hshort|].
    destruct (encodable_encodes (share_url baseUrl token)) as (q & Hqe).
    { apply share_url_encodable; [exact Hurl|exact (token_encodable _ _ He)]. }
    exists q. split; [exact Hqe|]. now rewrite Hqe.
Qed.

Lemma qr_size_gate_witness :
  exists token,
    qr_encoded_card (card_value DEFAULT_CARD) = Some token /\
    (((length token <= 4000)%nat /\
      exists q, encodeURIComponent (share_url page_url token) = Some q /\
                generateQRCode (store_of_card DEFAULT_CARD) true page_url
                = Some (QRImage (js "https://quickchart.io/qr?text=" ++ q
                                 ++ js "&size=256&dark=000000&light=ffffff")
                                (share_url page_url token)))
     \/
     ((4000 < length token)%nat /\
      generateQRCode (store_of_card DEFAULT_CARD) true page_url
      = Some (QRLinkText (share_url page_url token)))).
Proof.
  apply (qr_size_gate (store_of_card DEFAULT_CARD) DEFAULT_CARD page_url).
  - vm_compute. reflexivity.
  - reflexivity.
  - eexists. vm_compute. reflexivity.
Defined.

(* ================================================================= *)
(** ** Names *)

(** C4, evaluated.  [formatName("john", false)] is "John", but
    [formatName("o'brien-smith", true)] is "O'brien-Smith", not
    "O'Brien-Smith": a word with a hyphen is split at the hyphens only and
    [capitalize] returns before it looks at the apostrophe.  A save with the
    two inputs stores "John" and "O'brien-Smith". *)
Theorem formatName_hyphen_hides_apostrophe :
  formatName (js "john") false = Some (js "John")
  /\ formatName (js "o'brien-smith") true = Some (js "O'brien-Smith")
  /\ formatName (js "o'brien-smith") true <> Some (js "O'Brien-Smith")
  /\ formatName (js "o'brien") true = Some (js "O'Brien")
  /\ exists card st',
       saveSettings form_john some_time empty_store = (Saved card, st')
       /\ firstName card = js "John" /\ lastName card = js "O'brien-Smith".
Proof.
  split; [vm_compute; reflexivity|].
  split; [vm_compute; reflexivity|].
  split; [vm_compute; discriminate|].
  split; [vm_compute; reflexivity|].
  eexists. eexists. split; [vm_compute; reflexivity|]. split; vm_compute; reflexivity.
Qed.

(* ================================================================= *)
(** ** Colours *)

Lemma drop_while_no_lead s : no_lead (drop_while is_js_space s).
Proof.
  induction s as [|c r IH]; cbn [drop_while]; [exact I|].
  destruct (is_js_space c) eqn:E; [exact IH|exact E].
Qed.

Lemma drop_while_id s : no_lead s -> drop_while is_js_space s = s.
Proof. destruct s as [|c r]; cbn [no_lead drop_while]; [reflexivity|]. now intros ->. Qed.

Lemma drop_while_suffix s : exists pre, s = pre ++ drop_while is_js_space s.
Proof.
  induction s as [|c r [pre IH]]; [now exists []|]. cbn [drop_while].
  destruct (is_js_space c); [|now exists []].
  exists (c :: pre). cbn [app]. now rewrite <- IH.
Qed.

Lemma no_lead_rev_tail a :
  no_lead a -> no_lead (rev (drop_while is_js_space (rev a))).
Proof.
  intros Ha. destruct (drop_while_suffix (rev a)) as [pre Hp].
  assert (Hrev : a = rev (drop_while is_js_space (rev a)) ++ rev pre).
  { rewrite <- rev_app_distr, <- Hp. symmetry. apply rev_involutive. }
  destruct (rev (drop_while is_js_space (rev a))) as [|c r]; [exact I|].
  rewrite Hrev in Ha. exact Ha.
Qed.

Lemma trim_no_lead s : no_lead (trim s) /\ no_lead (rev (trim s)).
Proof.
  unfold trim. split.
  - apply no_lead_rev_tail, drop_while_no_lead.
  - rewrite rev_involutive. apply drop_while_no_lead.
Qed.

Lemma trim_fixed s : no_lead s -> no_lead (rev s) -> trim s = s.
Proof.
  intros H1 H2. unfold trim. rewrite (drop_while_id s H1), (drop_while_id _ H2).
  apply rev_involutive.
Qed.

Lemma trim_idempotent s : trim (trim s) = trim s.
Proof. destruct (trim_no_lead s). now apply trim_fixed. Qed.

Lemma lower_of_hex c : is_hex_digit c = true -> is_lower_hex (to_lower_unit c) = true.
Proof.
  unfold is_hex_digit, is_lower_hex, to_lower_unit, is_upper, is_digit, in_range.
  intros H. destruct ((65 <=? c) && (c <=? 90)) eqn:E; unbool; lia.
Qed.

Lemma hex_color_lower s : hex_color_re s = true -> lower_hex36 (toLowerCase s) = true.
Proof.
  destruct s as [|c r]; [discriminate|]. cbn [hex_color_re].
  destruct (N.eqb_spec c 35) as [->|Hc].
  2:{ destruct c as [|p]; [discriminate|].
      do 6 (destruct p as [p|p|]; try discriminate). congruence. }
  intros H. apply andb_true_iff in H as [Hl Hd].
  cbn [toLowerCase map lower_hex36]. change (to_lower_unit 35) with 35.
  rewrite length_map, Hl. cbn [andb].
  rewrite forallb_forall in *. intros x Hx.
  apply in_map_iff in Hx as (y & <- & Hy). now apply lower_of_hex, Hd.
Qed.

Lemma lower_hex_not_space c : is_lower_hex c = true -> is_js_space c = false.
Proof.
  unfold is_lower_hex, is_js_space, is_digit, in_range. intros H.
  unbool. repeat split; lia.
Qed.

Lemma lower_hex6_picker p :
  lower_hex6 p = true ->
  isHexColor p = true /\ toLowerCase p = p /\ lower_hex36 p = true.
Proof.
  destruct p as [|c r]; [discriminate|]. cbn [lower_hex6].
  destruct (N.eqb_spec c 35) as [->|Hc].
  2:{ destruct c as [|q]; [discriminate|].
      do 6 (destruct q as [q|q|]; try discriminate). congruence. }
  intros H. apply andb_true_iff in H as [Hl Hd].
  assert (Htrim : trim (35 :: r) = 35 :: r).
  { apply trim_fixed; [reflexivity|].
    destruct r as [|d1 [|d2 [|d3 [|d4 [|d5 [|d6 [|d7 r]]]]]]]; try discriminate.
    cbn [rev app no_lead]. cbn [forallb] in Hd. split_wf.
    now apply lower_hex_not_space. }
  assert (Hhex : forallb is_hex_digit r = true).
  { rewrite forallb_forall in *. intros x Hx. specialize (Hd x Hx).
    unfold is_lower_hex, is_hex_digit in *. unbool. tauto. }
  split; [|split].
  - unfold isHexColor. rewrite Htrim. cbn [hex_color_re]. rewrite Hl, Hhex.
    now rewrite orb_true_r.
  - cbn [toLowerCase map]. change (to_lower_unit 35) with 35. f_equal.
    clear Hl Htrim Hhex. induction r as [|d r IH]; [reflexivity|].
    cbn [forallb map] in *. apply andb_true_iff in Hd as [Hd1 Hd2].
    rewrite IH by exact Hd2. f_equal.
    unfold to_lower_unit, is_upper, is_lower_hex, is_digit, in_range in *.
    destruct ((65 <=? d) && (d <=? 90)) eqn:E; [|reflexivity]. unbool. lia.
  - cbn [lower_hex36]. rewrite Hl, Hd. now rewrite orb_true_r.
Qed.

(** What [pickColor] returns when the picker holds the value of a colour
    input. *)
Lemma pickColor_shape t p fb :
  lower_hex6 p = true -> lower_hex36 (pickColor t p fb) = true.
Proof.
  intros Hp. unfold pickColor.
  destruct (isHexColor (trim t)) eqn:E.
  - unfold isHexColor in E. rewrite trim_idempotent in E. now apply hex_color_lower.
  - destruct (lower_hex6_picker p Hp) as (-> & -> & H). exact H.
Qed.

Lemma saveSettings_saved form now st card st' :
  saveSettings form now st = (Saved card, st') ->
  cardColor card = pickColor (cardColorInput form) (cardColorPicker form) (js "#6366f1")
  /\ bgColor card = pickColor (bgColorInput form) (bgColorPicker form) (js "#6B46C1")
  /\ formatName (firstNameInput form) false = Some (firstName card)
  /\ formatName (lastNameInput form) true = Some (lastName card)
  /\ saveMyCard (card_value card) st = (true, st').
Proof.
  unfold saveSettings.
  destruct (formatName (firstNameInput form) false) as [fn|]; [|discriminate].
  destruct (formatName (lastNameInput form) true) as [ln|]; [|discriminate].
  repeat match goal with
  | |- context [if ?b then (_, _) else _] => destruct b; [discriminate|]
  end.
  match goal with
  | |- context [saveMyCard ?v st] => destruct (saveMyCard v st) as [ok st2] eqn:Es
  end.
  destruct ok; [|discriminate]. intros H. injection H as <- <-.
  cbn [cardColor bgColor firstName lastName]. auto.
Qed.

(** C5, at the form [form_john]: the text input of the card colour holds
    "#ABC" (and its picker "#000000"); the save succeeds and stores the
    card colour "#abc", which is not [#] and six hexadecimal digits. *)
Lemma saved_color_may_have_three_digits :
  exists card st',
    saveSettings form_john some_time empty_store = (Saved card, st')
    /\ cardColor card = js "#abc"
    /\ lower_hex6 (cardColor card) = false.
Proof.
  eexists. eexists. split; [vm_compute; reflexivity|].
  split; vm_compute; reflexivity.
Qed.

(** C5, amended.  After every successful Settings save in which the two
    colour pickers hold the value of a colour input ([#] and six lowercase
    hexadecimal digits), whatever the text inputs hold, the stored
    [cardColor] and [bgColor] each match [#[0-9a-f]{3}] or [#[0-9a-f]{6}]. *)
Theorem saved_colors_lower_hex form now st card st' :
  saveSettings form now st = (Saved card, st') ->
  lower_hex6 (cardColorPicker form) = true ->
  lower_hex6 (bgColorPicker form) = true ->
  lower_hex36 (cardColor card) = true /\ lower_hex36 (bgColor card) = true.
Proof.
  intros Hs Hc Hb. destruct (saveSettings_saved _ _ _ _ _ Hs) as (-> & -> & _).
  split; now apply pickColor_shape.
Qed.

Lemma saved_colors_lower_hex_witness :
  exists card st',
    saveSettings form_john some_time empty_store = (Saved card, st')
    /\ lower_hex36 (cardColor card) = true /\ lower_hex36 (bgColor card) = true.
Proof.
  eexists. eexists. split; [vm_compute; reflexivity|].
  eapply (saved_colors_lower_hex form_john some_time empty_store).
  - vm_compute. reflexivity.
  - reflexivity.
  - reflexivity.
Defined.

(* ================================================================= *)
(** ** Phone numbers *)

Lemma digits_exactly_app ds r :
  forallb is_digit ds = true ->
  digits_exactly (length ds) (ds ++ r) = Some (ds, r).
Proof.
  induction ds as [|d ds IH]; cbn [forallb length digits_exactly app]; intros H;
    [reflexivity|].
  apply andb_true_iff in H as [Hd Hr]. now rewrite Hd, IH.
Qed.

Lemma digits_upto_run n ds c r :
  (length ds <= n)%nat -> forallb is_digit ds = true -> is_digit c = false ->
  digits_upto n (ds ++ c :: r) = (ds, c :: r).
Proof.
  revert ds. induction n as [|n IH]; intros [|d ds] Hn Hd Hc;
    cbn [length] in Hn; try lia; cbn [digits_upto app].
  - reflexivity.
  - now rewrite Hc.
  - cbn [forallb] in Hd. apply andb_true_iff in Hd as [Hd1 Hd2].
    rewrite Hd1, IH by (auto; lia). reflexivity.
Qed.

Lemma digit_not_space d : is_digit d = true -> is_js_space d = false.
Proof.
  unfold is_digit, is_js_space, in_range. intros H. unbool. repeat split; lia.
Qed.

(** C9.  For a country code of one to three digits and a local number of
    exactly ten digits, [parsePrettyPhone10] applied to the pretty form of
    [formatPhone] succeeds and returns the same country code and the same
    local number. *)
Theorem pretty_phone_round_trip (code num : jsstring) :
  (1 <= length code <= 3)%nat -> forallb is_digit code = true ->
  length num = 10%nat -> forallb is_digit num = true ->
  exists p, parsePrettyPhone10 (fst (formatPhone code num)) = Some p
            /\ cc p = code /\ local p = num.
Proof.
  intros Hlen Hcode Hn Hnum.
  destruct num as [|d1 [|d2 [|d3 [|d4 [|d5 [|d6 [|d7 [|d8 [|d9 [|d10 [|d11 r]]]]]]]]]]];
    try discriminate.
  cbn [forallb] in Hnum. split_wf.
  unfold formatPhone, slice, slice_from.
  cbn [fst skipn firstn Nat.sub js list_ascii_of_string map N_of_ascii N_of_digits
       N.add N.mul Pos.add Pos.mul Pos.succ].
  unfold parsePrettyPhone10.
  cbn [app opt_unit N.eqb Pos.eqb].
  rewrite (digits_upto_run 3 code 32) by (auto; lia).
  replace (length code =? 0)%nat with false by (symmetry; apply Nat.eqb_neq; lia).
  cbn [app].
  change (drop_while is_js_space (32 :: 40 :: ?x)) with (40 :: x).
  cbn [expect_unit N.eqb Pos.eqb opt_bind].
  assert (Hall : forall ds, Forall (fun d => is_digit d = true) ds ->
                           forallb is_digit ds = true).
  { intros ds Hds. apply forallb_forall. now apply Forall_forall. }
  pose proof (digits_exactly_app [d1; d2; d3] [41; 32; d4; d5; d6; 45; d7; d8; d9; d10]
                (Hall [d1; d2; d3] ltac:(repeat constructor; assumption))) as E1.
  pose proof (digits_exactly_app [d4; d5; d6] [45; d7; d8; d9; d10]
                (Hall [d4; d5; d6] ltac:(repeat constructor; assumption))) as E2.
  pose proof (digits_exactly_app [d7; d8; d9; d10] []
                (Hall [d7; d8; d9; d10] ltac:(repeat constructor; assumption))) as E3.
  cbn [length app] in E1, E2, E3.
  rewrite E1. cbn [opt_bind expect_unit N.eqb Pos.eqb].
  change (drop_while is_js_space (32 :: d4 :: ?x))
    with (drop_while is_js_space (d4 :: x)).
  rewrite drop_while_id by (cbn [no_lead]; now apply digit_not_space).
  rewrite E2. cbn [opt_bind expect_unit N.eqb Pos.eqb].
  rewrite E3.
  cbn [opt_bind]. eexists. split; [reflexivity|]. split; reflexivity.
Qed.

Lemma pretty_phone_round_trip_witness :
  exists p, parsePrettyPhone10 (fst (formatPhone (js "353") (js "5551234567"))) = Some p
            /\ cc p = js "353" /\ local p = js "5551234567".
Proof.
  apply (pretty_phone_round_trip (js "353") (js "5551234567")).
  - cbn. lia.
  - reflexivity.
  - reflexivity.
  - reflexivity.
Defined.

(* ================================================================= *)
(** ** The crop state *)

(** The zoom listener computes the same expression for every arithmetic,
    floating point included. *)
Lemma zoom_oninput_formula (T : Type) (A : Arith T) (s : CropState T)
      (value clientWidth clientHeight : T) :
  let newScale := div value (of_Z 100) in
  let centerX := div clientWidth (of_Z 2) in
  let centerY := div clientHeight (of_Z 2) in
  zoom_oninput value clientWidth clientHeight s
  = mkCrop (originalImage s) newScale
      (mkPoint
         (sub centerX (mul (sub centerX (px (position s))) (div newScale (scale s))))
         (sub centerY (mul (sub centerY (py (position s))) (div newScale (scale s)))))
      (isDragging s) (dragStart s).
Proof. reflexivity. Qed.






(** C7, at a drag in progress.  After a mouse-down at (100, 100) on the
    reset state the anchor is (100, 100); a touch-start at (50, 60) while
    that drag is in progress moves the anchor to (50, 60), and the next
    mouse-move at the very same (100, 100) shifts the image to (50, 40). *)
Lemma beginDrag_moves_anchor_while_dragging :
  let s := onmousedown (at_point 100 100) crop_reset in
  let s' := ontouchstart (at_point 50 60) s in
  isDragging s = true
  /\ px (dragStart s) == 100 /\ py (dragStart s) == 100
  /\ px (dragStart s') == 50 /\ py (dragStart s') == 60
  /\ ~ px (dragStart s') == px (dragStart s)
  /\ px (position (onmousemove (at_point 100 100) s)) == 0
  /\ px (position (onmousemove (at_point 100 100) s')) == 50
  /\ py (position (onmousemove (at_point 100 100) s')) == 40.
Proof.
  cbv zeta. repeat split; try reflexivity. vm_compute. discriminate.
Qed.

(** C7, amended.  A mouse-down or a touch-start on the crop container
    always sets the dragging flag and records the anchor as the pointer
    minus the current offset, also when a drag is already in progress; the
    position, the scale and the image of the crop state stay as they
    were. *)
Theorem beginDrag_records_anchor (T : Type) (A : Arith T) (s : CropState T)
        (pointer : Point T) :
  let anchor := mkPoint (sub (px pointer) (px (position s)))
                        (sub (py pointer) (py (position s))) in
  onmousedown pointer s
  = mkCrop (originalImage s) (scale s) (position s) true anchor
  /\ ontouchstart pointer s
     = mkCrop (originalImage s) (scale s) (position s) true anchor
  /\ position (onmousedown pointer s) = position s
  /\ scale (onmousedown pointer s) = scale s
  /\ position (ontouchstart pointer s) = position s
  /\ scale (ontouchstart pointer s) = scale s.
Proof. cbv zeta. repeat split. Qed.

(* ================================================================= *)
(** ** The saved contacts *)

Lemma strict_eq_refl v : primitive v = true -> strict_eq v v = true.
Proof.
  destruct v as [| |b|s| |]; cbn; try discriminate; auto.
  - intros _. now destruct b.
  - intros _. apply str_eqb_refl.
Qed.

Lemma prop_of_object k v : is_obj v = true -> prop k v = Some (get k v).
Proof. destruct v; try discriminate; reflexivity. Qed.

Lemma same_triple_total c contact :
  is_obj c = true -> is_obj contact = true ->
  exists b, same_triple c contact = Some b.
Proof.
  intros Hc Hk. unfold same_triple. rewrite !(prop_of_object _ c Hc).
  rewrite !(prop_of_object _ contact Hk). cbn [opt_bind].
  destruct (strict_eq _ _); [|now eexists].
  destruct (strict_eq _ _); now eexists.
Qed.

Lemma same_triple_match c contact :
  is_obj c = true -> is_obj contact = true ->
  triple_of c = triple_of contact -> primitive_triple c = true ->
  same_triple c contact = Some true.
Proof.
  intros Hc Hk Ht Hp. unfold same_triple. rewrite !(prop_of_object _ c Hc).
  rewrite !(prop_of_object _ contact Hk). cbn [opt_bind].
  unfold triple_of in Ht. injection Ht as <- <- <-.
  unfold primitive_triple in Hp. split_wf.
  now rewrite !strict_eq_refl.
Qed.

Lemma some_entry_found contacts contact c :
  forallb is_obj contacts = true -> is_obj contact = true ->
  In c contacts -> same_triple c contact = Some true ->
  some_entry (fun x => same_triple x contact) contacts = Some true.
Proof.
  intros Hall Hk Hin Hc.
  induction contacts as [|x r IH]; [destruct Hin|].
  cbn [forallb] in Hall. apply andb_true_iff in Hall as [Hx Hr].
  cbn [some_entry].
  destruct (same_triple_total x contact Hx Hk) as [b Hb]. rewrite Hb.
  cbn [opt_bind]. destruct b; [reflexivity|].
  destruct Hin as [->|Hin]; [congruence|]. now apply IH.
Qed.

(** A contact whose triple is in the list is refused and nothing is
    written. *)
Lemma addContact_refuses_known (st : Storage) (contacts : list value)
      (contact c : value) (now : jsstring) :
  getSavedContacts st = VArr contacts ->
  forallb is_obj contacts = true -> is_obj contact = true ->
  In c contacts ->
  triple_of c = triple_of contact -> primitive_triple c = true ->
  addContact contact now st = Some (false, st, contact).
Proof.
  intros Hst Hall Hk Hin Ht Hp. unfold addContact. rewrite Hst.
  assert (Hc : is_obj c = true).
  { rewrite forallb_forall in Hall. now apply Hall. }
  rewrite (some_entry_found contacts contact c Hall Hk Hin
             (same_triple_match c contact Hc Hk Ht Hp)).
  reflexivity.
Qed.

(** C8.  When the stored list holds an entry whose (firstName, lastName,
    email) triple equals that of the contact, [addContact] returns false
    and the store afterwards is the store before: the stored list has the
    same entries and the same length, and the contact is not stamped. *)
Theorem addContact_duplicate (st : Storage) (contacts : list value)
        (contact c : value) (now : jsstring) :
  getSavedContacts st = VArr contacts ->
  forallb is_obj contacts = true -> is_obj contact = true ->
  In c contacts ->
  triple_of c = triple_of contact -> primitive_triple c = true ->
  exists st',
    addContact contact now st = Some (false, st', contact)
    /\ st' = st /\ getSavedContacts st' = VArr contacts.
Proof.
  intros Hst Hall Hk Hin Ht Hp. exists st.
  rewrite (addContact_refuses_known st contacts contact c now); auto.
Qed.

Lemma addContact_duplicate_witness :
  exists st',
    addContact shared_ann some_time store_two_contacts
    = Some (false, st', shared_ann)
    /\ st' = store_two_contacts
    /\ getSavedContacts st' = VArr [contact_ann; contact_bob].
Proof.
  apply (addContact_duplicate store_two_contacts [contact_ann; contact_bob]
           shared_ann contact_ann some_time).
  - vm_compute. reflexivity.
  - reflexivity.
  - reflexivity.
  - left. reflexivity.
  - reflexivity.
  - reflexivity.
Defined.

(** *** The store as the application writes it *)

Lemma strip_json : forall v, is_json v = true -> strip v = v.
Proof.
  induction v as [| |b|s|items IH|fields IH] using value_ind; intros H;
    try reflexivity; try discriminate.
  - cbn [is_json] in H. cbn [strip]. f_equal.
    induction IH as [|x xs Hx Hxs IHxs]; [reflexivity|].
    cbn [forallb] in H. apply andb_true_iff in H as [H1 H2].
    cbn [map]. rewrite IHxs by exact H2. f_equal.
    destruct x; try discriminate; now apply Hx.
  - cbn [is_json] in H. cbn [strip]. f_equal.
    induction IH as [|[k x] fs Hx Hfs IHfs]; [reflexivity|].
    cbn [forallb snd] in H, Hx. apply andb_true_iff in H as [H1 H2].
    cbn [flat_map]. rewrite IHfs by exact H2.
    destruct x; try discriminate; cbn [app]; rewrite Hx by exact H1; reflexivity.
Qed.

Lemma getItem_put_item k t l : getItem k (put_item k t l) = Some t.
Proof.
  induction l as [|[k' t'] r IH]; cbn [put_item getItem].
  - now rewrite str_eqb_refl.
  - destruct (str_eqb k k') eqn:E; cbn [getItem]; [now rewrite str_eqb_refl|].
    now rewrite E.
Qed.

Lemma usage_put_item_present k t t' l :
  getItem k l = Some t ->
  (usage (put_item k t' l) + length t = usage l + length t')%nat.
Proof.
  induction l as [|[k' t0] r IH]; cbn [getItem put_item usage]; [discriminate|].
  destruct (str_eqb k k') eqn:E.
  - intros H. injection H as ->. apply str_eqb_eq in E. subst. cbn [usage]. lia.
  - intros H. specialize (IH H). cbn [usage]. lia.
Qed.

Lemma usage_put_item_absent k t' l :
  getItem k l = None ->
  usage (put_item k t' l) = (usage l + length k + length t')%nat.
Proof.
  induction l as [|[k' t0] r IH]; cbn [getItem put_item usage]; [lia|].
  destruct (str_eqb k k') eqn:E; [discriminate|].
  intros H. specialize (IH H). cbn [usage]. lia.
Qed.

Lemma stringify_text_array l :
  stringify_text (VArr l) = 91 :: join [44] (element_texts l) ++ [93].
Proof. reflexivity. Qed.

(** Reading the stored list back. *)
Lemma stored_list_read st l :
  stored_list st l -> getSavedContacts st = VArr l.
Proof.
  intros (Hwf & Hj & _ & [Hi|[Hi ->]]); unfold getSavedContacts; rewrite Hi;
    [|reflexivity].
  rewrite stringify_text_array.
  change (str_eqb (91 :: ?x) []) with false. cbv iota.
  rewrite <- stringify_text_array.
  rewrite (JSON_parse_stringify (VArr l) (stringify_text (VArr l)) eq_refl Hwf).
  now rewrite (strip_json (VArr l) Hj).
Qed.

Lemma remove_at_spec (A : Type) (l : list A) : forall i,
  (i < length l)%nat ->
  remove_at i l = firstn i l ++ skipn (S i) l
  /\ S (length (remove_at i l)) = length l.
Proof.
  induction l as [|x r IH]; intros i Hi; cbn [length] in Hi; [lia|].
  destruct i as [|j]; cbn [remove_at firstn skipn app length].
  - split; reflexivity.
  - destruct (IH j ltac:(lia)) as [-> Hlen]. cbn [skipn] in *.
    split; [reflexivity|]. rewrite <- Hlen. reflexivity.
Qed.

Lemma forallb_remove_at (A : Type) (p : A -> bool) (l : list A) : forall i,
  forallb p l = true -> forallb p (remove_at i l) = true.
Proof.
  induction l as [|x r IH]; intros i H; [destruct i; reflexivity|].
  cbn [forallb] in H. apply andb_true_iff in H as [Hx Hr].
  destruct i as [|j]; cbn [remove_at forallb]; [exact Hr|].
  now rewrite Hx, IH.
Qed.

Lemma map_remove_at (A B : Type) (f : A -> B) (l : list A) : forall i,
  map f (remove_at i l) = remove_at i (map f l).
Proof.
  induction l as [|x r IH]; intros [|j]; cbn [remove_at map]; try reflexivity.
  now rewrite IH.
Qed.

(** Taking a part out of a joined text does not make it longer. *)
Lemma join_remove_length (sep : jsstring) (ws : list jsstring) : forall i,
  (length (join sep (remove_at i ws)) <= length (join sep ws))%nat.
Proof.
  induction ws as [|w ws IH]; intros i; [destruct i; cbn; lia|].
  destruct i as [|j]; cbn [remove_at].
  - destruct ws as [|w' r]; [cbn; lia|].
    rewrite (join_cons sep w w' r), !length_app. lia.
  - destruct ws as [|w' r]; [cbn [remove_at join]; lia|].
    specialize (IH j).
    rewrite (join_cons sep w w' r), !length_app.
    destruct (remove_at j (w' :: r)) as [|x xs].
    + cbn [join]. lia.
    + rewrite (join_cons sep w x xs), !length_app. lia.
Qed.

Lemma array_text_remove_length (l : list value) (i : nat) :
  (length (stringify_text (VArr (remove_at i l)))
   <= length (stringify_text (VArr l)))%nat.
Proof.
  rewrite !stringify_text_array. cbn [length]. rewrite !length_app.
  unfold element_texts. rewrite map_remove_at.
  pose proof (join_remove_length [44] (element_texts l) i) as H.
  unfold element_texts in H. cbn [length]. lia.
Qed.

(** C10.  For the stored contact list, [removeContact(index)] with an
    index below zero or not below the length of the list returns false and
    leaves the store as it is; with a valid index it returns true and the
    stored list is the old one without the element at that index: one
    shorter, the other elements in their order. *)
Theorem removeContact_by_index (st : Storage) (contacts : list value) (index : Z) :
  stored_list st contacts ->
  ((index < 0 \/ Z.of_nat (length contacts) <= index)%Z ->
   removeContact index st = Some (false, st))
  /\
  ((0 <= index < Z.of_nat (length contacts))%Z ->
   exists st',
     removeContact index st = Some (true, st')
     /\ getSavedContacts st' = VArr (remove_at (Z.to_nat index) contacts)
     /\ remove_at (Z.to_nat index) contacts
        = firstn (Z.to_nat index) contacts ++ skipn (S (Z.to_nat index)) contacts
     /\ S (length (remove_at (Z.to_nat index) contacts)) = length contacts
     /\ stored_list st' (remove_at (Z.to_nat index) contacts)).
Proof.
  intros Hst. pose proof (stored_list_read st contacts Hst) as Hread.
  unfold removeContact. rewrite Hread. split.
  - intros Hout.
    replace ((index <? 0) || (index >=? Z.of_nat (length contacts)))%Z with true;
      [reflexivity|].
    symmetry. apply orb_true_iff.
    destruct Hout; [left; now apply Z.ltb_lt|right; apply Z.geb_le; lia].
  - intros Hin.
    replace ((index <? 0) || (index >=? Z.of_nat (length contacts)))%Z with false.
    2:{ symmetry. apply orb_false_iff. split; [apply Z.ltb_ge; lia|].
        rewrite Z.geb_leb. apply Z.leb_gt. lia. }
    remember (Z.to_nat index) as i eqn:Ei.
    assert (Hi : (i < length contacts)%nat) by lia.
    destruct Hst as (Hwf & Hj & Hq & Hitem).
    destruct Hitem as [Hitem|[_ ->]]; [|cbn [length] in Hi; lia].
    assert (Hfit : N.of_nat (usage (put_item (js "savedContacts")
                     (stringify_text (VArr (remove_at i contacts))) (items st)))
                   <= quota st).
    { pose proof (usage_put_item_present _ _
                    (stringify_text (VArr (remove_at i contacts))) _ Hitem) as Hu.
      pose proof (array_text_remove_length contacts i). lia. }
    assert (Hst' : stored_list
                     (mkStorage (put_item (js "savedContacts")
                                   (stringify_text (VArr (remove_at i contacts)))
                                   (items st)) (quota st))
                     (remove_at i contacts)).
    { unfold stored_list. cbn [items quota].
      split; [now apply forallb_remove_at|].
      split; [now apply forallb_remove_at|].
      split; [exact Hfit|]. left. apply getItem_put_item. }
    eexists. split.
    + unfold saveSavedContacts, setItem. apply N.leb_le in Hfit. rewrite Hfit.
      reflexivity.
    + split; [now apply stored_list_read|].
      destruct (remove_at_spec _ contacts i Hi) as [H1 H2]. auto.
Qed.

Lemma stored_two_contacts : stored_list store_two_contacts [contact_ann; contact_bob].
Proof.
  unfold stored_list. split; [reflexivity|]. split; [reflexivity|].
  split; [apply N.leb_le; vm_compute; reflexivity|]. left. reflexivity.
Defined.

Lemma removeContact_by_index_witness :
  removeContact 2 store_two_contacts = Some (false, store_two_contacts)
  /\ exists st',
       removeContact 0 store_two_contacts = Some (true, st')
       /\ getSavedContacts st' = VArr [contact_bob].
Proof.
  split.
  - apply (removeContact_by_index store_two_contacts [contact_ann; contact_bob] 2
             stored_two_contacts).
    right. cbn. lia.
  - destruct (removeContact_by_index store_two_contacts [contact_ann; contact_bob] 0
                stored_two_contacts) as [_ H].
    destruct (H ltac:(cbn; lia)) as (st' & H1 & H2 & _).
    exists st'. split; [exact H1|exact H2].
Defined.

(** *** Adding the same contact twice *)

Lemma lookup_obj_set_other k k' v o :
  k <> k' -> lookup k (obj_set k' v o) = lookup k o.
Proof.
  intros Hne. induction o as [|[k0 v0] r IH]; cbn [obj_set lookup].
  - apply str_eqb_neq in Hne. now rewrite Hne.
  - destruct (str_eqb k' k0) eqn:E; cbn [lookup].
    + apply str_eqb_eq in E. subst k0.
      apply str_eqb_neq in Hne. now rewrite Hne.
    + destruct (str_eqb k k0); [reflexivity|exact IH].
Qed.

Lemma is_json_obj_set k v o :
  is_json v = true -> is_json (VObj o) = true -> is_json (VObj (obj_set k v o)) = true.
Proof.
  intros Hv. cbn [is_json].
  induction o as [|[k0 v0] r IH]; cbn [obj_set forallb snd]; intros H.
  - now rewrite Hv.
  - apply andb_true_iff in H as [H1 H2].
    destruct (str_eqb k k0); cbn [forallb snd]; [now rewrite Hv, H2|].
    now rewrite H1, IH.
Qed.

Lemma stamped_triple now o :
  triple_of (VObj (obj_set (js "savedAt") (VStr now) o)) = triple_of (VObj o)
  /\ primitive_triple (VObj (obj_set (js "savedAt") (VStr now) o))
     = primitive_triple (VObj o).
Proof.
  unfold triple_of, primitive_triple, get.
  rewrite !lookup_obj_set_other by (vm_compute; discriminate). split; reflexivity.
Qed.

(** A contact that [addContact] accepts goes last in the stored list, with
    its time stamp. *)
Lemma addContact_appends (st st1 : Storage) (contacts : list value) (o : object)
      (stamped : value) (now : jsstring) :
  stored_list st contacts ->
  wf_value (VObj o) = true -> is_json (VObj o) = true -> wf_string now = true ->
  addContact (VObj o) now st = Some (true, st1, stamped) ->
  stamped = VObj (obj_set (js "savedAt") (VStr now) o)
  /\ stored_list st1 (contacts ++ [stamped]).
Proof.
  intros Hst Hwf Hj Hnow Hadd.
  pose proof (stored_list_read st contacts Hst) as Hread.
  unfold addContact in Hadd. rewrite Hread in Hadd.
  destruct (some_entry _ contacts) as [[|]|]; cbn [opt_bind] in Hadd;
    try discriminate.
  cbn [set_prop opt_bind] in Hadd.
  unfold saveSavedContacts, setItem in Hadd.
  match type of Hadd with
  | context [N.leb ?u ?q] => destruct (N.leb_spec u q) as [Hfit|Hfit]
  end; [|discriminate].
  injection Hadd as <- <-.
  set (stamped := VObj (obj_set (js "savedAt") (VStr now) o)) in *.
  assert (Hsw : wf_value stamped = true) by (now apply wf_obj_set).
  assert (Hsj : is_json stamped = true) by (now apply is_json_obj_set).
  destruct Hst as (Hcw & Hcj & Hq & Hitem).
  split; [reflexivity|].
  unfold stored_list. cbn [items quota]. rewrite !forallb_app. cbn [forallb].
  rewrite Hcw, Hcj, Hsw, Hsj. repeat split; try reflexivity; [exact Hfit|].
  left. apply getItem_put_item.
Qed.


Lemma strict_eq_eq a b : strict_eq a b = true -> a = b.
Proof.
  destruct a, b; cbn [strict_eq]; try discriminate; try reflexivity.
  - intros H. apply Bool.eqb_prop in H. now subst.
  - intros H. apply str_eqb_eq in H. now subst.
Qed.

(** An entry that differs from the contact in one of the three fields does
    not match it. *)
Lemma same_triple_differs c contact :
  is_obj c = true -> is_obj contact = true ->
  triple_of c <> triple_of contact -> same_triple c contact = Some false.
Proof.
  intros Hc Hk Hne. unfold same_triple. rewrite !(prop_of_object _ c Hc).
  rewrite !(prop_of_object _ contact Hk). cbn [opt_bind].
  destruct (strict_eq (get "firstName" c) (get "firstName" contact)) eqn:E1;
    [|reflexivity].
  destruct (strict_eq (get "lastName" c) (get "lastName" contact)) eqn:E2;
    [|reflexivity].
  destruct (strict_eq (get "email" c) (get "email" contact)) eqn:E3;
    [|reflexivity].
  exfalso. apply Hne. unfold triple_of.
  now rewrite (strict_eq_eq _ _ E1), (strict_eq_eq _ _ E2), (strict_eq_eq _ _ E3).
Qed.

Lemma some_entry_absent contacts contact :
  forallb is_obj contacts = true -> is_obj contact = true ->
  (forall c, In c contacts -> triple_of c <> triple_of contact) ->
  some_entry (fun x => same_triple x contact) contacts = Some false.
Proof.
  intros Hall Hk Hnew. induction contacts as [|x r IH]; [reflexivity|].
  cbn [forallb] in Hall. apply andb_true_iff in Hall as [Hx Hr].
  cbn [some_entry].
  rewrite (same_triple_differs x contact Hx Hk (Hnew x (or_introl eq_refl))).
  cbn [opt_bind]. apply IH; [exact Hr|]. intros c Hc. apply Hnew. now right.
Qed.

(** X14.  A contact that differs from every stored entry in its first name,
    its last name or its e-mail is accepted when the new list fits in the
    store: it goes to the end of the stored list with its time stamp, and
    [addContact] returns true.  Adding the stamped contact once more
    returns false and changes nothing, so the list is as long after the
    second call as after the first.  When the new list does not fit,
    [addContact] returns false and the store stays as it was. *)
Theorem addContact_twice (st : Storage) (contacts : list value) (o : object)
        (now now' : jsstring) :
  stored_list st contacts -> forallb is_obj contacts = true ->
  wf_value (VObj o) = true -> is_json (VObj o) = true ->
  primitive_triple (VObj o) = true -> wf_string now = true ->
  (forall c, In c contacts -> triple_of c <> triple_of (VObj o)) ->
  let stamped := VObj (obj_set (js "savedAt") (VStr now) o) in
  let needed :=
    N.of_nat (usage (put_item (js "savedContacts")
                       (stringify_text (VArr (contacts ++ [stamped])))
                       (items st))) in
  (needed <= quota st ->
   exists st1,
     addContact (VObj o) now st = Some (true, st1, stamped)
     /\ getSavedContacts st1 = VArr (contacts ++ [stamped])
     /\ addContact stamped now' st1 = Some (false, st1, stamped))
  /\ (quota st < needed -> addContact (VObj o) now st = Some (false, st, stamped)).
Proof.
  intros Hst Hobj Hwf Hj Hp Hnow Hnew. cbv zeta.
  pose proof (stored_list_read st contacts Hst) as Hread.
  assert (Hadd : addContact (VObj o) now st
                 = Some (let (ok, st') :=
                           saveSavedContacts
                             (VArr (contacts
                                    ++ [VObj (obj_set (js "savedAt") (VStr now) o)]))
                             st in
                         (ok, st', VObj (obj_set (js "savedAt") (VStr now) o)))).
  { unfold addContact. rewrite Hread.
    rewrite (some_entry_absent contacts (VObj o) Hobj eq_refl Hnew).
    cbn [opt_bind set_prop].
    now destruct (saveSavedContacts _ st). }
  set (stamped := VObj (obj_set (js "savedAt") (VStr now) o)) in *.
  unfold saveSavedContacts, setItem in Hadd.
  split; intros Hq.
  - apply N.leb_le in Hq. rewrite Hq in Hadd.
    eexists. split; [exact Hadd|].
    destruct (addContact_appends st _ contacts o stamped now Hst Hwf Hj Hnow Hadd)
      as [_ Hst1].
    pose proof (stored_list_read _ _ Hst1) as Hread1.
    split; [exact Hread1|].
    destruct (stamped_triple now o) as [Ht Hpt].
    apply (addContact_refuses_known _ (contacts ++ [stamped]) stamped stamped now'
             Hread1); auto.
    + rewrite forallb_app. cbn [forallb]. now rewrite Hobj.
    + apply in_or_app. right. now left.
    + unfold stamped. now rewrite Hpt.
  - apply N.leb_gt in Hq. rewrite Hq in Hadd. exact Hadd.
Qed.

Lemma addContact_twice_witness :
  exists st1,
    addContact (VObj shared_namesake_fields) some_time store_two_contacts
    = Some (true, st1,
            VObj (obj_set (js "savedAt") (VStr some_time) shared_namesake_fields))
    /\ getSavedContacts st1
       = VArr [contact_ann; contact_bob;
               VObj (obj_set (js "savedAt") (VStr some_time) shared_namesake_fields)]
    /\ addContact (VObj (obj_set (js "savedAt") (VStr some_time)
                           shared_namesake_fields)) some_time st1
       = Some (false, st1,
               VObj (obj_set (js "savedAt") (VStr some_time) shared_namesake_fields)).
Proof.
  apply (addContact_twice store_two_contacts [contact_ann; contact_bob]
           shared_namesake_fields some_time some_time stored_two_contacts);
    try reflexivity.
  - intros c [<-|[<-|[]]]; vm_compute; discriminate.
  - apply N.leb_le. vm_compute. reflexivity.
Defined.

(* ================================================================= *)
(** ** Further properties *)

(** X1.  For every well-formed value without numbers (a value of the
    model: null, booleans, strings, arrays and objects of these) other
    than [undefined], the token exists and decodes to the value as JSON
    keeps it: properties whose value is [undefined] are gone, [undefined]
    array elements are [null].  Values that hold numbers are outside the
    model and the statement says nothing about them. *)
Theorem codec_round_trip_values (v : value) :
  wf_value v = true -> v <> VUndefined ->
  exists token, encodeObj v = Some token /\ decodeObj token = Some (strip v).
Proof. apply decodeObj_encodeObj. Qed.

Lemma codec_round_trip_values_witness :
  exists token,
    encodeObj contact_ann = Some token /\ decodeObj token = Some (strip contact_ann).
Proof.
  apply (codec_round_trip_values contact_ann); [reflexivity|discriminate].
Defined.

(** X2.  Every token consists of letters, digits, [+], [/] and [=]. *)
Theorem tokens_are_base64 (obj : value) (token : jsstring) :
  encodeObj obj = Some token ->
  Forall (fun c => is_b64_char c = true \/ c = 61) token.
Proof. apply token_alphabet. Qed.

Lemma tokens_are_base64_witness :
  exists token,
    encodeObj contact_ann = Some token
    /\ Forall (fun c => is_b64_char c = true \/ c = 61) token.
Proof.
  eexists. split; [vm_compute; reflexivity|].
  eapply (tokens_are_base64 contact_ann). vm_compute. reflexivity.
Defined.

(** X9.  A save that is refused leaves the store as it was. *)
Theorem refused_save_keeps_store (form : SettingsForm) (now : jsstring) (st : Storage) :
  match fst (saveSettings form now st) with
  | Saved _ => True
  | _ => snd (saveSettings form now st) = st
  end.
Proof.
  unfold saveSettings.
  destruct (formatName (firstNameInput form) false) as [fn|]; [|reflexivity].
  destruct (formatName (lastNameInput form) true) as [ln|]; [|reflexivity].
  repeat match goal with
  | |- context [if ?b then (_, _) else _] => destruct b; [reflexivity|]
  end.
  match goal with
  | |- context [saveMyCard ?v st] => destruct (saveMyCard v st) as [ok st2]
  end.
  destruct ok; [exact I|reflexivity].
Qed.

(** X13.  [fixUrl] applied to its own result changes nothing. *)
Theorem fixUrl_idempotent (url : jsstring) : fixUrl (fixUrl url) = fixUrl url.
Proof.
  unfold fixUrl at 2 3.
  destruct (str_eqb (trim url) []) eqn:E; [reflexivity|].
  apply str_eqb_neq in E.
  destruct (trim_no_lead url) as [H1 H2].
  destruct (has_http_scheme (trim url)) eqn:Hs.
  - unfold fixUrl. rewrite trim_idempotent.
    apply str_eqb_neq in E. now rewrite E, Hs.
  - assert (Ht : trim (js "https://" ++ trim url) = js "https://" ++ trim url).
    { apply trim_fixed; [reflexivity|].
      rewrite rev_app_distr. destruct (rev (trim url)) as [|c r] eqn:Er.
      - exfalso. apply E. rewrite <- (rev_involutive (trim url)), Er. reflexivity.
      - exact H2. }
    unfold fixUrl. rewrite Ht.
    change (str_eqb (js "https://" ++ trim url) []) with false. cbv iota.
    assert (Hh : has_http_scheme (js "https://" ++ trim url) = true).
    { unfold has_http_scheme, toLowerCase. rewrite map_app.
      apply orb_true_iff. right. reflexivity. }
    now rewrite Hh.
Qed.

(** X8.  What a successful save has checked: the country code is one of the
    allowed ones, the local number is ten digits, the e-mail has no error,
    and the two phone forms are those of [formatPhone]. *)
Theorem saved_card_is_valid form now st card st' :
  saveSettings form now st = (Saved card, st') ->
  existsb (str_eqb (countryCode card)) ALLOWED_COUNTRY_CODES = true
  /\ length (localNumber card) = 10%nat
  /\ forallb is_digit (localNumber card) = true
  /\ getEmailErrors (emailInput form) = []
  /\ (phone card, phoneE164 card) = formatPhone (countryCode card) (localNumber card).
Proof.
  unfold saveSettings.
  destruct (formatName (firstNameInput form) false) as [fn|]; [|discriminate].
  destruct (formatName (lastNameInput form) true) as [ln|]; [|discriminate].
  destruct (getEmailErrors (emailInput form)) as [|e es]; [|discriminate].
  cbn [length Nat.eqb negb].
  destruct (str_eqb (trim (countryCodeSelect form)) []); [discriminate|].
  destruct (existsb _ ALLOWED_COUNTRY_CODES) eqn:Ecode; [|discriminate].
  destruct (Nat.eqb_spec (length (trim (localNumberInput form))) 10) as [Elen|];
    [|discriminate].
  destruct (forallb is_digit (trim (localNumberInput form))) eqn:Edig; [|discriminate].
  cbn [negb].
  match goal with
  | |- context [saveMyCard ?v st] => destruct (saveMyCard v st) as [ok st2]
  end.
  destruct ok; [|discriminate]. intros H. injection H as <- <-.
  cbn [countryCode localNumber phone phoneE164].
  repeat split; auto; try (now destruct (formatPhone _ _)).
Qed.

Lemma saved_card_is_valid_witness :
  existsb (str_eqb (countryCode card_tilde)) ALLOWED_COUNTRY_CODES = true
  /\ length (localNumber card_tilde) = 10%nat
  /\ forallb is_digit (localNumber card_tilde) = true
  /\ getEmailErrors (emailInput form_tilde) = []
  /\ (phone card_tilde, phoneE164 card_tilde)
     = formatPhone (countryCode card_tilde) (localNumber card_tilde).
Proof.
  apply (saved_card_is_valid form_tilde some_time empty_store card_tilde
           (store_of_card card_tilde)).
  vm_compute. reflexivity.
Defined.


(* ================================================================= *)
(** ** Reading the token back from the address *)

Lemma is_b64_char_In c : is_b64_char c = true -> In c b64_alphabet.
Proof.
  unfold is_b64_char, b64_index.
  induction b64_alphabet as [|d r IH]; cbn [index_of]; [discriminate|].
  destruct (N.eqb_spec c d) as [->|Hne]; [now left|].
  intros H. right. apply IH. destruct (index_of c r); [reflexivity|discriminate].
Qed.

(** The units of a token are ASCII and none of [#], [%], [&]. *)
Lemma token_unit c :
  is_b64_char c = true \/ c = 61 -> c < 128 /\ c <> 35 /\ c <> 37 /\ c <> 38.
Proof.
  intros [H| ->]; [|repeat split; lia].
  apply is_b64_char_In in H.
  assert (Hall : forallb (fun d => (d <? 128) && negb (d =? 35) && negb (d =? 37)
                                   && negb (d =? 38)) b64_alphabet = true)
    by (vm_compute; reflexivity).
  rewrite forallb_forall in Hall. specialize (Hall c H).
  apply andb_true_iff in Hall as [Hall H38]. apply andb_true_iff in Hall as [Hall H37].
  apply andb_true_iff in Hall as [H128 H35].
  apply negb_true_iff, N.eqb_neq in H35, H37, H38. apply N.ltb_lt in H128. auto.
Qed.

Lemma utf8_bytes_ascii s : Forall (fun c => c < 128) s -> utf8_bytes s = s.
Proof.
  induction 1 as [|c r Hc _ IH]; [reflexivity|].
  cbn [utf8_bytes]. rewrite IH.
  unfold is_high_surrogate, is_low_surrogate, in_range, utf8_octets.
  replace (55296 <=? c) with false by (symmetry; apply N.leb_gt; lia).
  replace (56320 <=? c) with false by (symmetry; apply N.leb_gt; lia).
  replace (c <? 128) with true by (symmetry; apply N.ltb_lt; lia).
  reflexivity.
Qed.

Lemma percent_decode_plain s : Forall (fun c => c <> 37) s -> percent_decode s = s.
Proof.
  induction 1 as [|c r Hc _ IH]; [reflexivity|].
  cbn [percent_decode]. destruct (N.eqb_spec c 37); [contradiction|]. now rewrite IH.
Qed.

Lemma utf8_decode_ascii s :
  Forall (fun c => c < 128) s -> utf8_decode 0 0 0 128 191 s = s.
Proof.
  induction 1 as [|c r Hc _ IH]; [reflexivity|].
  cbn [utf8_decode]. change (0 =? 0) with true. cbv iota zeta.
  replace (c <=? 127) with true by (symmetry; apply N.leb_le; lia).
  now rewrite IH.
Qed.

(** A query value of ASCII units without [%] is read with its [+] as
    spaces and nothing else changed. *)
Lemma form_decode_ascii s :
  Forall (fun c => c < 128 /\ c <> 37) s ->
  form_decode s = map (fun c => if c =? 43 then 32 else c) s.
Proof.
  intros H. unfold form_decode.
  assert (Ha : Forall (fun c => c < 128) (map (fun c => if c =? 43 then 32 else c) s)).
  { apply Forall_map. eapply Forall_impl; [|exact H]. intros c [Hc _]. cbv beta.
    destruct (c =? 43); lia. }
  assert (Hp : Forall (fun c => c <> 37) (map (fun c => if c =? 43 then 32 else c) s)).
  { apply Forall_map. eapply Forall_impl; [|exact H]. intros c [_ Hc]. cbv beta.
    destruct (c =? 43); [lia|exact Hc]. }
  rewrite (utf8_bytes_ascii _ Ha), (percent_decode_plain _ Hp).
  now apply utf8_decode_ascii.
Qed.

Lemma split_on_absent sep s : ~ In sep s -> split_on sep s = [s].
Proof.
  induction s as [|c r IH]; intros H; [reflexivity|].
  cbn [split_on]. destruct (N.eqb_spec c sep) as [->|Hne].
  - exfalso. apply H. now left.
  - rewrite IH; [reflexivity|]. intros Hin. apply H. now right.
Qed.

Lemma location_search_share_url baseUrl token :
  mem 63 baseUrl = false -> mem 35 baseUrl = false -> ~ In 35 token ->
  location_search (share_url baseUrl token) = js "?card=" ++ token.
Proof.
  intros Hq Hh Ht. unfold share_url. rewrite Hq.
  assert (Hu : until_hash token = token).
  { induction token as [|c r IH]; [reflexivity|]. cbn [until_hash].
    destruct (N.eqb_spec c 35) as [->|_]; [exfalso; apply Ht; now left|].
    rewrite IH; [reflexivity|]. intros Hin. apply Ht. now right. }
  unfold mem in Hq, Hh.
  induction baseUrl as [|c r IH].
  - cbn. now rewrite Hu.
  - cbn [existsb] in Hq, Hh. apply orb_false_iff in Hq as [Hq1 Hq2].
    apply orb_false_iff in Hh as [Hh1 Hh2].
    cbn [app location_search]. rewrite (N.eqb_sym c 35), Hh1, (N.eqb_sym c 63), Hq1.
    now apply IH.
Qed.

(** What the page reads from a share link: the token with every [+] turned
    into a space. *)
Lemma token_as_read obj token baseUrl :
  encodeObj obj = Some token ->
  mem 63 baseUrl = false -> mem 35 baseUrl = false ->
  URLSearchParams_get "card" (location_search (share_url baseUrl token))
  = Some (map (fun c => if c =? 43 then 32 else c) token).
Proof.
  intros He Hq Hh.
  pose proof (token_alphabet obj token He) as Ha.
  assert (Hu : Forall (fun c => c < 128 /\ c <> 35 /\ c <> 37 /\ c <> 38) token).
  { eapply Forall_impl; [|exact Ha]. intros c. apply token_unit. }
  rewrite Forall_forall in Hu.
  rewrite location_search_share_url; auto.
  2:{ intros Hin. now destruct (Hu _ Hin) as (_ & H & _). }
  unfold URLSearchParams_get.
  change (js "?card=" ++ token) with (63 :: js "card=" ++ token). cbv iota beta.
  change (63 =? 63) with true. cbv iota.
  rewrite split_on_absent.
  2:{ intros [H|[H|[H|[H|[H|Hin]]]]]; try discriminate.
      now destruct (Hu _ Hin) as (_ & _ & _ & H). }
  change (js "card=" ++ token) with (99 :: 97 :: 114 :: 100 :: 61 :: token).
  cbn [first_value split_pair N.eqb Pos.eqb].
  change (str_eqb (form_decode [99; 97; 114; 100]) (js "card")) with true. cbv iota.
  rewrite form_decode_ascii; [reflexivity|].
  apply Forall_forall. intros c Hin. destruct (Hu _ Hin) as (H1 & _ & H2 & _). auto.
Qed.

Lemma plus_as_space_fixed s :
  map (fun c => if c =? 43 then 32 else c) s = s <-> mem 43 s = false.
Proof.
  unfold mem. induction s as [|c r IH]; [split; reflexivity|].
  cbn [map existsb]. rewrite (N.eqb_sym 43 c). split.
  - intros H. injection H as Hc Hr. apply IH in Hr. rewrite Hr.
    destruct (N.eqb_spec c 43) as [->|_]; [discriminate|reflexivity].
  - intros H. apply orb_false_iff in H as [Hc Hr]. rewrite Hc. f_equal. now apply IH.
Qed.

(** X3.  The page reads the [card] parameter of every share link as the token
    with each [+] turned into a space: it reads the token itself exactly
    when the token has no [+]. *)
Theorem token_read_from_link (obj : value) (token baseUrl : jsstring) :
  encodeObj obj = Some token ->
  mem 63 baseUrl = false -> mem 35 baseUrl = false ->
  URLSearchParams_get "card" (location_search (share_url baseUrl token))
  = Some (map (fun c => if c =? 43 then 32 else c) token)
  /\ (URLSearchParams_get "card" (location_search (share_url baseUrl token)) = Some token
      <-> mem 43 token = false).
Proof.
  intros He Hq Hh. rewrite (token_as_read obj token baseUrl He Hq Hh).
  split; [reflexivity|]. rewrite <- plus_as_space_fixed. split.
  - intros H. now injection H.
  - intros H. now rewrite H.
Qed.

Lemma token_read_from_link_witness :
  exists token,
    encodeObj contact_ann = Some token
    /\ URLSearchParams_get "card" (location_search (share_url page_url token))
       = Some (map (fun c => if c =? 43 then 32 else c) token).
Proof.
  eexists. split; [vm_compute; reflexivity|].
  eapply (token_read_from_link contact_ann); vm_compute; reflexivity.
Defined.

(** X4.  A share link whose token has no [+] opens the shared card: the page
    decodes the [card] parameter to the share object the link was built
    from and, when the page can show that object, shows it. *)
Theorem share_link_without_plus_opens (c : Card) (st : Storage)
        (applies : value -> bool)
        (baseUrl : jsstring) (share : value) (token : jsstring) :
  wf_card c = true ->
  mem 63 baseUrl = false -> mem 35 baseUrl = false ->
  buildShareObj (card_value c) false = Some share ->
  encodeObj share = Some token ->
  mem 43 token = false ->
  applies share = true ->
  checkForSharedCard applies (location_search (share_url baseUrl token)) st
  = ViewingShared share.
Proof.
  intros Hwf Hq Hh Hb He Hplus Happ.
  destruct (share_obj_of_card c Hwf) as (share' & Hb' & Hw & Hs & _ & _ & fs & Hfs).
  rewrite Hb in Hb'. injection Hb' as <-.
  destruct (decodeObj_encodeObj share Hw ltac:(subst share; discriminate))
    as (token' & He' & Hd).
  rewrite He in He'. injection He' as <-. rewrite Hs in Hd.
  unfold checkForSharedCard. rewrite (token_as_read share token baseUrl He Hq Hh).
  apply plus_as_space_fixed in Hplus. rewrite Hplus.
  destruct token as [|t0 tr]; [vm_compute in Hd; discriminate|].
  change (str_eqb (t0 :: tr) []) with false. cbv iota.
  rewrite Hd. now rewrite Happ.
Qed.

Lemma share_link_without_plus_opens_witness :
  exists share token,
    buildShareObj (card_value DEFAULT_CARD) false = Some share
    /\ encodeObj share = Some token
    /\ checkForSharedCard (fun _ => true)
         (location_search (share_url page_url token)) empty_store
       = ViewingShared share.
Proof.
  eexists. eexists. split; [vm_compute; reflexivity|].
  split; [vm_compute; reflexivity|].
  eapply (share_link_without_plus_opens DEFAULT_CARD empty_store (fun _ => true)
            page_url);
    vm_compute; reflexivity.
Defined.

(* ================================================================= *)
(** ** Colours, whatever the pickers hold *)

Lemma to_lower_unit_space c : is_js_space (to_lower_unit c) = is_js_space c.
Proof.
  unfold to_lower_unit, is_upper, in_range.
  destruct ((65 <=? c) && (c <=? 90)) eqn:E; [|reflexivity].
  apply andb_true_iff in E as [E1 E2]. apply N.leb_le in E1, E2.
  unfold is_js_space, in_range. decide_cmp. reflexivity.
Qed.

Lemma drop_while_lower s :
  drop_while is_js_space (toLowerCase s) = toLowerCase (drop_while is_js_space s).
Proof.
  induction s as [|c r IH]; [reflexivity|].
  cbn [toLowerCase map drop_while]. rewrite to_lower_unit_space.
  destruct (is_js_space c); [exact IH|reflexivity].
Qed.

Lemma trim_lower s : trim (toLowerCase s) = toLowerCase (trim s).
Proof.
  unfold trim. rewrite drop_while_lower. unfold toLowerCase at 1.
  rewrite <- map_rev. fold (toLowerCase (rev (drop_while is_js_space s))).
  rewrite drop_while_lower. unfold toLowerCase. now rewrite map_rev.
Qed.

Lemma lower_hex36_hex s : lower_hex36 s = true -> hex_color_re s = true.
Proof.
  destruct s as [|c r]; [discriminate|]. cbn [lower_hex36 hex_color_re].
  destruct c as [|p]; [discriminate|].
  do 6 (destruct p as [p|p|]; try discriminate).
  intros H. apply andb_true_iff in H as [Hl Hd]. rewrite Hl. cbn [andb].
  rewrite forallb_forall in *. intros x Hx. specialize (Hd x Hx).
  unfold is_lower_hex, is_hex_digit in *. unbool. tauto.
Qed.

Lemma pickColor_is_hex t p fb :
  isHexColor fb = true -> isHexColor (pickColor t p fb) = true.
Proof.
  intros Hfb. unfold pickColor.
  destruct (isHexColor (trim t)) eqn:E.
  - unfold isHexColor in *. rewrite trim_idempotent in E.
    rewrite trim_lower, trim_idempotent. now apply lower_hex36_hex, hex_color_lower.
  - destruct (isHexColor p) eqn:Ep; [|exact Hfb].
    unfold isHexColor in *. rewrite trim_lower.
    now apply lower_hex36_hex, hex_color_lower.
Qed.

(** X10.  After every successful save the two stored colours are colours in the
    sense of [isHexColor]: once trimmed, a [#] and three or six hexadecimal
    digits. *)
Theorem saved_colors_are_hex form now st card st' :
  saveSettings form now st = (Saved card, st') ->
  isHexColor (cardColor card) = true /\ isHexColor (bgColor card) = true.
Proof.
  intros Hs. destruct (saveSettings_saved _ _ _ _ _ Hs) as (-> & -> & _).
  split; now apply pickColor_is_hex.
Qed.

Lemma saved_colors_are_hex_witness :
  isHexColor (cardColor card_tilde) = true /\ isHexColor (bgColor card_tilde) = true.
Proof.
  apply (saved_colors_are_hex form_tilde some_time empty_store card_tilde
           (store_of_card card_tilde)).
  vm_compute. reflexivity.
Defined.

(* ================================================================= *)
(** ** The page and the store *)

Lemma getItem_removeItem k st : getItem k (items (removeItem k st)) = None.
Proof.
  unfold removeItem. cbn [items].
  induction (items st) as [|[k' t] r IH]; [reflexivity|].
  cbn [filter fst]. destruct (str_eqb k k') eqn:E; cbn [negb]; [exact IH|].
  cbn [getItem]. now rewrite E.
Qed.

(** X6.  After a reset the page shows the built-in card: [removeMyCard] leaves
    no card in the store and [loadMyCard] then applies [DEFAULT_CARD]. *)
Theorem reset_shows_default (st : Storage) :
  fst (removeMyCard st) = true
  /\ getMyCard (snd (removeMyCard st)) = VNull
  /\ loadMyCard (snd (removeMyCard st)) = ViewingOwn (card_value DEFAULT_CARD).
Proof.
  unfold loadMyCard, getMyCard, removeMyCard. cbn [fst snd].
  rewrite getItem_removeItem. repeat split.
Qed.

Lemma map_opt_none (A B : Type) (f : A -> option B) (c : A) (l : list A) :
  In c l -> f c = None -> map_opt f l = None.
Proof.
  intros Hin Hf. induction l as [|x r IH]; [contradiction|].
  cbn [map_opt]. destruct Hin as [->|Hin].
  - now rewrite Hf.
  - rewrite (IH Hin). now destruct (f x).
Qed.

Lemma strip_padding_keeps (c : N) (s : jsstring) :
  In c s -> (c =? 61) = false -> In c (strip_padding s).
Proof.
  intros Hin Hc. unfold strip_padding.
  destruct (N.of_nat (length s) mod 4 =? 0); [|exact Hin].
  destruct (rev s) as [|c1 [|c2 r]] eqn:Er; try exact Hin.
  assert (Hr : In c (c1 :: c2 :: r)) by (rewrite <- Er; now apply in_rev in Hin).
  destruct (N.eqb_spec c1 61) as [->|_]; [|exact Hin].
  destruct Hr as [<-|Hr]; [discriminate|].
  destruct (N.eqb_spec c2 61) as [->|_].
  - destruct Hr as [<-|Hr]; [discriminate|]. now apply in_rev in Hr.
  - now apply in_rev in Hr.
Qed.

(** [atob] throws on a text with a unit that is neither of the alphabet,
    nor [=], nor white space. *)
Lemma atob_rejects (c : N) (s : jsstring) :
  In c s -> is_b64_char c = false -> (c =? 61) = false -> is_ascii_ws c = false ->
  atob s = None.
Proof.
  intros Hin Hb Hc Hw. unfold atob.
  assert (Hf : In c (filter (fun c => negb (is_ascii_ws c)) s)).
  { apply filter_In. split; [exact Hin|]. now rewrite Hw. }
  pose proof (strip_padding_keeps c _ Hf Hc) as Hs.
  destruct (_ =? 1); [reflexivity|].
  rewrite (map_opt_none _ _ b64_index c _ Hs); [reflexivity|].
  unfold is_b64_char in Hb. now destruct (b64_index c).
Qed.

(** X5.  A link whose [card] parameter holds a unit that is neither a
    letter, a digit, [+], [/], [=] nor white space decodes to nothing, and
    the page falls back to the user's own card: the stored one, or the
    built-in one when none is stored. *)
Theorem garbled_link_falls_back (applies : value -> bool) (search token : jsstring)
        (st : Storage) (c : N) :
  URLSearchParams_get "card" search = Some token ->
  In c token -> is_b64_char c = false -> (c =? 61) = false ->
  is_ascii_ws c = false ->
  decodeObj token = None
  /\ checkForSharedCard applies search st = loadMyCard st
  /\ loadMyCard st
     = ViewingOwn (if truthy (getMyCard st) then getMyCard st
                   else card_value DEFAULT_CARD).
Proof.
  intros Hg Hin Hb Hc Hw.
  assert (Hd : decodeObj token = None).
  { unfold decodeObj. now rewrite (atob_rejects c token Hin Hb Hc Hw). }
  split; [exact Hd|]. split.
  - unfold checkForSharedCard. rewrite Hg, Hd. now destruct (str_eqb token []).
  - unfold loadMyCard. now destruct (truthy (getMyCard st)).
Qed.

Lemma garbled_link_falls_back_witness :
  decodeObj (js "e30%") = None
  /\ checkForSharedCard (fun _ => true) (js "?card=e30%25") (store_of_card card_tilde)
     = ViewingOwn (card_value card_tilde).
Proof.
  destruct (garbled_link_falls_back (fun _ => true) (js "?card=e30%25") (js "e30%")
              (store_of_card card_tilde) 37) as (H1 & H2 & H3);
    try (vm_compute; reflexivity).
  - right. right. right. now left.
  - split; [exact H1|]. rewrite H2, H3. vm_compute. reflexivity.
Defined.

(* ================================================================= *)
(** ** What travels in a link and in a QR code *)

(** X15.  The share object carries the two phone forms of the card and neither
    [countryCode], [localNumber] nor [lastUpdated]; its picture is the
    card's. *)
Theorem share_object_fields (c : Card) :
  exists share,
    buildShareObj (card_value c) false = Some share
    /\ get "phone" share = VStr (phone c)
    /\ get "phoneE164" share = VStr (phoneE164 c)
    /\ get "profilePic" share = VStr (profilePic c)
    /\ get "countryCode" share = VUndefined
    /\ get "localNumber" share = VUndefined
    /\ get "lastUpdated" share = VUndefined.
Proof.
  destruct c as [fn ln jt em ph pe ccode ln10 li cc_ bg pic [ce ed pr re rs wo] vis lu].
  destruct rs as [p d|u|]; destruct vis as [[v1 v2 v3 v4 v5 v6]|];
    (eexists; split; [vm_compute; reflexivity|]); repeat split.
Qed.

(** X16.  The object a QR code carries is the share object with its picture
    emptied when the picture is an embedded image and kept otherwise. *)
Theorem qr_drops_embedded_picture (c : Card) :
  exists share fields,
    buildShareObj (card_value c) false = Some (VObj share)
    /\ qr_share_obj (card_value c) = Some (VObj fields)
    /\ fields
       = obj_set (js "profilePic")
           (VStr (if starts_with (js "data:image") (profilePic c) then []
                  else profilePic c)) share.
Proof.
  destruct c as [fn ln jt em ph pe ccode ln10 li cc_ bg pic [ce ed pr re rs wo] vis lu].
  cbn [profilePic].
  assert (Hq : forall share,
    buildShareObj (card_value (mkCard fn ln jt em ph pe ccode ln10 li cc_ bg pic
                     (mkLinks ce ed pr re rs wo) vis lu)) false = Some (VObj share) ->
    get "profilePic" (VObj share) = VStr pic ->
    qr_share_obj (card_value (mkCard fn ln jt em ph pe ccode ln10 li cc_ bg pic
                     (mkLinks ce ed pr re rs wo) vis lu))
    = Some (VObj (obj_set (js "profilePic")
                    (VStr (if starts_with (js "data:image") pic then [] else pic))
                    share))).
  { intros share Hb Hp. unfold qr_share_obj. rewrite Hb. cbn [opt_bind]. rewrite Hp.
    cbn [own_props truthy]. destruct pic as [|p0 pr0]; [reflexivity|].
    change (negb (str_eqb (p0 :: pr0) [])) with true. cbv iota.
    destruct (starts_with (js "data:image") (p0 :: pr0)); reflexivity. }
  destruct rs as [p d|u|]; destruct vis as [[v1 v2 v3 v4 v5 v6]|];
    (eexists; eexists; split; [vm_compute; reflexivity|]);
    (split; [apply Hq; vm_compute; reflexivity|reflexivity]).
Qed.

(* ================================================================= *)
(** ** Names formatted twice *)

Lemma lower_upper_unit c : to_lower_unit (to_upper_unit c) = to_lower_unit c.
Proof.
  unfold to_lower_unit, to_upper_unit, is_upper, is_lower, in_range.
  destruct ((97 <=? c) && (c <=? 122)) eqn:E; [|reflexivity].
  apply andb_true_iff in E as [E1 E2]. apply N.leb_le in E1, E2.
  decide_cmp. cbn [andb]. lia.
Qed.

Lemma lower_lower_unit c : to_lower_unit (to_lower_unit c) = to_lower_unit c.
Proof.
  unfold to_lower_unit, is_upper, in_range.
  destruct ((65 <=? c) && (c <=? 90)) eqn:E; [|now rewrite E].
  apply andb_true_iff in E as [E1 E2]. apply N.leb_le in E1, E2.
  decide_cmp. reflexivity.
Qed.

Lemma lower_unit_32 c : (to_lower_unit c =? 32) = (c =? 32).
Proof.
  unfold to_lower_unit, is_upper, in_range.
  destruct ((65 <=? c) && (c <=? 90)) eqn:E; [|reflexivity].
  apply andb_true_iff in E as [E1 E2]. apply N.leb_le in E1, E2.
  decide_cmp. reflexivity.
Qed.

Lemma name_unit_lower b c : name_unit b (to_lower_unit c) = name_unit b c.
Proof.
  unfold name_unit, is_alpha, to_lower_unit, is_upper, is_lower, in_range.
  destruct ((65 <=? c) && (c <=? 90)) eqn:E; [|cbv iota; now rewrite E].
  apply andb_true_iff in E as [E1 E2]. apply N.leb_le in E1, E2.
  decide_cmp. reflexivity.
Qed.

Lemma toLowerCase_idempotent s : toLowerCase (toLowerCase s) = toLowerCase s.
Proof.
  unfold toLowerCase. rewrite map_map. apply map_ext. apply lower_lower_unit.
Qed.

Lemma toLowerCase_join sep ws :
  toLowerCase (join sep ws) = join (toLowerCase sep) (map toLowerCase ws).
Proof.
  induction ws as [|w ws IH]; [reflexivity|].
  destruct ws as [|w' r]; [reflexivity|].
  cbn [map] in *. rewrite !join_cons. unfold toLowerCase in *.
  now rewrite !map_app, IH.
Qed.

Lemma split_on_cons sep s : exists w ws, split_on sep s = w :: ws.
Proof.
  destruct s as [|c r]; [now exists [], []|]. cbn [split_on].
  destruct (c =? sep); [now eexists; eexists|].
  destruct (split_on sep r); now eexists; eexists.
Qed.

Lemma join_split sep s : join [sep] (split_on sep s) = s.
Proof.
  induction s as [|c r IH]; [reflexivity|]. cbn [split_on].
  destruct (split_on_cons sep r) as (w & ws & E). rewrite E in *.
  destruct (N.eqb_spec c sep) as [->|Hne].
  - rewrite join_cons, IH. reflexivity.
  - destruct ws as [|w' ws'].
    + cbn [join] in *. now rewrite IH.
    + rewrite join_cons. rewrite join_cons in IH. cbn [app] in *. now rewrite IH.
Qed.

Lemma upper_first_lower p : toLowerCase (upper_first p) = toLowerCase p.
Proof.
  destruct p as [|c r]; [reflexivity|]. cbn [upper_first toLowerCase map].
  now rewrite lower_upper_unit.
Qed.

Lemma capitalized_parts_lower sep l :
  to_lower_unit sep = sep ->
  toLowerCase (join [sep] (map upper_first (split_on sep l))) = toLowerCase l.
Proof.
  intros Hsep. rewrite toLowerCase_join, map_map.
  rewrite (map_ext _ toLowerCase upper_first_lower).
  rewrite <- toLowerCase_join, join_split. reflexivity.
Qed.

(** [capitalize] changes the case of letters and nothing else. *)
Lemma capitalize_lower w : toLowerCase (capitalize w) = toLowerCase w.
Proof.
  unfold capitalize.
  destruct (existsb (str_eqb (toLowerCase w)) particles);
    [apply toLowerCase_idempotent|].
  destruct (mem 45 (toLowerCase w)).
  { rewrite (capitalized_parts_lower 45) by reflexivity. apply toLowerCase_idempotent. }
  destruct (mem 39 (toLowerCase w)).
  { rewrite (capitalized_parts_lower 39) by reflexivity. apply toLowerCase_idempotent. }
  rewrite upper_first_lower. apply toLowerCase_idempotent.
Qed.

Lemma capitalize_idempotent w : capitalize (capitalize w) = capitalize w.
Proof. unfold capitalize at 1. rewrite capitalize_lower. reflexivity. Qed.

Lemma name_re_lower b s : name_re b (toLowerCase s) = name_re b s.
Proof.
  destruct s as [|c r]; [reflexivity|]. cbn [toLowerCase map name_re forallb].
  rewrite name_unit_lower. f_equal.
  induction r as [|d r IH]; [reflexivity|]. cbn [map forallb].
  now rewrite name_unit_lower, IH.
Qed.

Lemma no_lead_lower s : no_lead (toLowerCase s) <-> no_lead s.
Proof.
  destruct s as [|c r]; [reflexivity|]. cbn [toLowerCase map no_lead].
  now rewrite to_lower_unit_space.
Qed.

Lemma toLowerCase_rev s : toLowerCase (rev s) = rev (toLowerCase s).
Proof. unfold toLowerCase. apply map_rev. Qed.

Lemma trim_fixed_lower a b :
  toLowerCase a = toLowerCase b -> trim b = b -> trim a = a.
Proof.
  intros E Hb. pose proof (trim_no_lead b) as [H1 H2]. rewrite Hb in H1, H2.
  apply trim_fixed.
  - apply no_lead_lower. rewrite E. now apply no_lead_lower.
  - apply no_lead_lower. rewrite toLowerCase_rev, E, <- toLowerCase_rev.
    now apply no_lead_lower.
Qed.

Lemma replace_spaces_single t : single_spaced (replace_spaces [32] t) = true.
Proof.
  induction t as [|c r IH]; [reflexivity|]. cbn [replace_spaces].
  destruct (is_js_space c) eqn:Ec.
  - destruct r as [|d r']; [reflexivity|].
    destruct (is_js_space d) eqn:Ed; [exact IH|].
    cbn [replace_spaces] in *. rewrite Ed in *.
    cbn [app single_spaced]. change (is_js_space 32) with true.
    rewrite Ed. cbn [N.eqb Pos.eqb andb negb].
    cbn [single_spaced] in IH. rewrite Ed in IH. exact IH.
  - cbn [single_spaced]. rewrite Ec. exact IH.
Qed.

Lemma single_spaced_fixed s : single_spaced s = true -> replace_spaces [32] s = s.
Proof.
  induction s as [|c r IH]; [reflexivity|]. cbn [single_spaced replace_spaces].
  intros H. apply andb_true_iff in H as [Hc Hr].
  destruct (is_js_space c) eqn:Ec.
  - apply andb_true_iff in Hc as [H32 Hn]. apply N.eqb_eq in H32. subst c.
    destruct r as [|d r']; [reflexivity|]. apply negb_true_iff in Hn.
    rewrite Hn. cbn [app]. f_equal. now apply IH.
  - f_equal. now apply IH.
Qed.

Lemma single_spaced_lower s : single_spaced (toLowerCase s) = single_spaced s.
Proof.
  induction s as [|c r IH]; [reflexivity|].
  cbn [toLowerCase map single_spaced]. fold (toLowerCase r).
  rewrite IH, to_lower_unit_space, lower_unit_32. f_equal.
  destruct (is_js_space c); [|reflexivity]. f_equal.
  destruct r as [|d r']; [reflexivity|]. cbn [toLowerCase map].
  now rewrite to_lower_unit_space.
Qed.

Lemma replace_spaces_snoc by_ s c :
  is_js_space c = false -> exists p, replace_spaces by_ (s ++ [c]) = p ++ [c].
Proof.
  intros Hc. induction s as [|x r [p IH]].
  - exists []. cbn [app replace_spaces]. now rewrite Hc.
  - cbn [app replace_spaces]. destruct (is_js_space x).
    + destruct (r ++ [c]) as [|d r'] eqn:E; [now destruct r|].
      destruct (is_js_space d).
      * now exists p.
      * exists (by_ ++ p). now rewrite IH, app_assoc.
    + exists (x :: p). now rewrite IH.
Qed.

(** The normalized last name has no space at either end. *)
Lemma normalized_trimmed name :
  trim (replace_spaces [32] (trim name)) = replace_spaces [32] (trim name).
Proof.
  destruct (trim_no_lead name) as [H1 H2]. apply trim_fixed.
  - destruct (trim name) as [|c r]; [exact I|]. cbn [no_lead] in H1.
    cbn [replace_spaces]. rewrite H1. exact H1.
  - destruct (rev (trim name)) as [|c rs] eqn:E.
    + assert (Ht : trim name = []).
      { rewrite <- (rev_involutive (trim name)), E. reflexivity. }
      rewrite Ht. exact I.
    + cbn [no_lead] in H2.
      assert (Ht : trim name = rev rs ++ [c]).
      { rewrite <- (rev_involutive (trim name)), E. reflexivity. }
      rewrite Ht. destruct (replace_spaces_snoc [32] (rev rs) c H2) as [p ->].
      rewrite rev_app_distr. exact H2.
Qed.

Lemma name_unit_first_plain c : name_unit false c = true -> is_js_space c = false.
Proof.
  unfold name_unit, is_alpha, is_upper, is_lower, is_js_space, in_range.
  cbn [andb]. rewrite orb_false_r. intros H. unbool. repeat split; lia.
Qed.

Lemma plain_replace by_ s :
  forallb (name_unit false) s = true -> replace_spaces by_ s = s.
Proof.
  induction s as [|c r IH]; [reflexivity|]. cbn [forallb replace_spaces].
  intros H. apply andb_true_iff in H as [Hc Hr].
  rewrite (name_unit_first_plain c Hc). f_equal. now apply IH.
Qed.

Lemma plain_trim s : forallb (name_unit false) s = true -> trim s = s.
Proof.
  intros H. rewrite forallb_forall in H. apply trim_fixed.
  - destruct s as [|c r]; [exact I|]. apply name_unit_first_plain, H. now left.
  - destruct (rev s) as [|c r] eqn:E; [exact I|].
    apply name_unit_first_plain, H, in_rev. rewrite E. now left.
Qed.

Lemma name_re_forall b s : name_re b s = true -> forallb (name_unit b) s = true.
Proof. destruct s; [discriminate|auto]. Qed.

Lemma split_on_app sep w rest :
  ~ In sep w -> split_on sep (w ++ sep :: rest) = w :: split_on sep rest.
Proof.
  induction w as [|c r IH]; intros H.
  - cbn [app split_on]. now rewrite N.eqb_refl.
  - cbn [app split_on]. destruct (N.eqb_spec c sep) as [->|_].
    + exfalso. apply H. now left.
    + rewrite IH; [reflexivity|]. intros Hin. apply H. now right.
Qed.

Lemma split_join sep ws :
  ws <> [] -> Forall (fun w => ~ In sep w) ws -> split_on sep (join [sep] ws) = ws.
Proof.
  induction ws as [|w ws IH]; [contradiction|]. intros _ H.
  apply Forall_cons_iff in H as [Hw Hws].
  destruct ws as [|w' r]; [now apply split_on_absent|].
  rewrite join_cons. cbn [app]. rewrite split_on_app by exact Hw.
  f_equal. apply IH; [discriminate|exact Hws].
Qed.

Lemma split_on_parts sep s : Forall (fun w => ~ In sep w) (split_on sep s).
Proof.
  induction s as [|c r IH]; [repeat constructor; intros []|]. cbn [split_on].
  destruct (N.eqb_spec c sep) as [->|Hne]; [constructor; [intros []|exact IH]|].
  destruct (split_on sep r) as [|w ws]; [repeat constructor; intros [H|[]]; congruence|].
  apply Forall_cons_iff in IH as [Hw Hws]. constructor; [|exact Hws].
  intros [H|H]; [congruence|now apply Hw].
Qed.

Lemma in_32_lower s : In 32 (toLowerCase s) <-> In 32 s.
Proof.
  induction s as [|c r IH]; [reflexivity|]. cbn [toLowerCase map In].
  fold (toLowerCase r). rewrite IH.
  pose proof (lower_unit_32 c) as H.
  destruct (N.eqb_spec (to_lower_unit c) 32) as [E1|E1];
    destruct (N.eqb_spec c 32) as [E2|E2]; try discriminate; intuition congruence.
Qed.

Lemma capitalize_no_space w : ~ In 32 w -> ~ In 32 (capitalize w).
Proof.
  intros H Hin. apply H. apply in_32_lower. rewrite <- capitalize_lower.
  now apply in_32_lower.
Qed.

(** The formatted name in lower case is the normalized name in lower
    case. *)
Lemma formatted_lower (isLastName : bool) n :
  toLowerCase (join [32] (map capitalize (if isLastName then split_on 32 n else [n])))
  = toLowerCase n.
Proof.
  rewrite toLowerCase_join, map_map, (map_ext _ toLowerCase capitalize_lower).
  rewrite <- toLowerCase_join. destruct isLastName; [now rewrite join_split|reflexivity].
Qed.

(** X12.  [formatName] applied to its own result returns it. *)
Theorem formatName_idempotent (name : jsstring) (isLastName : bool) (out : jsstring) :
  formatName name isLastName = Some out -> formatName out isLastName = Some out.
Proof.
  unfold formatName at 1.
  set (n := if isLastName then replace_spaces [32] (trim name)
            else replace_spaces [] (trim name)).
  destruct (name_re isLastName n) eqn:Hre; [|discriminate]. cbn [negb].
  destruct ((length n <? 1)%nat || (30 <? length n)%nat) eqn:Hlen; [discriminate|].
  intros H. injection H as Hout.
  pose proof (formatted_lower isLastName n) as Hlow. rewrite Hout in Hlow.
  assert (Hre' : name_re isLastName out = true).
  { now rewrite <- name_re_lower, Hlow, name_re_lower. }
  assert (Hl : length out = length n).
  { apply (f_equal (@length N)) in Hlow. unfold toLowerCase in Hlow.
    now rewrite !length_map in Hlow. }
  assert (Hnorm : (if isLastName then replace_spaces [32] (trim out)
                   else replace_spaces [] (trim out)) = out).
  { destruct isLastName.
    - rewrite (trim_fixed_lower out n Hlow (normalized_trimmed name)).
      apply single_spaced_fixed.
      rewrite <- single_spaced_lower, Hlow, single_spaced_lower.
      apply replace_spaces_single.
    - apply name_re_forall in Hre'. rewrite (plain_trim out Hre').
      now apply plain_replace. }
  unfold formatName. rewrite Hnorm, Hre', Hl, Hlen. cbn [negb]. f_equal.
  rewrite <- Hout at 2. destruct isLastName.
  - rewrite <- Hout at 1. rewrite split_join.
    + now rewrite map_map, (map_ext _ capitalize capitalize_idempotent).
    + destruct (split_on_cons 32 n) as (w & ws & ->). discriminate.
    + apply Forall_map. eapply Forall_impl; [|apply split_on_parts].
      intros w. apply capitalize_no_space.
  - cbn [map join] in *. rewrite <- Hout at 1. now rewrite capitalize_idempotent.
Qed.

Lemma formatName_idempotent_witness :
  formatName (js "O'brien-Smith") true = Some (js "O'brien-Smith").
Proof.
  apply (formatName_idempotent (js " o'BRIEN-smith ") true (js "O'brien-Smith")).
  vm_compute. reflexivity.
Defined.

(* ================================================================= *)
(** ** The saved card read back *)

Lemma card_value_wf (c : Card) :
  wf_card c = true ->
  wf_value (card_value c) = true /\ strip (card_value c) = card_value c.
Proof.
  intros Hwf.
  destruct c as [fn ln jt em ph pe ccode ln10 li cc_ bg pic [ce ed pr re rs wo] vis lu].
  unfold wf_card, wf_links in Hwf. cbn [firstName lastName jobTitle email phone phoneE164
    countryCode localNumber linkedin cardColor bgColor profilePic portfolioLinks
    lastUpdated cert edu proj ref resume work] in Hwf.
  destruct rs as [p d|u|]; cbn [wf_resume] in Hwf; split_wf;
    change (wf_string ?s = true) with (wf_value (VStr s) = true) in *;
    destruct vis as [[v1 v2 v3 v4 v5 v6]|];
    (split; [|reflexivity]);
    cbv [card_value links_value visibility_value resume_fields two_slots app
         firstName lastName jobTitle email phone phoneE164 countryCode localNumber
         linkedin cardColor bgColor profilePic portfolioLinks portfolioVisibility
         lastUpdated cert edu proj ref resume work
         showCert showEdu showProj showRef showResume showWork];
    solve_wf.
Qed.

Lemma stringify_text_object fs :
  stringify (VObj fs) = Some (stringify_text (VObj fs))
  /\ str_eqb (stringify_text (VObj fs)) [] = false.
Proof. split; reflexivity. Qed.

(** X7.  A card that has been saved is the card the page loads: the store
    holds its JSON text and [getMyCard] parses the text back to the card. *)
Theorem saved_card_is_loaded form now st card st' :
  saveSettings form now st = (Saved card, st') ->
  wf_card card = true ->
  getItem (js "myCard") (items st') = Some (stringify_text (card_value card))
  /\ getMyCard st' = card_value card
  /\ loadMyCard st' = ViewingOwn (card_value card).
Proof.
  intros Hs Hwf.
  destruct (saveSettings_saved _ _ _ _ _ Hs) as (_ & _ & _ & _ & Hsave).
  destruct (card_value_wf card Hwf) as [Hw Hstrip].
  unfold saveMyCard, setItem in Hsave.
  destruct (N.of_nat _ <=? quota st); [|discriminate].
  injection Hsave as <-. cbn [items].
  assert (Hget : getMyCard
                   (mkStorage (put_item (js "myCard") (stringify_text (card_value card))
                                 (items st)) (quota st)) = card_value card).
  { unfold getMyCard. cbn [items]. rewrite getItem_put_item.
    destruct (card_value card) as [| | | | |fs] eqn:Ev; try discriminate.
    destruct (stringify_text_object fs) as [Ht ->].
    now rewrite (JSON_parse_stringify (VObj fs) _ Ht Hw), Hstrip. }
  split; [apply getItem_put_item|]. split; [exact Hget|].
  unfold loadMyCard. rewrite Hget. reflexivity.
Qed.

Lemma saved_card_is_loaded_witness :
  getItem (js "myCard") (items (store_of_card card_tilde))
  = Some (stringify_text (card_value card_tilde))
  /\ getMyCard (store_of_card card_tilde) = card_value card_tilde
  /\ loadMyCard (store_of_card card_tilde) = ViewingOwn (card_value card_tilde).
Proof.
  apply (saved_card_is_loaded form_tilde some_time empty_store card_tilde
           (store_of_card card_tilde)).
  - vm_compute. reflexivity.
  - reflexivity.
Defined.

(* ================================================================= *)
(** ** The contrast helpers *)

Lemma lower_unit_hash c : to_lower_unit c = 35 -> c = 35.
Proof.
  unfold to_lower_unit, is_upper, in_range.
  destruct ((65 <=? c) && (c <=? 90)) eqn:E; [|auto].
  apply andb_true_iff in E as [E1 E2]. apply N.leb_le in E1, E2. lia.
Qed.

Lemma lower_hex_of_lower c : is_lower_hex (to_lower_unit c) = true -> is_hex_digit c = true.
Proof.
  unfold to_lower_unit, is_lower_hex, is_hex_digit, is_upper, is_digit, in_range.
  destruct ((65 <=? c) && (c <=? 90)) eqn:E; intros H; unbool; lia.
Qed.

(** The pattern of [_hex] on the lower-cased text is the pattern of
    [isHexColor] on the text. *)
Lemma lower_hex36_lower s : lower_hex36 (toLowerCase s) = hex_color_re s.
Proof.
  destruct (hex_color_re s) eqn:E; [now apply hex_color_lower|].
  destruct (lower_hex36 (toLowerCase s)) eqn:L; [|reflexivity].
  rewrite <- E. symmetry.
  destruct s as [|c r]; [discriminate|]. cbn [toLowerCase map lower_hex36] in L.
  destruct (N.eqb_spec (to_lower_unit c) 35) as [Hc|Hc].
  2:{ destruct (to_lower_unit c) as [|p]; [discriminate|].
      do 6 (destruct p as [p|p|]; try discriminate). congruence. }
  apply lower_unit_hash in Hc as ->. change (to_lower_unit 35) with 35 in L.
  cbn [hex_color_re]. rewrite length_map in L.
  apply andb_true_iff in L as [Hl Hd]. rewrite Hl. cbn [andb].
  apply forallb_forall. intros x Hx. apply lower_hex_of_lower.
  rewrite forallb_forall in Hd. apply Hd. now apply in_map.
Qed.

Lemma lower_hex6_fixed c :
  lower_hex6 c = true -> toLowerCase (trim c) = c /\ lower_hex36 c = true.
Proof.
  intros H. destruct (lower_hex6_picker c H) as (Hi & Hl & H36).
  split; [|exact H36]. unfold isHexColor in Hi.
  assert (Ht : trim c = c).
  { destruct c as [|h r]; [discriminate|]. cbn [lower_hex6] in H.
    destruct (N.eqb_spec h 35) as [->|Hc].
    2:{ destruct h as [|q]; [discriminate|].
        do 6 (destruct q as [q|q|]; try discriminate). congruence. }
    apply andb_true_iff in H as [Hlen Hd].
    apply trim_fixed; [reflexivity|].
    destruct r as [|d1 [|d2 [|d3 [|d4 [|d5 [|d6 [|d7 r]]]]]]]; try discriminate.
    cbn [rev app no_lead]. cbn [forallb] in Hd. split_wf.
    now apply lower_hex_not_space. }
  now rewrite Ht.
Qed.

(** What [_hex] returns: nothing exactly when [isHexColor] says no, and
    otherwise [#] and six lower-case digits, which [_hex] leaves alone. *)
Lemma _hex_cases h :
  (isHexColor h = false /\ _hex h = None)
  \/ (isHexColor h = true /\
      exists c, _hex h = Some c /\ lower_hex6 c = true /\ _hex c = Some c).
Proof.
  unfold isHexColor.
  assert (Hfix : forall c, lower_hex6 c = true -> _hex c = Some c).
  { intros c Hc. unfold _hex. destruct (lower_hex6_fixed c Hc) as [-> ->].
    cbn [negb]. destruct c as [|h0 r]; [discriminate|]. cbn [lower_hex6] in Hc.
    destruct r as [|d1 [|d2 [|d3 [|d4 [|d5 [|d6 [|d7 r]]]]]]];
      try (destruct h0 as [|q]; [discriminate|];
           do 6 (destruct q as [q|q|]; discriminate)); try reflexivity.
    all: destruct h0 as [|q]; try discriminate;
      do 6 (destruct q as [q|q|]; try discriminate). }
  unfold _hex. rewrite lower_hex36_lower.
  destruct (hex_color_re (trim h)) eqn:E; [right|left; auto].
  split; [reflexivity|]. cbn [negb].
  pose proof (hex_color_lower _ E) as L.
  destruct (toLowerCase (trim h)) as [|h0 r] eqn:El; [discriminate|].
  cbn [lower_hex36] in L.
  destruct (N.eqb_spec h0 35) as [->|Hc].
  2:{ destruct h0 as [|q]; [discriminate|].
      do 6 (destruct q as [q|q|]; try discriminate). congruence. }
  apply andb_true_iff in L as [Hlen Hd].
  destruct r as [|d1 [|d2 [|d3 [|d4 [|d5 [|d6 [|d7 r]]]]]]]; try discriminate.
  - cbn [length Nat.eqb nth flat_map app]. cbn [forallb] in Hd. split_wf.
    eexists. split; [reflexivity|].
    assert (H6 : lower_hex6 [35; d1; d1; d2; d2; d3; d3] = true).
    { cbn [lower_hex6 length Nat.eqb andb forallb].
      repeat (apply andb_true_iff; split); auto. }
    split; [exact H6|now apply Hfix].
  - cbn [length Nat.eqb].
    assert (H6 : lower_hex6 [35; d1; d2; d3; d4; d5; d6] = true).
    { cbn [lower_hex6 length Nat.eqb andb]. exact Hd. }
    eexists. split; [reflexivity|]. split; [exact H6|now apply Hfix].
Qed.

(** The value of a hexadecimal digit, zero for another unit. *)
Lemma hex_digit_ascii c : is_hex_digit c = true -> c < 128.
Proof. unfold is_hex_digit, is_digit, in_range. intros H. unbool. lia. Qed.

(** [parseInt] on two hexadecimal digits, in either case of the letters. *)
Lemma parseInt16_pair x y :
  is_hex_digit x = true -> is_hex_digit y = true ->
  exists n, parseInt16 [x; y] = Some n
            /\ parseInt16 [to_lower_unit x; to_lower_unit y] = Some n
            /\ (0 <= n <= 255)%Z.
Proof.
  intros Hx Hy.
  assert (Htab : forall_below 128 (fun a => forall_below 128 (fun b =>
            negb (is_hex_digit a && is_hex_digit b)
            || match parseInt16 [a; b],
                     parseInt16 [to_lower_unit a; to_lower_unit b] with
               | Some n, Some m => (n =? m)%Z && (0 <=? n)%Z && (n <=? 255)%Z
               | _, _ => false
               end)) = true) by (vm_compute; reflexivity).
  pose proof (forall_below_spec _ _ Htab x (hex_digit_ascii x Hx)) as H1.
  cbv beta in H1.
  pose proof (forall_below_spec _ _ H1 y (hex_digit_ascii y Hy)) as H2.
  cbv beta in H2. rewrite Hx, Hy in H2. cbn [andb negb orb] in H2.
  destruct (parseInt16 [x; y]) as [n|]; [|discriminate].
  destruct (parseInt16 [to_lower_unit x; to_lower_unit y]) as [m|]; [|discriminate].
  apply andb_true_iff in H2 as [H2 H255]. apply andb_true_iff in H2 as [Heq H0].
  apply Z.eqb_eq in Heq. apply Z.leb_le in H0, H255. subst m.
  exists n. repeat split; auto.
Qed.

Lemma drop_while_split p s :
  exists pre, s = pre ++ drop_while p s /\ forallb p pre = true.
Proof.
  induction s as [|c r (pre & IH & Hp)]; [now exists []|]. cbn [drop_while].
  destruct (p c) eqn:E; [|now exists []].
  exists (c :: pre). cbn [app forallb]. rewrite E, Hp. split; [now rewrite <- IH|reflexivity].
Qed.

(** A string is its trimmed part between two runs of white space. *)
Lemma trim_split s :
  exists a b, s = a ++ trim s ++ b
              /\ forallb is_js_space a = true /\ forallb is_js_space b = true.
Proof.
  destruct (drop_while_split is_js_space s) as (a & Ha & Hpa).
  destruct (drop_while_split is_js_space (rev (drop_while is_js_space s)))
    as (b & Hb & Hpb).
  exists a, (rev b). unfold trim. split; [|split; [exact Hpa|]].
  - rewrite <- rev_app_distr, <- Hb, rev_involutive. exact Ha.
  - apply forallb_forall. intros x Hx. apply in_rev in Hx.
    rewrite forallb_forall in Hpb. now apply Hpb.
Qed.

Lemma drop_while_spaces a s :
  forallb is_js_space a = true -> no_lead s -> s <> [] ->
  drop_while is_js_space (a ++ s) = s.
Proof.
  intros Ha Hs Hne. induction a as [|c r IH]; cbn [app].
  - now apply drop_while_id.
  - cbn [forallb] in Ha. apply andb_true_iff in Ha as [Hc Hr].
    cbn [drop_while]. rewrite Hc. now apply IH.
Qed.

Lemma trim_padded a s b :
  forallb is_js_space a = true -> forallb is_js_space b = true ->
  no_lead s -> no_lead (rev s) -> s <> [] -> trim (a ++ s ++ b) = s.
Proof.
  intros Ha Hb H1 H2 Hne. unfold trim.
  rewrite drop_while_spaces; auto.
  2:{ destruct s; [contradiction|exact H1]. }
  2:{ destruct s; [contradiction|discriminate]. }
  rewrite rev_app_distr, drop_while_spaces; auto.
  - apply rev_involutive.
  - apply forallb_forall. intros x Hx. apply in_rev in Hx.
    rewrite forallb_forall in Hb. now apply Hb.
  - intros E. apply Hne. rewrite <- (rev_involutive s), E. reflexivity.
Qed.

Lemma remove_first_spaces a s :
  forallb is_js_space a = true -> remove_first 35 (a ++ 35 :: s) = a ++ s.
Proof.
  intros Ha. induction a as [|c r IH]; [reflexivity|].
  cbn [forallb] in Ha. apply andb_true_iff in Ha as [Hc Hr].
  cbn [app remove_first]. destruct (N.eqb_spec c 35) as [->|_]; [discriminate|].
  now rewrite IH.
Qed.

Lemma hex_digit_not_space c : is_hex_digit c = true -> is_js_space c = false.
Proof.
  unfold is_hex_digit, is_js_space, is_digit, in_range. intros H.
  unbool. repeat split; lia.
Qed.

(** [yiq >= 128] as a test on the integer sum. *)
Lemma yiq_test s : Qle_bool 128 (inject_Z s / 1000) = (128000 <=? s)%Z.
Proof.
  apply eq_true_iff_eq. rewrite Qle_bool_iff, Z.leb_le.
  unfold Qle, Qdiv, Qmult, Qinv, inject_Z. cbn. lia.
Qed.

(** The colour text that [contrastColor] parses, for a colour that
    [isHexColor] accepts: the digits of the trimmed colour. *)
Lemma contrast_digits h ds :
  trim h = 35 :: ds -> forallb is_hex_digit ds = true -> ds <> [] ->
  trim (remove_first 35 (if str_eqb h [] then js "#000" else h)) = ds.
Proof.
  intros Ht Hd Hne.
  destruct (trim_split h) as (a & b & Hh & Ha & Hb). rewrite Ht in Hh.
  assert (Hnil : str_eqb h [] = false).
  { apply str_eqb_neq. intros ->. discriminate. }
  rewrite Hnil, Hh. cbn [app]. rewrite remove_first_spaces by exact Ha.
  rewrite forallb_forall in Hd. apply trim_padded; auto.
  - destruct ds as [|d r]; [contradiction|]. apply hex_digit_not_space, Hd. now left.
  - destruct (rev ds) as [|d r] eqn:E; [exact I|].
    apply hex_digit_not_space, Hd, in_rev. rewrite E. now left.
Qed.

Ltac pair_of x y n :=
  let H1 := fresh "P" in let H2 := fresh "P" in let H3 := fresh "P" in
  destruct (parseInt16_pair x y ltac:(assumption) ltac:(assumption))
    as (n & H1 & H2 & H3).

(** For every colour [_rgb] reads, [contrastColor] answers by the
    components [_rgb] gives. *)
Lemma contrast_by_rgb h rr gg bb :
  _rgb h = Some (rr, gg, bb) ->
  exists r g b,
    rr = Some r /\ gg = Some g /\ bb = Some b
    /\ (0 <= r <= 255 /\ 0 <= g <= 255 /\ 0 <= b <= 255)%Z
    /\ contrastColor h
       = if (128000 <=? r * 299 + g * 587 + b * 114)%Z
         then js "#111827" else js "#ffffff".
Proof.
  unfold _rgb, _hex. rewrite lower_hex36_lower.
  destruct (hex_color_re (trim h)) eqn:E; [|discriminate]. cbn [negb].
  destruct (trim h) as [|h0 ds] eqn:Et; [discriminate|].
  cbn [hex_color_re] in E.
  destruct (N.eqb_spec h0 35) as [->|Hc].
  2:{ destruct h0 as [|q]; [discriminate|].
      do 6 (destruct q as [q|q|]; try discriminate). congruence. }
  apply andb_true_iff in E as [Hlen Hd].
  pose proof (contrast_digits h ds Et Hd) as Hcol.
  unfold contrastColor.
  destruct ds as [|d1 [|d2 [|d3 [|d4 [|d5 [|d6 [|d7 r]]]]]]]; try discriminate;
    rewrite Hcol by discriminate; cbn [forallb] in Hd; split_wf;
    cbn [toLowerCase map length Nat.eqb nth flat_map app slice skipn firstn Nat.sub];
    change (to_lower_unit 35) with 35;
    cbn [length Nat.eqb nth flat_map app slice skipn firstn Nat.sub].
  - pair_of d1 d1 r. pair_of d2 d2 g. pair_of d3 d3 b.
    intros Hrgb. rewrite P0, P3, P6 in Hrgb. injection Hrgb as <- <- <-.
    exists r, g, b. rewrite P, P2, P5. cbn [or_zero]. rewrite yiq_test.
    repeat split; auto; lia.
  - pair_of d1 d2 r. pair_of d3 d4 g. pair_of d5 d6 b.
    intros Hrgb. rewrite P0, P3, P6 in Hrgb. injection Hrgb as <- <- <-.
    exists r, g, b. rewrite P, P2, P5. cbn [or_zero]. rewrite yiq_test.
    repeat split; auto; lia.
Qed.

(** X11.  [_hex] gives nothing exactly for the texts [isHexColor] refuses.
    For the others it gives one normal form, [#] and six lower-case digits:
    [isHexColor] accepts the normal form, [_hex] leaves it as it is, and
    [_rgb] reads the same three components from it as from the text. *)
Theorem hex_normal_form (hex : jsstring) :
  (isHexColor hex = false /\ _hex hex = None /\ _rgb hex = None)
  \/ (isHexColor hex = true
      /\ exists c, _hex hex = Some c /\ lower_hex6 c = true
           /\ isHexColor c = true /\ _hex c = Some c /\ _rgb c = _rgb hex).
Proof.
  destruct (_hex_cases hex) as [[Hi Hn]|(Hi & c & Hc & H6 & Hf)].
  - left. unfold _rgb. rewrite Hn. auto.
  - right. split; [exact Hi|]. exists c.
    destruct (lower_hex6_picker c H6) as (Hic & _).
    unfold _rgb. rewrite Hc, Hf. auto.
Qed.

(** X17.  The text colour follows the components: for every colour [_rgb]
    reads, the three components are integers from 0 to 255, and
    [contrastColor] answers "#111827" when 299 r + 587 g + 114 b is at
    least 128000 and "#ffffff" otherwise; it gives the normal form of the
    colour the same answer. *)
Theorem contrast_follows_rgb (hex : jsstring) (rr gg bb : option Z) :
  _rgb hex = Some (rr, gg, bb) ->
  exists r g b,
    rr = Some r /\ gg = Some g /\ bb = Some b
    /\ (0 <= r <= 255 /\ 0 <= g <= 255 /\ 0 <= b <= 255)%Z
    /\ contrastColor hex
       = (if (128000 <=? r * 299 + g * 587 + b * 114)%Z
          then js "#111827" else js "#ffffff")
    /\ forall c, _hex hex = Some c -> contrastColor c = contrastColor hex.
Proof.
  intros Hrgb.
  destruct (contrast_by_rgb hex rr gg bb Hrgb)
    as (r & g & b & -> & -> & -> & Hr & Hc).
  exists r, g, b. repeat split; try tauto. intros c Hh.
  destruct (_hex_cases hex) as [[_ Hn]|(_ & c' & Hc' & _ & Hf)]; [congruence|].
  assert (c' = c) by congruence. subst c'.
  assert (Hrgb' : _rgb c = Some (Some r, Some g, Some b)).
  { unfold _rgb in *. rewrite Hf. now rewrite Hh in Hrgb. }
  destruct (contrast_by_rgb c _ _ _ Hrgb')
    as (r' & g' & b' & E1 & E2 & E3 & _ & Hc2).
  injection E1 as <-. injection E2 as <-. injection E3 as <-. congruence.
Qed.

Lemma contrast_follows_rgb_witness :
  _rgb (js " #FfC ") = Some (Some 255, Some 255, Some 204)%Z
  /\ contrastColor (js " #FfC ") = js "#111827"
  /\ contrastColor (js "#ffffcc") = contrastColor (js " #FfC ").
Proof.
  split; [reflexivity|].
  destruct (contrast_follows_rgb (js " #FfC ") (Some 255%Z) (Some 255%Z) (Some 204%Z)
              eq_refl) as (r & g & b & E1 & E2 & E3 & _ & Hc & Hn).
  injection E1 as <-. injection E2 as <-. injection E3 as <-.
  split; [exact Hc|]. apply Hn. reflexivity.
Defined.

(* ================================================================= *)
(** ** The filters of the text controls *)

Lemma forallb_drop_while (P p : N -> bool) s :
  forallb P s = true -> forallb P (drop_while p s) = true.
Proof.
  induction s as [|c r IH]; [auto|]. cbn [forallb drop_while]. intros H.
  destruct (p c); [|exact H]. apply andb_true_iff in H as [_ H]. now apply IH.
Qed.

Lemma forallb_rev (P : N -> bool) s : forallb P s = true -> forallb P (rev s) = true.
Proof.
  intros H. apply forallb_forall. intros x Hx. apply in_rev in Hx.
  rewrite forallb_forall in H. now apply H.
Qed.

Lemma forallb_trim (P : N -> bool) s : forallb P s = true -> forallb P (trim s) = true.
Proof.
  intros H. unfold trim.
  now apply forallb_rev, forallb_drop_while, forallb_rev, forallb_drop_while.
Qed.

Lemma forallb_replace_spaces (P : N -> bool) by_ s :
  forallb P by_ = true -> forallb P s = true ->
  forallb P (replace_spaces by_ s) = true.
Proof.
  intros Hb. induction s as [|c r IH]; [auto|]. cbn [forallb replace_spaces].
  intros H. apply andb_true_iff in H as [Hc Hr]. specialize (IH Hr).
  destruct (is_js_space c).
  - destruct r as [|d r']; [exact Hb|].
    destruct (is_js_space d); [exact IH|]. rewrite forallb_app. now rewrite Hb, IH.
  - cbn [forallb]. now rewrite Hc, IH.
Qed.

Lemma forallb_filter_id (P : N -> bool) s : forallb P s = true -> filter P s = s.
Proof.
  induction s as [|c r IH]; [auto|]. cbn [forallb filter]. intros H.
  apply andb_true_iff in H as [Hc Hr]. now rewrite Hc, IH.
Qed.

Lemma forallb_filter (P : N -> bool) s : forallb P (filter P s) = true.
Proof.
  induction s as [|c r IH]; [reflexivity|]. cbn [filter].
  destruct (P c) eqn:E; [|exact IH]. cbn [forallb]. now rewrite E, IH.
Qed.

Lemma forallb_filter_keeps (P Q : N -> bool) s :
  forallb P s = true -> forallb P (filter Q s) = true.
Proof.
  induction s as [|c r IH]; [auto|]. cbn [forallb filter]. intros H.
  apply andb_true_iff in H as [Hc Hr]. destruct (Q c); [|now apply IH].
  cbn [forallb]. now rewrite Hc, IH.
Qed.

Lemma replace_spaces_plain by_ s :
  forallb (fun c => negb (is_js_space c)) s = true -> replace_spaces by_ s = s.
Proof.
  induction s as [|c r IH]; [reflexivity|]. cbn [forallb replace_spaces].
  intros H. apply andb_true_iff in H as [Hc Hr]. apply negb_true_iff in Hc.
  rewrite Hc. f_equal. now apply IH.
Qed.

Lemma trim_plain s : forallb (fun c => negb (is_js_space c)) s = true -> trim s = s.
Proof.
  intros H. rewrite forallb_forall in H. apply trim_fixed.
  - destruct s as [|c r]; [exact I|]. apply negb_true_iff, H. now left.
  - destruct (rev s) as [|c r] eqn:E; [exact I|].
    apply negb_true_iff, H, in_rev. rewrite E. now left.
Qed.

(** *** Names *)

Lemma name_re_class b s :
  forallb (name_unit b) s = true -> name_re b s = negb (length s <? 1)%nat.
Proof. destruct s as [|c r]; [reflexivity|]. intros H. exact H. Qed.

(** X18.  A name typed through the filter of its control is refused by
    [formatName] for its length only: with the white space at its ends
    removed and, in a last name, each run of spaces made one space, a name
    of one to thirty units gives its capitalised form, and any other gives
    nothing. *)
Theorem filtered_name_formats (value : jsstring) (isLastName : bool) :
  let typed := if isLastName then lastName_oninput value
               else firstName_oninput value in
  let name := if isLastName then replace_spaces [32] (trim typed)
              else replace_spaces [] (trim typed) in
  formatName typed isLastName
  = if ((length name <? 1) || (30 <? length name))%nat then None
    else Some (join [32] (map capitalize
                            (if isLastName then split_on 32 name else [name]))).
Proof.
  cbv zeta. unfold formatName.
  set (typed := if isLastName then lastName_oninput value else firstName_oninput value).
  set (name := if isLastName then replace_spaces [32] (trim typed)
               else replace_spaces [] (trim typed)).
  assert (Hc : forallb (name_unit isLastName) name = true).
  { assert (Ht : forallb (name_unit isLastName) (trim typed) = true).
    { apply forallb_trim. unfold typed.
      destruct isLastName; apply forallb_filter. }
    unfold name. destruct isLastName; now apply forallb_replace_spaces. }
  rewrite (name_re_class _ _ Hc), negb_involutive.
  destruct (length name <? 1)%nat; reflexivity.
Qed.

(** *** E-mail *)

Lemma email_unit_range c :
  email_unit c = true ->
  (97 <= c <= 122) \/ (48 <= c <= 57) \/ c = 64 \/ c = 46 \/ c = 95 \/ c = 45.
Proof.
  unfold email_unit, is_lower, is_digit, in_range. intros H. unbool. lia.
Qed.

Lemma email_unit_plain c :
  email_unit c = true ->
  to_lower_units c = [c] /\ to_lower_unit c = c /\ is_js_space c = false.
Proof.
  intros H. apply email_unit_range in H.
  unfold to_lower_units, to_lower_unit, is_upper, is_js_space, in_range.
  destruct H as [H|[H|[H|[H|[H|H]]]]]; decide_cmp; repeat split.
Qed.

Lemma email_text_fixed w :
  forallb email_unit w = true ->
  toLowerCase_any w = w /\ toLowerCase w = w /\ filter email_unit w = w
  /\ replace_spaces [] w = w /\ trim w = w.
Proof.
  intros H.
  assert (Hp : forallb (fun c => negb (is_js_space c)) w = true).
  { apply forallb_forall. intros c Hc. rewrite forallb_forall in H.
    destruct (email_unit_plain c (H c Hc)) as (_ & _ & ->). reflexivity. }
  repeat split.
  - induction w as [|c r IH]; [reflexivity|]. cbn [forallb] in H.
    apply andb_true_iff in H as [Hc Hr]. cbn [toLowerCase_any flat_map].
    destruct (email_unit_plain c Hc) as (-> & _). cbn [app]. f_equal.
    apply IH; [exact Hr|]. cbn [forallb] in Hp. now apply andb_true_iff in Hp as [_ Hp].
  - induction w as [|c r IH]; [reflexivity|]. cbn [forallb] in H.
    apply andb_true_iff in H as [Hc Hr]. cbn [toLowerCase map].
    destruct (email_unit_plain c Hc) as (_ & -> & _). f_equal.
    apply IH; [exact Hr|]. cbn [forallb] in Hp. now apply andb_true_iff in Hp as [_ Hp].
  - now apply forallb_filter_id.
  - now apply replace_spaces_plain.
  - now apply trim_plain.
Qed.

Lemma break_at_spec c s :
  mem c s = true ->
  s = fst (break_at c s) ++ c :: snd (break_at c s)
  /\ mem c (fst (break_at c s)) = false.
Proof.
  unfold mem. induction s as [|d r IH]; [discriminate|]. cbn [existsb break_at].
  rewrite (N.eqb_sym c d). destruct (N.eqb_spec d c) as [->|Hne].
  - intros _. split; reflexivity.
  - cbn [orb]. intros H. destruct (IH H) as [IH1 IH2].
    destruct (break_at c r) as [a b]. cbn [fst snd] in *.
    split; [cbn [app]; now rewrite <- IH1|].
    cbn [existsb]. rewrite IH2.
    replace (c =? d) with false by (symmetry; apply N.eqb_neq; congruence).
    reflexivity.
Qed.

Lemma break_at_app c a b :
  mem c a = false -> break_at c (a ++ c :: b) = (a, b).
Proof.
  unfold mem. induction a as [|d r IH]; cbn [app break_at existsb].
  - now rewrite N.eqb_refl.
  - intros H. apply orb_false_iff in H as [H1 H2]. rewrite N.eqb_sym in H1.
    rewrite H1, IH by exact H2. reflexivity.
Qed.

Lemma forallb_app_inv (P : N -> bool) a b :
  forallb P (a ++ b) = true -> forallb P a = true /\ forallb P b = true.
Proof. rewrite forallb_app. apply andb_true_iff. Qed.

(** The shape of a filtered address: a text [u] of allowed units, cut at
    its first [@] with the digits after it removed. *)
Lemma email_oninput_shape value :
  exists u, forallb email_unit u = true
    /\ ((mem 64 u = false /\ email_oninput value = u)
        \/ (exists a b, mem 64 a = false /\ forallb email_unit a = true
              /\ forallb email_unit b = true /\ existsb is_digit b = false
              /\ email_oninput value = a ++ 64 :: b)).
Proof.
  unfold email_oninput.
  set (u := filter email_unit (toLowerCase_any value)).
  assert (Hu : forallb email_unit u = true) by apply forallb_filter.
  destruct (email_text_fixed u Hu) as (_ & _ & _ & -> & _).
  exists u. split; [exact Hu|].
  destruct (mem 64 u) eqn:E; [right|left; auto].
  destruct (break_at_spec 64 u E) as [Hs Ha].
  destruct (break_at 64 u) as [a b]. cbn [fst snd] in *.
  rewrite Hs in Hu. apply forallb_app_inv in Hu as [Hua Hub].
  cbn [forallb] in Hub. apply andb_true_iff in Hub as [_ Hub].
  exists a, (filter (fun c => negb (is_digit c)) b).
  repeat split; auto.
  - now apply forallb_filter_keeps.
  - clear. induction b as [|c r IH]; [reflexivity|]. cbn [filter].
    destruct (is_digit c) eqn:E; cbn [negb]; [exact IH|].
    cbn [existsb]. now rewrite E, IH.
Qed.

Lemma filter_no_digit_fixed b :
  existsb is_digit b = false -> filter (fun c => negb (is_digit c)) b = b.
Proof.
  induction b as [|c r IH]; [reflexivity|]. cbn [existsb filter]. intros H.
  apply orb_false_iff in H as [Hc Hr]. rewrite Hc. cbn [negb]. now rewrite IH.
Qed.

Lemma email_oninput_fixed w :
  forallb email_unit w = true ->
  (mem 64 w = false
   \/ exists a b, mem 64 a = false /\ existsb is_digit b = false /\ w = a ++ 64 :: b) ->
  email_oninput w = w.
Proof.
  intros Hw Hs. unfold email_oninput.
  destruct (email_text_fixed w Hw) as (-> & _ & -> & -> & _).
  destruct Hs as [E|(a & b & Ha & Hb & ->)]; [now rewrite E|].
  assert (E : mem 64 (a ++ 64 :: b) = true).
  { unfold mem. rewrite existsb_app. cbn [existsb]. rewrite N.eqb_refl.
    now rewrite orb_true_r. }
  rewrite E, break_at_app by exact Ha. now rewrite filter_no_digit_fixed.
Qed.

Lemma existsb_when (A : Type) (f : A -> bool) b e : existsb f (when b e) = b && f e.
Proof. destruct b; cbn; [now rewrite orb_false_r|reflexivity]. Qed.

Lemma count_at_zero b :
  length (filter (N.eqb 64) b) = 0%nat -> ~ In 64 b.
Proof.
  induction b as [|c r IH]; [auto|]. cbn [filter]. intros H [Hc|Hin].
  - subst. cbn in H. discriminate.
  - destruct (64 =? c); [discriminate|]. now apply IH.
Qed.

Lemma count_at_absent a : mem 64 a = false -> filter (N.eqb 64) a = [].
Proof.
  unfold mem. induction a as [|c r IH]; [auto|]. cbn [existsb filter]. intros H.
  apply orb_false_iff in H as [Hc Hr]. rewrite Hc. now apply IH.
Qed.

Lemma mem_false_not_In c a : mem c a = false -> ~ In c a.
Proof.
  unfold mem. intros H Hin.
  assert (existsb (N.eqb c) a = true).
  { apply existsb_exists. exists c. split; [exact Hin|apply N.eqb_refl]. }
  congruence.
Qed.

(** X19.  What the filter of the e-mail control leaves: only units of
    [a-z0-9@._-]; a text the filter, [trim] and [toLowerCase] all leave as
    it is; and an address in which [getEmailErrors] never finds a digit in
    the domain. *)
Theorem email_filter_result (value : jsstring) :
  let e := email_oninput value in
  forallb email_unit e = true
  /\ email_oninput e = e
  /\ toLowerCase (trim e) = e
  /\ existsb is_domain_digit_error (getEmailErrors e) = false.
Proof.
  cbv zeta.
  destruct (email_oninput_shape value) as (u & Hu & Hs).
  assert (Hw : forallb email_unit (email_oninput value) = true).
  { destruct Hs as [[_ ->]|(a & b & _ & Ha & Hb & _ & ->)]; [exact Hu|].
    rewrite forallb_app. cbn [forallb]. now rewrite Ha, Hb. }
  destruct (email_text_fixed _ Hw) as (_ & Hl & _ & _ & Ht).
  split; [exact Hw|]. split.
  { apply email_oninput_fixed; [exact Hw|].
    destruct Hs as [[Hm ->]|(a & b & Ha & _ & _ & Hb & ->)]; [now left|].
    right. exists a, b. auto. }
  split; [now rewrite Ht, Hl|].
  unfold getEmailErrors. rewrite Ht, Hl.
  set (w := email_oninput value) in *.
  rewrite !existsb_app, !existsb_when. cbn [is_domain_digit_error].
  rewrite !andb_false_r. cbn [orb].
  destruct (length (filter (N.eqb 64) w) =? 1)%nat eqn:Ec; [|reflexivity].
  apply Nat.eqb_eq in Ec.
  destruct Hs as [[Hm Hw']|(a & b & Ha & _ & _ & Hb & Hw')]; fold w in Hw'.
  - rewrite Hw' in Ec. rewrite (count_at_absent u Hm) in Ec. discriminate.
  - rewrite Hw' in *. rewrite filter_app in Ec. cbn [filter] in Ec.
    rewrite (count_at_absent a Ha) in Ec. change (64 =? 64) with true in Ec.
    cbn [app length] in Ec.
    assert (Hnb : ~ In 64 b) by (apply count_at_zero; lia).
    rewrite split_on_app by (now apply mem_false_not_In).
    rewrite (split_on_absent 64 b Hnb).
    rewrite !existsb_app, !existsb_when. cbn [is_domain_digit_error].
    rewrite !andb_false_r, Hb. reflexivity.
Qed.

(** *** The local number *)

Lemma digits_plain s :
  forallb is_digit s = true -> forallb (fun c => negb (is_js_space c)) s = true.
Proof.
  intros H. apply forallb_forall. intros c Hc. rewrite forallb_forall in H.
  now rewrite (digit_not_space c (H c Hc)).
Qed.

Lemma forallb_firstn (P : N -> bool) n s :
  forallb P s = true -> forallb P (firstn n s) = true.
Proof.
  revert s. induction n as [|n IH]; intros [|c r] H; try reflexivity.
  cbn [forallb firstn] in *. apply andb_true_iff in H as [Hc Hr].
  now rewrite Hc, IH.
Qed.

(** X20.  What the filter of the local number leaves is made of digits, at
    most ten of them, and the filter leaves it as it is; with such a number
    in the control, [saveSettings] never answers that the number must
    contain digits only. *)
Theorem filtered_number (value : jsstring) :
  forallb is_digit (localNumber_filter value) = true
  /\ (length (localNumber_filter value) <= 10)%nat
  /\ localNumber_filter (localNumber_filter value) = localNumber_filter value
  /\ forall form now st,
       localNumberInput form = localNumber_filter value ->
       is_digits_only_error (fst (saveSettings form now st)) = false.
Proof.
  assert (Hd : forallb is_digit (localNumber_filter value) = true).
  { unfold localNumber_filter, slice.
    destruct (10 <? length (filter is_digit value))%nat.
    - cbn [skipn Nat.sub]. apply forallb_firstn, forallb_filter.
    - apply forallb_filter. }
  assert (Hl : (length (localNumber_filter value) <= 10)%nat).
  { unfold localNumber_filter, slice.
    destruct (Nat.ltb_spec 10 (length (filter is_digit value))) as [H|H]; [|exact H].
    cbn [skipn Nat.sub]. rewrite length_firstn. lia. }
  split; [exact Hd|]. split; [exact Hl|]. split.
  { unfold localNumber_filter at 1. rewrite (forallb_filter_id _ _ Hd).
    destruct (Nat.ltb_spec 10 (length (localNumber_filter value))); [lia|reflexivity]. }
  intros form now st Hn. unfold saveSettings.
  destruct (formatName (firstNameInput form) false) as [fn|]; [|reflexivity].
  destruct (formatName (lastNameInput form) true) as [ln|]; [|reflexivity].
  destruct (negb _); [reflexivity|].
  destruct (str_eqb _ []); [reflexivity|].
  destruct (negb (existsb _ _)); [reflexivity|].
  destruct (negb (length _ =? 10)%nat); [reflexivity|].
  rewrite Hn, (trim_plain _ (digits_plain _ Hd)), Hd. cbn [negb].
  match goal with
  | |- context [saveMyCard ?v st] => destruct (saveMyCard v st) as [ok st2]
  end.
  destruct ok; reflexivity.
Qed.

(* ================================================================= *)
(** ** Gestures on the crop image *)

Lemma crop_run_app (T : Type) (A : Arith T) (s : CropState T) evs evs' :
  crop_run s (evs ++ evs') = crop_run (crop_run s evs) evs'.
Proof. unfold crop_run. apply fold_left_app. Qed.

(** While a drag is in progress, moves keep the anchor, the scale and the
    flag. *)
Lemma moves_keep_anchor (T : Type) (A : Arith T) (evs : list (CropEvent T)) :
  forall s, forallb is_move evs = true -> isDragging s = true ->
  isDragging (crop_run s evs) = true
  /\ dragStart (crop_run s evs) = dragStart s
  /\ scale (crop_run s evs) = scale s
  /\ originalImage (crop_run s evs) = originalImage s.
Proof.
  induction evs as [|ev evs IH]; intros s Hm Hd; [repeat split; exact Hd|].
  cbn [forallb] in Hm. apply andb_true_iff in Hm as [He Hm].
  change (crop_run s (ev :: evs)) with (crop_run (crop_step s ev) evs).
  assert (Hs : isDragging (crop_step s ev) = true
               /\ dragStart (crop_step s ev) = dragStart s
               /\ scale (crop_step s ev) = scale s
               /\ originalImage (crop_step s ev) = originalImage s).
  { destruct ev; try discriminate; cbn [crop_step];
      unfold onmousemove, ontouchmove; rewrite Hd; repeat split; exact Hd. }
  destruct Hs as (H1 & H2 & H3 & H4).
  destruct (IH (crop_step s ev) Hm H1) as (I1 & I2 & I3 & I4).
  repeat split; congruence.
Qed.

(** X21.  A drag, by mouse, by touch or by both, in every arithmetic,
    binary64 included: after a press at [p0], any moves and a last move to
    [p1], the offset is p1 - (p0 - offset before the press) on each axis,
    the two differences as the page computes them, whatever the moves in
    between; the scale and the image are unchanged, and the release that
    follows keeps them and ends the drag.  (Without rounding this is the
    old offset plus p1 - p0.) *)
Theorem drag_gesture (T : Type) (A : Arith T) (s : CropState T)
        (press last_ release : CropEvent T) (moves : list (CropEvent T))
        (p0 p1 : Point T) :
  is_press press = true -> pointer_of press = Some p0 ->
  forallb is_move moves = true ->
  is_move last_ = true -> pointer_of last_ = Some p1 ->
  is_release release = true ->
  let s' := crop_run s (press :: moves ++ [last_; release]) in
  position s'
  = mkPoint (sub (px p1) (sub (px p0) (px (position s))))
            (sub (py p1) (sub (py p0) (py (position s))))
  /\ scale s' = scale s
  /\ originalImage s' = originalImage s
  /\ isDragging s' = false.
Proof.
  intros Hp Hp0 Hm Hl Hp1 Hr. cbv zeta.
  change (crop_run s (press :: moves ++ [last_; release]))
    with (crop_run (crop_step s press) (moves ++ [last_; release])).
  rewrite crop_run_app.
  set (s1 := crop_step s press).
  assert (H1 : isDragging s1 = true /\ scale s1 = scale s
               /\ originalImage s1 = originalImage s
               /\ dragStart s1
                  = mkPoint (sub (px p0) (px (position s)))
                            (sub (py p0) (py (position s)))).
  { unfold s1. destruct press; try discriminate; cbn in Hp0;
      injection Hp0 as ->; repeat split. }
  destruct H1 as (Hd1 & Hs1 & Hi1 & Ha1).
  destruct (moves_keep_anchor T A moves s1 Hm Hd1) as (Hd2 & Ha2 & Hs2 & Hi2).
  set (s2 := crop_run s1 moves) in *.
  change (crop_run s2 [last_; release])
    with (crop_step (crop_step s2 last_) release).
  assert (H3 : isDragging (crop_step s2 last_) = true
               /\ scale (crop_step s2 last_) = scale s2
               /\ originalImage (crop_step s2 last_) = originalImage s2
               /\ position (crop_step s2 last_)
                  = mkPoint (sub (px p1) (px (dragStart s2)))
                            (sub (py p1) (py (dragStart s2)))).
  { destruct last_; try discriminate; cbn in Hp1; injection Hp1 as ->;
      cbn [crop_step]; unfold onmousemove, ontouchmove; rewrite Hd2;
      repeat split; exact Hd2. }
  destruct H3 as (Hd3 & Hs3 & Hi3 & Hp3).
  set (s3 := crop_step s2 last_) in *.
  assert (H4 : position (crop_step s3 release) = position s3
               /\ scale (crop_step s3 release) = scale s3
               /\ originalImage (crop_step s3 release) = originalImage s3
               /\ isDragging (crop_step s3 release) = false).
  { destruct release; try discriminate; cbn [crop_step];
      unfold onmouseup, ontouchend; rewrite ?Hd3; repeat split. }
  destruct H4 as (Hp4 & Hs4 & Hi4 & Hd4).
  rewrite Hp4, Hs4, Hi4, Hd4, Hp3, Ha2, Ha1, Hs3, Hs2, Hs1, Hi3, Hi2, Hi1.
  repeat split.
Qed.

(** On the numbers of the page, from the state after two moves of the
    slider: a drag from (200, 120) to (201, 120) past two other points. *)
Lemma drag_gesture_witness :
  position (crop_run crop_zoomed_float
              (TouchStart (float_point 200 120) :: drag_moves_float
               ++ [TouchMove (float_point 201 120); MouseUp]))
  = mkPoint (sub (float_of_Z 201)
                 (sub (float_of_Z 200) (px (position crop_zoomed_float))))
            (sub (float_of_Z 120)
                 (sub (float_of_Z 120) (py (position crop_zoomed_float))))
  /\ isDragging (crop_run crop_zoomed_float
                   (TouchStart (float_point 200 120) :: drag_moves_float
                    ++ [TouchMove (float_point 201 120); MouseUp])) = false.
Proof.
  destruct (drag_gesture PrimFloat.float Arith_float crop_zoomed_float
              (TouchStart (float_point 200 120))
              (TouchMove (float_point 201 120)) MouseUp drag_moves_float
              (float_point 200 120) (float_point 201 120))
    as (H1 & _ & _ & H4); try reflexivity.
  split; [exact H1|exact H4].
Defined.

(** X22.  With no drag in progress, moves and releases, by mouse or by
    touch, leave the crop state as it is. *)
Theorem idle_events_change_nothing (T : Type) (A : Arith T)
        (evs : list (CropEvent T)) (s : CropState T) :
  isDragging s = false ->
  forallb (fun ev => is_move ev || is_release ev) evs = true ->
  crop_run s evs = s.
Proof.
  intros Hd. induction evs as [|ev evs IH]; [reflexivity|].
  cbn [forallb]. intros H0. apply andb_true_iff in H0 as [He Hr].
  change (crop_run s (ev :: evs)) with (crop_run (crop_step s ev) evs).
  assert (Hs : crop_step s ev = s).
  { destruct ev; try discriminate; cbn [crop_step];
      unfold onmousemove, ontouchmove, onmouseup, ontouchend; rewrite ?Hd;
      try reflexivity.
    destruct s as [img sc pos drag anchor]. cbn in Hd. now subst. }
  rewrite Hs. now apply IH.
Qed.

Lemma idle_events_change_nothing_witness :
  crop_run crop_reset [MouseMove (at_point 3 4); TouchEnd; MouseUp;
                       TouchMove (at_point 8 1)]
  = crop_reset.
Proof.
  apply (idle_events_change_nothing Q Arith_Q
           [MouseMove (at_point 3 4); TouchEnd; MouseUp; TouchMove (at_point 8 1)]
           crop_reset); reflexivity.
Defined.

(* ================================================================= *)
(** ** Saving, viewing and deleting contacts *)

Lemma viewContact_stored st l i :
  stored_list st l -> (0 <= i)%Z ->
  viewContact i st
  = Some (let c := nth (Z.to_nat i) l VUndefined in
          if truthy c then Some c else None).
Proof.
  intros Hst Hi. unfold viewContact. rewrite (stored_list_read st l Hst).
  cbn [get_index]. cbv zeta.
  destruct (0 <=? i)%Z eqn:E0; [|apply Z.leb_gt in E0; lia]. cbn [andb].
  destruct (Z.ltb_spec i (Z.of_nat (length l))) as [Hlt|Hge]; [reflexivity|].
  rewrite nth_overflow by lia. reflexivity.
Qed.

(** X24.  Saving the shared card on view: when [saveContact] reports
    success, the stored list is the old one with the card, stamped with
    [savedAt], at its end; View at that index shows the stamped card; the
    page is back on the user's own card with nothing shared, and a second
    call does nothing. *)
Theorem saved_contact_is_viewable (sess sess1 : Session) (o : object) (now : jsstring)
      (st st1 : Storage) (contacts : list value) (message : jsstring)
      (page : PageMode) :
  stored_list st contacts ->
  sharedCardData sess = VObj o ->
  wf_value (VObj o) = true -> is_json (VObj o) = true -> wf_string now = true ->
  saveContact sess now st = (Some (ContactSaved message page), sess1, st1) ->
  let stamped := VObj (obj_set (js "savedAt") (VStr now) o) in
  getSavedContacts st1 = VArr (contacts ++ [stamped])
  /\ viewContact (Z.of_nat (length contacts)) st1 = Some (Some stamped)
  /\ sess1 = mkSession false VNull
  /\ page = loadMyCard st1
  /\ saveContact sess1 now st1 = (Some NothingShared, sess1, st1).
Proof.
  intros Hst Hsh Hwf Hj Hnow Hsave. cbv zeta.
  unfold saveContact in Hsave. rewrite Hsh in Hsave. cbn [truthy negb] in Hsave.
  destruct (addContact (VObj o) now st) as [[[ok st'] c]|] eqn:Hadd; [|discriminate].
  destruct ok; cbn [negb] in Hsave; [|discriminate].
  destruct (to_string (get "firstName" c)); [|discriminate].
  destruct (to_string (get "lastName" c)); [|discriminate].
  injection Hsave as <- <- <- <-.
  destruct (addContact_appends st st' contacts o c now Hst Hwf Hj Hnow Hadd)
    as [-> Hst1].
  split; [now apply stored_list_read|].
  split.
  { rewrite (viewContact_stored _ _ _ Hst1) by lia. cbv zeta.
    rewrite Nat2Z.id, nth_middle. reflexivity. }
  repeat split.
Qed.

Lemma nth_remove_at (A : Type) (d : A) (l : list A) : forall i j,
  nth i (remove_at j l) d = nth (if (i <? j)%nat then i else S i) l d.
Proof.
  induction l as [|x r IH]; intros i j.
  - cbn [remove_at]. destruct (i <? j)%nat; destruct i; reflexivity.
  - destruct j as [|j]; cbn [remove_at]; [reflexivity|].
    destruct i as [|i]; [reflexivity|].
    cbn [nth]. rewrite IH.
    change (S i <? S j)%nat with (i <? j)%nat. destruct (i <? j)%nat; reflexivity.
Qed.

(** [removeContact] at an index inside the stored list. *)
Lemma removeContact_stored (st : Storage) (contacts : list value) (index : Z) :
  stored_list st contacts ->
  (0 <= index < Z.of_nat (length contacts))%Z ->
  exists st',
    removeContact index st = Some (true, st')
    /\ stored_list st' (remove_at (Z.to_nat index) contacts).
Proof.
  intros Hst Hin. pose proof (stored_list_read st contacts Hst) as Hread.
  unfold removeContact. rewrite Hread.
  replace ((index <? 0) || (index >=? Z.of_nat (length contacts)))%Z with false.
  2:{ symmetry. apply orb_false_iff. split; [apply Z.ltb_ge; lia|].
      rewrite Z.geb_leb. apply Z.leb_gt. lia. }
  remember (Z.to_nat index) as i eqn:Ei.
  destruct Hst as (Hwf & Hj & Hq & Hitem).
  destruct Hitem as [Hitem|[_ ->]]; [|cbn [length] in Hin; lia].
  assert (Hfit : N.of_nat (usage (put_item (js "savedContacts")
                   (stringify_text (VArr (remove_at i contacts))) (items st)))
                 <= quota st).
  { pose proof (usage_put_item_present _ _
                  (stringify_text (VArr (remove_at i contacts))) _ Hitem) as Hu.
    pose proof (array_text_remove_length contacts i). lia. }
  eexists. split.
  - unfold saveSavedContacts, setItem. apply N.leb_le in Hfit. rewrite Hfit.
    reflexivity.
  - unfold stored_list. cbn [items quota].
    split; [now apply forallb_remove_at|].
    split; [now apply forallb_remove_at|].
    split; [exact Hfit|]. left. apply getItem_put_item.
Qed.

Lemma saved_contact_is_viewable_witness :
  exists message page st1,
    saveContact session_ann some_time empty_store
    = (Some (ContactSaved message page), mkSession false VNull, st1)
    /\ viewContact 0 st1
       = Some (Some (VObj (obj_set (js "savedAt") (VStr some_time) shared_ann_fields)))
    /\ saveContact (mkSession false VNull) some_time st1
       = (Some NothingShared, mkSession false VNull, st1).
Proof.
  eexists. eexists. eexists. split; [vm_compute; reflexivity|].
  refine ((fun H => conj (proj1 (proj2 H)) (proj2 (proj2 (proj2 (proj2 H)))))
            (saved_contact_is_viewable session_ann (mkSession false VNull)
               shared_ann_fields some_time empty_store _ [] _ _ _ _ _ _ _ _)).
  - unfold stored_list. repeat split; try reflexivity.
    + apply N.leb_le. reflexivity.
    + right. split; reflexivity.
  - reflexivity.
  - reflexivity.
  - reflexivity.
  - reflexivity.
  - vm_compute. reflexivity.
Defined.

(** X25.  Deleting a contact: without the confirmation the store stays as
    it is; with it, for an index inside the stored list, the list loses
    that element, and View then shows at each index below it the contact
    it showed before and at each index from it on the contact that
    followed. *)
Theorem delete_shifts_view (st : Storage) (contacts : list value) (j i : Z) :
  stored_list st contacts ->
  (0 <= j < Z.of_nat (length contacts))%Z -> (0 <= i)%Z ->
  deleteContact false j st = Some st
  /\ exists st1,
       deleteContact true j st = Some st1
       /\ getSavedContacts st1 = VArr (remove_at (Z.to_nat j) contacts)
       /\ viewContact i st1 = viewContact (if (i <? j)%Z then i else i + 1) st.
Proof.
  intros Hst Hj Hi. split; [reflexivity|].
  destruct (removeContact_stored st contacts j Hst Hj) as (st1 & Hr & Hst1).
  exists st1. unfold deleteContact. cbn [negb]. rewrite Hr. cbn [option_map snd].
  split; [reflexivity|]. split; [now apply stored_list_read|].
  rewrite (viewContact_stored _ _ _ Hst1 Hi).
  rewrite (viewContact_stored _ _ _ Hst) by (destruct (i <? j)%Z; lia).
  rewrite nth_remove_at. f_equal.
  destruct (Z.ltb_spec i j) as [H|H].
  - replace (Z.to_nat i <? Z.to_nat j)%nat with true
      by (symmetry; apply Nat.ltb_lt; lia). reflexivity.
  - replace (Z.to_nat i <? Z.to_nat j)%nat with false
      by (symmetry; apply Nat.ltb_ge; lia).
    replace (Z.to_nat (i + 1)) with (S (Z.to_nat i)) by lia. reflexivity.
Qed.

Lemma delete_shifts_view_witness :
  deleteContact false 0 store_two_contacts = Some store_two_contacts
  /\ exists st1,
       deleteContact true 0 store_two_contacts = Some st1
       /\ getSavedContacts st1 = VArr [contact_bob]
       /\ viewContact 0 st1 = viewContact 1 store_two_contacts.
Proof.
  apply (delete_shifts_view store_two_contacts [contact_ann; contact_bob] 0 0
           stored_two_contacts); cbn; lia.
Defined.

(* ================================================================= *)
(** ** The phone line of a card *)

Lemma digits_upto_spec n : forall s ds r,
  digits_upto n s = (ds, r) ->
  (length ds <= n)%nat /\ forallb is_digit ds = true /\ s = ds ++ r.
Proof.
  induction n as [|n IH]; intros s ds r; cbn [digits_upto].
  - intros H. injection H as <- <-. repeat split. cbn. lia.
  - destruct s as [|d s'].
    + intros H. injection H as <- <-. repeat split. cbn. lia.
    + destruct (is_digit d) eqn:Ed.
      * destruct (digits_upto n s') as [ds' r'] eqn:E. intros H. injection H as <- <-.
        destruct (IH s' ds' r' E) as (Hl & Hd & ->).
        cbn [length forallb app]. rewrite Ed, Hd. repeat split. lia.
      * intros H. injection H as <- <-. repeat split. cbn. lia.
Qed.

Lemma digits_exactly_spec n : forall s ds r,
  digits_exactly n s = Some (ds, r) ->
  length ds = n /\ forallb is_digit ds = true /\ s = ds ++ r.
Proof.
  induction n as [|n IH]; intros s ds r; cbn [digits_exactly].
  - intros H. injection H as <- <-. repeat split.
  - destruct s as [|d s']; [discriminate|].
    destruct (is_digit d) eqn:Ed; [|discriminate].
    destruct (digits_exactly n s') as [[ds' r']|] eqn:E; [|discriminate].
    cbn [cons_fst]. intros H. injection H as <- <-.
    destruct (IH s' ds' r' E) as (<- & Hd & ->).
    cbn [length forallb app]. rewrite Ed, Hd. repeat split.
Qed.

(** What [parsePrettyPhone10] returns for the pretty form of
    [formatPhone]. *)
Lemma parse_formatted (code num : jsstring) :
  (1 <= length code <= 3)%nat -> forallb is_digit code = true ->
  length num = 10%nat -> forallb is_digit num = true ->
  parsePrettyPhone10 (fst (formatPhone code num))
  = Some (mkPrettyPhone code num
            (js "(" ++ slice 0 3 num ++ js ")-" ++ slice 3 6 num
             ++ js "-" ++ slice_from 6 num)).
Proof.
  intros Hlen Hcode Hn Hnum.
  destruct num as [|d1 [|d2 [|d3 [|d4 [|d5 [|d6 [|d7 [|d8 [|d9 [|d10 [|d11 r]]]]]]]]]]];
    try discriminate.
  cbn [forallb] in Hnum. split_wf.
  unfold formatPhone, slice, slice_from.
  cbn [fst skipn firstn Nat.sub js list_ascii_of_string map N_of_ascii N_of_digits
       N.add N.mul Pos.add Pos.mul Pos.succ].
  unfold parsePrettyPhone10.
  cbn [app opt_unit N.eqb Pos.eqb].
  rewrite (digits_upto_run 3 code 32) by (auto; lia).
  replace (length code =? 0)%nat with false by (symmetry; apply Nat.eqb_neq; lia).
  cbn [app].
  change (drop_while is_js_space (32 :: 40 :: ?x)) with (40 :: x).
  cbn [expect_unit N.eqb Pos.eqb opt_bind].
  assert (Hall : forall ds, Forall (fun d => is_digit d = true) ds ->
                           forallb is_digit ds = true).
  { intros ds Hds. apply forallb_forall. now apply Forall_forall. }
  pose proof (digits_exactly_app [d1; d2; d3] [41; 32; d4; d5; d6; 45; d7; d8; d9; d10]
                (Hall [d1; d2; d3] ltac:(repeat constructor; assumption))) as E1.
  pose proof (digits_exactly_app [d4; d5; d6] [45; d7; d8; d9; d10]
                (Hall [d4; d5; d6] ltac:(repeat constructor; assumption))) as E2.
  pose proof (digits_exactly_app [d7; d8; d9; d10] []
                (Hall [d7; d8; d9; d10] ltac:(repeat constructor; assumption))) as E3.
  cbn [length app] in E1, E2, E3.
  rewrite E1. cbn [opt_bind expect_unit N.eqb Pos.eqb].
  change (drop_while is_js_space (32 :: d4 :: ?x))
    with (drop_while is_js_space (d4 :: x)).
  rewrite drop_while_id by (cbn [no_lead]; now apply digit_not_space).
  rewrite E2. cbn [opt_bind expect_unit N.eqb Pos.eqb].
  rewrite E3.
  reflexivity.
Qed.

(** X26.  Whatever [parsePrettyPhone10] accepts, it returns a country code
    of one to three digits and a local number of ten digits, with
    [prettyLocal] made of the same digits; the pretty form [formatPhone]
    gives for the two parses to the same result, so a parsed number is
    displayed in one normal form. *)
Theorem parsed_phone_normal (prettyPhone : jsstring) (p : PrettyPhone) :
  parsePrettyPhone10 prettyPhone = Some p ->
  (1 <= length (cc p) <= 3)%nat /\ forallb is_digit (cc p) = true
  /\ length (local p) = 10%nat /\ forallb is_digit (local p) = true
  /\ prettyLocal p = js "(" ++ slice 0 3 (local p) ++ js ")-"
                     ++ slice 3 6 (local p) ++ js "-" ++ slice_from 6 (local p)
  /\ parsePrettyPhone10 (fst (formatPhone (cc p) (local p))) = Some p.
Proof.
  intros H.
  assert (Hs : (1 <= length (cc p) <= 3)%nat /\ forallb is_digit (cc p) = true
               /\ length (local p) = 10%nat /\ forallb is_digit (local p) = true
               /\ prettyLocal p = js "(" ++ slice 0 3 (local p) ++ js ")-"
                                  ++ slice 3 6 (local p) ++ js "-"
                                  ++ slice_from 6 (local p)).
  { unfold parsePrettyPhone10 in H.
    destruct (digits_upto 3 (opt_unit 43 prettyPhone)) as [m1 s1] eqn:E1.
    destruct (digits_upto_spec _ _ _ _ E1) as (L1 & D1 & _).
    destruct (Nat.eqb_spec (length m1) 0) as [|N1]; [discriminate|].
    destruct (expect_unit 40 (drop_while is_js_space s1)) as [s2|]; [|discriminate].
    cbn [opt_bind] in H.
    destruct (digits_exactly 3 s2) as [[m2 s3]|] eqn:E2; [|discriminate].
    destruct (digits_exactly_spec _ _ _ _ E2) as (L2 & D2 & _).
    cbn [opt_bind] in H.
    destruct (expect_unit 41 s3) as [s4|]; [|discriminate].
    cbn [opt_bind] in H.
    destruct (digits_exactly 3 (drop_while is_js_space s4)) as [[m3 s5]|] eqn:E3;
      [|discriminate].
    destruct (digits_exactly_spec _ _ _ _ E3) as (L3 & D3 & _).
    cbn [opt_bind] in H.
    destruct (expect_unit 45 s5) as [s6|]; [|discriminate].
    cbn [opt_bind] in H.
    destruct (digits_exactly 4 s6) as [[m4 s7]|] eqn:E4; [|discriminate].
    destruct (digits_exactly_spec _ _ _ _ E4) as (L4 & D4 & _).
    cbn [opt_bind] in H.
    destruct s7; [|discriminate]. injection H as <-.
    cbn [cc local prettyLocal].
    split; [lia|]. split; [exact D1|].
    split; [rewrite !length_app; lia|].
    split; [rewrite !forallb_app, D2, D3, D4; reflexivity|].
    destruct m2 as [|a1 [|a2 [|a3 [|]]]]; try discriminate.
    destruct m3 as [|b1 [|b2 [|b3 [|]]]]; try discriminate.
    reflexivity. }
  destruct Hs as (H1 & H2 & H3 & H4 & H5).
  repeat (split; [assumption|]).
  rewrite (parse_formatted _ _ H1 H2 H3 H4), <- H5. now destruct p.
Qed.

Lemma parsed_phone_normal_witness :
  parsePrettyPhone10 (js "44(020)  794-6000") = Some parsed_london
  /\ cc parsed_london = js "44" /\ local parsed_london = js "0207946000"
  /\ parsePrettyPhone10 (js "+44 (020) 794-6000") = Some parsed_london.
Proof.
  split; [reflexivity|]. split; [reflexivity|]. split; [reflexivity|].
  apply (parsed_phone_normal (js "44(020)  794-6000") parsed_london).
  reflexivity.
Defined.

Lemma allowed_code_digits code :
  existsb (str_eqb code) ALLOWED_COUNTRY_CODES = true ->
  (1 <= length code <= 3)%nat /\ forallb is_digit code = true.
Proof.
  intros H. apply existsb_exists in H as (x & Hin & Hx).
  apply str_eqb_eq in Hx. subst x.
  cbn in Hin. repeat destruct Hin as [<-|Hin]; try contradiction;
    (split; [cbn; lia|reflexivity]).
Qed.

(** The phone fields of a card that [saveSettings] has stored. *)
Lemma saveSettings_phone form now st card st' :
  saveSettings form now st = (Saved card, st') ->
  exists code num,
    existsb (str_eqb code) ALLOWED_COUNTRY_CODES = true
    /\ length num = 10%nat /\ forallb is_digit num = true
    /\ phone card = fst (formatPhone code num)
    /\ phoneE164 card = snd (formatPhone code num).
Proof.
  unfold saveSettings.
  destruct (formatName (firstNameInput form) false) as [fn|]; [|discriminate].
  destruct (formatName (lastNameInput form) true) as [ln|]; [|discriminate].
  destruct (negb _); [discriminate|].
  destruct (str_eqb (trim (countryCodeSelect form)) []); [discriminate|].
  destruct (existsb _ ALLOWED_COUNTRY_CODES) eqn:Ecode; [|discriminate].
  destruct (Nat.eqb_spec (length (trim (localNumberInput form))) 10) as [Elen|];
    [|discriminate].
  destruct (forallb is_digit (trim (localNumberInput form))) eqn:Edig; [|discriminate].
  cbn [negb].
  match goal with
  | |- context [saveMyCard ?v st] => destruct (saveMyCard v st) as [ok st2]
  end.
  destruct ok; [|discriminate]. intros H. injection H as <- <-.
  cbn [phone phoneE164]. eexists. eexists. repeat split; eauto.
Qed.

(** X27.  The phone line of a card that the settings have saved: the text
    is the stored pretty number and the link is [tel:] and the stored
    E.164 number; the same card without its [phoneE164], as earlier
    versions stored it, shows the same text and the same link, read back
    from the pretty number. *)
Theorem legacy_phone_display form now st card st' :
  saveSettings form now st = (Saved card, st') ->
  phone_display card = (phone card, js "tel:" ++ phoneE164 card)
  /\ phone_display (without_e164 card) = phone_display card.
Proof.
  intros Hs.
  destruct (saveSettings_phone _ _ _ _ _ Hs) as (code & num & Hc & Hl & Hd & Hp & He).
  destruct (allowed_code_digits code Hc) as [Hcl Hcd].
  assert (H1 : phone_display card = (phone card, js "tel:" ++ phoneE164 card)).
  { unfold phone_display. rewrite He. unfold formatPhone. cbn [snd].
    reflexivity. }
  split; [exact H1|]. rewrite H1.
  unfold phone_display. cbn [without_e164 phone phoneE164].
  rewrite Hp, He, (parse_formatted code num Hcl Hcd Hl Hd).
  cbn [cc local]. unfold formatPhone. cbn [fst snd]. reflexivity.
Qed.

Lemma legacy_phone_display_witness :
  phone_display card_tilde = (phone card_tilde, js "tel:" ++ phoneE164 card_tilde)
  /\ phone_display (without_e164 card_tilde) = phone_display card_tilde.
Proof.
  apply (legacy_phone_display form_tilde some_time empty_store card_tilde
           (store_of_card card_tilde)).
  vm_compute. reflexivity.
Defined.

(* ================================================================= *)
(** ** The portfolio section *)

(** The buttons of the section, for each choice of the six flags. *)
Lemma section_of_buttons b1 b2 b3 b4 b5 b6 :
  match section_of b1 b2 b3 b4 b5 b6 with
  | SectionUntouched => False
  | SectionHidden => count_true [b1; b2; b3; b4; b5; b6] = 0%nat
  | SectionShown html =>
      count_true [b1; b2; b3; b4; b5; b6] <> 0%nat
      /\ occurrences (js "<button") html = count_true [b1; b2; b3; b4; b5; b6]
      /\ map (fun item => occurrences (button (js (fst item), js (snd item))) html)
             portfolio_items
         = map one_if [b1; b2; b3; b4; b5; b6]
  end.
Proof.
  destruct b1, b2, b3, b4, b5, b6; vm_compute; repeat split; discriminate.
Qed.

Lemma render_section (cardData : value) :
  nullish cardData = false ->
  renderPortfolioSection cardData true
  = Some (section_of (not_false "cert" (visibility_of cardData))
                     (not_false "edu" (visibility_of cardData))
                     (not_false "proj" (visibility_of cardData))
                     (not_false "ref" (visibility_of cardData))
                     (not_false "resume" (visibility_of cardData))
                     (not_false "work" (visibility_of cardData))).
Proof.
  intros Hn. unfold renderPortfolioSection, section_of, visibleItems.
  destruct cardData; try discriminate; cbn [negb];
    match goal with
    | |- context [(length ?l =? 0)%nat] => destruct (length l =? 0)%nat
    end; try reflexivity;
    match goal with
    | |- context [grid_of ?l] => destruct (grid_of l)
    end; reflexivity.
Qed.

(** X28.  The portfolio section shows one button for each kind of item
    whose flag in [portfolioVisibility] is not [false], and none for the
    others, in each of the layouts; it is hidden exactly when all six
    flags are [false], and left alone when the page has no such section.
    A card without [portfolioVisibility] shows all six. *)
Theorem portfolio_buttons (cardData : value) :
  nullish cardData = false ->
  let visibility := visibility_of cardData in
  let flags := map (fun item => not_false (fst item) visibility) portfolio_items in
  renderPortfolioSection cardData false = Some SectionUntouched
  /\ (truthy (get "portfolioVisibility" cardData) = false ->
      count_true flags = 6%nat)
  /\ exists view,
       renderPortfolioSection cardData true = Some view
       /\ match view with
          | SectionUntouched => False
          | SectionHidden => count_true flags = 0%nat
          | SectionShown html =>
              count_true flags <> 0%nat
              /\ occurrences (js "<button") html = count_true flags
              /\ map (fun item =>
                        occurrences (button (js (fst item), js (snd item))) html)
                     portfolio_items
                 = map one_if flags
          end.
Proof.
  intros Hn. cbv zeta. split; [|split].
  - destruct cardData; try discriminate; reflexivity.
  - intros Hv. unfold visibility_of. rewrite Hv. reflexivity.
  - eexists. split; [now apply render_section|].
    apply section_of_buttons.
Qed.

Lemma portfolio_buttons_witness :
  nullish (card_value card_tilde) = false
  /\ exists html,
       renderPortfolioSection (card_value card_tilde) true = Some (SectionShown html)
       /\ occurrences (js "<button") html = 6%nat.
Proof.
  split; [reflexivity|].
  destruct (portfolio_buttons (card_value card_tilde) eq_refl)
    as (_ & _ & view & Hr & Hv).
  vm_compute in Hr. injection Hr as <-.
  eexists. split; [vm_compute; reflexivity|]. exact (proj1 (proj2 Hv)).
Defined.

